(** * th-shop-bot: the text-field extractors, the catalog store and the
    cart / order model of [bot.py], embedded in Rocq.

    Python strings are sequences of Unicode code points, so a string is a
    list of code points ([N]).  Python integers are unbounded and are [Z].
    Functions that may raise return in the small error monad [py].

    The regular expressions of [bot.py] are kept as syntax trees and run by a
    backtracking matcher that lists the matches in the order in which
    Python's [re] engine tries them (greedy quantifiers, ordered
    alternation), so the first element is the match [re] reports. *)

From Stdlib Require Import String Ascii.
From Stdlib Require Import List NArith ZArith Bool Lia Arith.
From Stdlib Require Import Permutation Sorting.Sorted.
Import ListNotations.

(** ** Code points and strings *)

Definition char := N.
Definition str := list char.

Definition str_eqb (a b : str) : bool :=
  if list_eq_dec N.eq_dec a b then true else false.

(** Literals: a Rocq string holds the UTF-8 bytes of the text; [u] decodes
    them to code points. *)
Fixpoint utf8_decode (bs : list N) : str :=
  match bs with
  | [] => []
  | b :: r =>
    if (b <? 128)%N then b :: utf8_decode r
    else if (b <? 224)%N then
      match r with
      | b1 :: r' => ((b - 192) * 64 + (b1 - 128))%N :: utf8_decode r'
      | _ => []
      end
    else if (b <? 240)%N then
      match r with
      | b1 :: b2 :: r' =>
        ((b - 224) * 4096 + (b1 - 128) * 64 + (b2 - 128))%N :: utf8_decode r'
      | _ => []
      end
    else
      match r with
      | b1 :: b2 :: b3 :: r' =>
        ((b - 240) * 262144 + (b1 - 128) * 4096 + (b2 - 128) * 64 + (b3 - 128))%N
          :: utf8_decode r'
      | _ => []
      end
  end.

Definition u (s : string) : str :=
  utf8_decode (map N_of_ascii (list_ascii_of_string s)).

Arguments u s%_string.

Definition LF : char := 10%N.
Definition NBSP : char := 160%N.
Definition SPACE : char := 32%N.

(** ** Exceptions *)

Inductive exn := IndexError | ValueError | TypeError | OverflowError.

Inductive py (A : Type) : Type :=
| Ok (a : A)
| Raise (e : exn).
Arguments Ok {A} a.
Arguments Raise {A} e.

Definition bind {A B} (m : py A) (f : A -> py B) : py B :=
  match m with
  | Ok a => f a
  | Raise e => Raise e
  end.

Notation "x <- m ;; k" := (bind m (fun x => k))
  (at level 61, m at next level, right associativity).

(** ** Unicode character classes

    The tables are those of Unicode 14.0: [decimal_ranges] is general
    category Nd ([\d] and [str.isdecimal]), [digit_ranges] is
    [str.isdigit], [alnum_ranges] is [str.isalnum]; [\w] is [isalnum] or
    the underscore. *)

Definition in_ranges (t : list (N * N)) (c : char) : bool :=
  existsb (fun r => (fst r <=? c)%N && (c <=? snd r)%N) t.

Definition decimal_ranges : list (N * N) :=
  [(48, 57); (1632, 1641); (1776, 1785); (1984, 1993); (2406, 2415); (2534, 2543);
   (2662, 2671); (2790, 2799); (2918, 2927); (3046, 3055); (3174, 3183); (3302, 3311);
   (3430, 3439); (3558, 3567); (3664, 3673); (3792, 3801); (3872, 3881); (4160, 4169);
   (4240, 4249); (6112, 6121); (6160, 6169); (6470, 6479); (6608, 6617); (6784, 6793);
   (6800, 6809); (6992, 7001); (7088, 7097); (7232, 7241); (7248, 7257); (42528, 42537);
   (43216, 43225); (43264, 43273); (43472, 43481); (43504, 43513); (43600, 43609); (44016, 44025);
   (65296, 65305); (66720, 66729); (68912, 68921); (69734, 69743); (69872, 69881); (69942, 69951);
   (70096, 70105); (70384, 70393); (70736, 70745); (70864, 70873); (71248, 71257); (71360, 71369);
   (71472, 71481); (71904, 71913); (72016, 72025); (72784, 72793); (73040, 73049); (73120, 73129);
   (92768, 92777); (92864, 92873); (93008, 93017); (120782, 120831); (123200, 123209); (123632, 123641);
   (125264, 125273); (130032, 130041)]%N.

Definition digit_ranges : list (N * N) :=
  [(48, 57); (178, 179); (185, 185); (1632, 1641); (1776, 1785); (1984, 1993);
   (2406, 2415); (2534, 2543); (2662, 2671); (2790, 2799); (2918, 2927); (3046, 3055);
   (3174, 3183); (3302, 3311); (3430, 3439); (3558, 3567); (3664, 3673); (3792, 3801);
   (3872, 3881); (4160, 4169); (4240, 4249); (4969, 4977); (6112, 6121); (6160, 6169);
   (6470, 6479); (6608, 6618); (6784, 6793); (6800, 6809); (6992, 7001); (7088, 7097);
   (7232, 7241); (7248, 7257); (8304, 8304); (8308, 8313); (8320, 8329); (9312, 9320);
   (9332, 9340); (9352, 9360); (9450, 9450); (9461, 9469); (9471, 9471); (10102, 10110);
   (10112, 10120); (10122, 10130); (42528, 42537); (43216, 43225); (43264, 43273); (43472, 43481);
   (43504, 43513); (43600, 43609); (44016, 44025); (65296, 65305); (66720, 66729); (68160, 68163);
   (68912, 68921); (69216, 69224); (69714, 69722); (69734, 69743); (69872, 69881); (69942, 69951);
   (70096, 70105); (70384, 70393); (70736, 70745); (70864, 70873); (71248, 71257); (71360, 71369);
   (71472, 71481); (71904, 71913); (72016, 72025); (72784, 72793); (73040, 73049); (73120, 73129);
   (92768, 92777); (92864, 92873); (93008, 93017); (120782, 120831); (123200, 123209); (123632, 123641);
   (125264, 125273); (127232, 127242); (130032, 130041)]%N.

Definition alnum_ranges : list (N * N) :=
  [(48, 57); (65, 90); (97, 122); (170, 170); (178, 179); (181, 181);
   (185, 186); (188, 190); (192, 214); (216, 246); (248, 705); (710, 721);
   (736, 740); (748, 748); (750, 750); (880, 884); (886, 887); (890, 893);
   (895, 895); (902, 902); (904, 906); (908, 908); (910, 929); (931, 1013);
   (1015, 1153); (1162, 1327); (1329, 1366); (1369, 1369); (1376, 1416); (1488, 1514);
   (1519, 1522); (1568, 1610); (1632, 1641); (1646, 1647); (1649, 1747); (1749, 1749);
   (1765, 1766); (1774, 1788); (1791, 1791); (1808, 1808); (1810, 1839); (1869, 1957);
   (1969, 1969); (1984, 2026); (2036, 2037); (2042, 2042); (2048, 2069); (2074, 2074);
   (2084, 2084); (2088, 2088); (2112, 2136); (2144, 2154); (2160, 2183); (2185, 2190);
   (2208, 2249); (2308, 2361); (2365, 2365); (2384, 2384); (2392, 2401); (2406, 2415);
   (2417, 2432); (2437, 2444); (2447, 2448); (2451, 2472); (2474, 2480); (2482, 2482);
   (2486, 2489); (2493, 2493); (2510, 2510); (2524, 2525); (2527, 2529); (2534, 2545);
   (2548, 2553); (2556, 2556); (2565, 2570); (2575, 2576); (2579, 2600); (2602, 2608);
   (2610, 2611); (2613, 2614); (2616, 2617); (2649, 2652); (2654, 2654); (2662, 2671);
   (2674, 2676); (2693, 2701); (2703, 2705); (2707, 2728); (2730, 2736); (2738, 2739);
   (2741, 2745); (2749, 2749); (2768, 2768); (2784, 2785); (2790, 2799); (2809, 2809);
   (2821, 2828); (2831, 2832); (2835, 2856); (2858, 2864); (2866, 2867); (2869, 2873);
   (2877, 2877); (2908, 2909); (2911, 2913); (2918, 2927); (2929, 2935); (2947, 2947);
   (2949, 2954); (2958, 2960); (2962, 2965); (2969, 2970); (2972, 2972); (2974, 2975);
   (2979, 2980); (2984, 2986); (2990, 3001); (3024, 3024); (3046, 3058); (3077, 3084);
   (3086, 3088); (3090, 3112); (3114, 3129); (3133, 3133); (3160, 3162); (3165, 3165);
   (3168, 3169); (3174, 3183); (3192, 3198); (3200, 3200); (3205, 3212); (3214, 3216);
   (3218, 3240); (3242, 3251); (3253, 3257); (3261, 3261); (3293, 3294); (3296, 3297);
   (3302, 3311); (3313, 3314); (3332, 3340); (3342, 3344); (3346, 3386); (3389, 3389);
   (3406, 3406); (3412, 3414); (3416, 3425); (3430, 3448); (3450, 3455); (3461, 3478);
   (3482, 3505); (3507, 3515); (3517, 3517); (3520, 3526); (3558, 3567); (3585, 3632);
   (3634, 3635); (3648, 3654); (3664, 3673); (3713, 3714); (3716, 3716); (3718, 3722);
   (3724, 3747); (3749, 3749); (3751, 3760); (3762, 3763); (3773, 3773); (3776, 3780);
   (3782, 3782); (3792, 3801); (3804, 3807); (3840, 3840); (3872, 3891); (3904, 3911);
   (3913, 3948); (3976, 3980); (4096, 4138); (4159, 4169); (4176, 4181); (4186, 4189);
   (4193, 4193); (4197, 4198); (4206, 4208); (4213, 4225); (4238, 4238); (4240, 4249);
   (4256, 4293); (4295, 4295); (4301, 4301); (4304, 4346); (4348, 4680); (4682, 4685);
   (4688, 4694); (4696, 4696); (4698, 4701); (4704, 4744); (4746, 4749); (4752, 4784);
   (4786, 4789); (4792, 4798); (4800, 4800); (4802, 4805); (4808, 4822); (4824, 4880);
   (4882, 4885); (4888, 4954); (4969, 4988); (4992, 5007); (5024, 5109); (5112, 5117);
   (5121, 5740); (5743, 5759); (5761, 5786); (5792, 5866); (5870, 5880); (5888, 5905);
   (5919, 5937); (5952, 5969); (5984, 5996); (5998, 6000); (6016, 6067); (6103, 6103);
   (6108, 6108); (6112, 6121); (6128, 6137); (6160, 6169); (6176, 6264); (6272, 6276);
   (6279, 6312); (6314, 6314); (6320, 6389); (6400, 6430); (6470, 6509); (6512, 6516);
   (6528, 6571); (6576, 6601); (6608, 6618); (6656, 6678); (6688, 6740); (6784, 6793);
   (6800, 6809); (6823, 6823); (6917, 6963); (6981, 6988); (6992, 7001); (7043, 7072);
   (7086, 7141); (7168, 7203); (7232, 7241); (7245, 7293); (7296, 7304); (7312, 7354);
   (7357, 7359); (7401, 7404); (7406, 7411); (7413, 7414); (7418, 7418); (7424, 7615);
   (7680, 7957); (7960, 7965); (7968, 8005); (8008, 8013); (8016, 8023); (8025, 8025);
   (8027, 8027); (8029, 8029); (8031, 8061); (8064, 8116); (8118, 8124); (8126, 8126);
   (8130, 8132); (8134, 8140); (8144, 8147); (8150, 8155); (8160, 8172); (8178, 8180);
   (8182, 8188); (8304, 8305); (8308, 8313); (8319, 8329); (8336, 8348); (8450, 8450);
   (8455, 8455); (8458, 8467); (8469, 8469); (8473, 8477); (8484, 8484); (8486, 8486);
   (8488, 8488); (8490, 8493); (8495, 8505); (8508, 8511); (8517, 8521); (8526, 8526);
   (8528, 8585); (9312, 9371); (9450, 9471); (10102, 10131); (11264, 11492); (11499, 11502);
   (11506, 11507); (11517, 11517); (11520, 11557); (11559, 11559); (11565, 11565); (11568, 11623);
   (11631, 11631); (11648, 11670); (11680, 11686); (11688, 11694); (11696, 11702); (11704, 11710);
   (11712, 11718); (11720, 11726); (11728, 11734); (11736, 11742); (11823, 11823); (12293, 12295);
   (12321, 12329); (12337, 12341); (12344, 12348); (12353, 12438); (12445, 12447); (12449, 12538);
   (12540, 12543); (12549, 12591); (12593, 12686); (12690, 12693); (12704, 12735); (12784, 12799);
   (12832, 12841); (12872, 12879); (12881, 12895); (12928, 12937); (12977, 12991); (13312, 19903);
   (19968, 42124); (42192, 42237); (42240, 42508); (42512, 42539); (42560, 42606); (42623, 42653);
   (42656, 42735); (42775, 42783); (42786, 42888); (42891, 42954); (42960, 42961); (42963, 42963);
   (42965, 42969); (42994, 43009); (43011, 43013); (43015, 43018); (43020, 43042); (43056, 43061);
   (43072, 43123); (43138, 43187); (43216, 43225); (43250, 43255); (43259, 43259); (43261, 43262);
   (43264, 43301); (43312, 43334); (43360, 43388); (43396, 43442); (43471, 43481); (43488, 43492);
   (43494, 43518); (43520, 43560); (43584, 43586); (43588, 43595); (43600, 43609); (43616, 43638);
   (43642, 43642); (43646, 43695); (43697, 43697); (43701, 43702); (43705, 43709); (43712, 43712);
   (43714, 43714); (43739, 43741); (43744, 43754); (43762, 43764); (43777, 43782); (43785, 43790);
   (43793, 43798); (43808, 43814); (43816, 43822); (43824, 43866); (43868, 43881); (43888, 44002);
   (44016, 44025); (44032, 55203); (55216, 55238); (55243, 55291); (63744, 64109); (64112, 64217);
   (64256, 64262); (64275, 64279); (64285, 64285); (64287, 64296); (64298, 64310); (64312, 64316);
   (64318, 64318); (64320, 64321); (64323, 64324); (64326, 64433); (64467, 64829); (64848, 64911);
   (64914, 64967); (65008, 65019); (65136, 65140); (65142, 65276); (65296, 65305); (65313, 65338);
   (65345, 65370); (65382, 65470); (65474, 65479); (65482, 65487); (65490, 65495); (65498, 65500);
   (65536, 65547); (65549, 65574); (65576, 65594); (65596, 65597); (65599, 65613); (65616, 65629);
   (65664, 65786); (65799, 65843); (65856, 65912); (65930, 65931); (66176, 66204); (66208, 66256);
   (66273, 66299); (66304, 66339); (66349, 66378); (66384, 66421); (66432, 66461); (66464, 66499);
   (66504, 66511); (66513, 66517); (66560, 66717); (66720, 66729); (66736, 66771); (66776, 66811);
   (66816, 66855); (66864, 66915); (66928, 66938); (66940, 66954); (66956, 66962); (66964, 66965);
   (66967, 66977); (66979, 66993); (66995, 67001); (67003, 67004); (67072, 67382); (67392, 67413);
   (67424, 67431); (67456, 67461); (67463, 67504); (67506, 67514); (67584, 67589); (67592, 67592);
   (67594, 67637); (67639, 67640); (67644, 67644); (67647, 67669); (67672, 67702); (67705, 67742);
   (67751, 67759); (67808, 67826); (67828, 67829); (67835, 67867); (67872, 67897); (67968, 68023);
   (68028, 68047); (68050, 68096); (68112, 68115); (68117, 68119); (68121, 68149); (68160, 68168);
   (68192, 68222); (68224, 68255); (68288, 68295); (68297, 68324); (68331, 68335); (68352, 68405);
   (68416, 68437); (68440, 68466); (68472, 68497); (68521, 68527); (68608, 68680); (68736, 68786);
   (68800, 68850); (68858, 68899); (68912, 68921); (69216, 69246); (69248, 69289); (69296, 69297);
   (69376, 69415); (69424, 69445); (69457, 69460); (69488, 69505); (69552, 69579); (69600, 69622);
   (69635, 69687); (69714, 69743); (69745, 69746); (69749, 69749); (69763, 69807); (69840, 69864);
   (69872, 69881); (69891, 69926); (69942, 69951); (69956, 69956); (69959, 69959); (69968, 70002);
   (70006, 70006); (70019, 70066); (70081, 70084); (70096, 70106); (70108, 70108); (70113, 70132);
   (70144, 70161); (70163, 70187); (70272, 70278); (70280, 70280); (70282, 70285); (70287, 70301);
   (70303, 70312); (70320, 70366); (70384, 70393); (70405, 70412); (70415, 70416); (70419, 70440);
   (70442, 70448); (70450, 70451); (70453, 70457); (70461, 70461); (70480, 70480); (70493, 70497);
   (70656, 70708); (70727, 70730); (70736, 70745); (70751, 70753); (70784, 70831); (70852, 70853);
   (70855, 70855); (70864, 70873); (71040, 71086); (71128, 71131); (71168, 71215); (71236, 71236);
   (71248, 71257); (71296, 71338); (71352, 71352); (71360, 71369); (71424, 71450); (71472, 71483);
   (71488, 71494); (71680, 71723); (71840, 71922); (71935, 71942); (71945, 71945); (71948, 71955);
   (71957, 71958); (71960, 71983); (71999, 71999); (72001, 72001); (72016, 72025); (72096, 72103);
   (72106, 72144); (72161, 72161); (72163, 72163); (72192, 72192); (72203, 72242); (72250, 72250);
   (72272, 72272); (72284, 72329); (72349, 72349); (72368, 72440); (72704, 72712); (72714, 72750);
   (72768, 72768); (72784, 72812); (72818, 72847); (72960, 72966); (72968, 72969); (72971, 73008);
   (73030, 73030); (73040, 73049); (73056, 73061); (73063, 73064); (73066, 73097); (73112, 73112);
   (73120, 73129); (73440, 73458); (73648, 73648); (73664, 73684); (73728, 74649); (74752, 74862);
   (74880, 75075); (77712, 77808); (77824, 78894); (82944, 83526); (92160, 92728); (92736, 92766);
   (92768, 92777); (92784, 92862); (92864, 92873); (92880, 92909); (92928, 92975); (92992, 92995);
   (93008, 93017); (93019, 93025); (93027, 93047); (93053, 93071); (93760, 93846); (93952, 94026);
   (94032, 94032); (94099, 94111); (94176, 94177); (94179, 94179); (94208, 100343); (100352, 101589);
   (101632, 101640); (110576, 110579); (110581, 110587); (110589, 110590); (110592, 110882); (110928, 110930);
   (110948, 110951); (110960, 111355); (113664, 113770); (113776, 113788); (113792, 113800); (113808, 113817);
   (119520, 119539); (119648, 119672); (119808, 119892); (119894, 119964); (119966, 119967); (119970, 119970);
   (119973, 119974); (119977, 119980); (119982, 119993); (119995, 119995); (119997, 120003); (120005, 120069);
   (120071, 120074); (120077, 120084); (120086, 120092); (120094, 120121); (120123, 120126); (120128, 120132);
   (120134, 120134); (120138, 120144); (120146, 120485); (120488, 120512); (120514, 120538); (120540, 120570);
   (120572, 120596); (120598, 120628); (120630, 120654); (120656, 120686); (120688, 120712); (120714, 120744);
   (120746, 120770); (120772, 120779); (120782, 120831); (122624, 122654); (123136, 123180); (123191, 123197);
   (123200, 123209); (123214, 123214); (123536, 123565); (123584, 123627); (123632, 123641); (124896, 124902);
   (124904, 124907); (124909, 124910); (124912, 124926); (124928, 125124); (125127, 125135); (125184, 125251);
   (125259, 125259); (125264, 125273); (126065, 126123); (126125, 126127); (126129, 126132); (126209, 126253);
   (126255, 126269); (126464, 126467); (126469, 126495); (126497, 126498); (126500, 126500); (126503, 126503);
   (126505, 126514); (126516, 126519); (126521, 126521); (126523, 126523); (126530, 126530); (126535, 126535);
   (126537, 126537); (126539, 126539); (126541, 126543); (126545, 126546); (126548, 126548); (126551, 126551);
   (126553, 126553); (126555, 126555); (126557, 126557); (126559, 126559); (126561, 126562); (126564, 126564);
   (126567, 126570); (126572, 126578); (126580, 126583); (126585, 126588); (126590, 126590); (126592, 126601);
   (126603, 126619); (126625, 126627); (126629, 126633); (126635, 126651); (127232, 127244); (130032, 130041);
   (131072, 173791); (173824, 177976); (177984, 178205); (178208, 183969); (183984, 191456); (194560, 195101);
   (196608, 201546)]%N.

(** Whitespace ([\s], [str.isspace], the characters [str.strip] removes). *)
Definition space_ranges : list (N * N) :=
  [(9, 13); (28, 32); (133, 133); (160, 160); (5760, 5760); (8192, 8202);
   (8232, 8233); (8239, 8239); (8287, 8287); (12288, 12288)]%N.

(** Line boundaries of [str.splitlines]. *)
Definition linebreak_ranges : list (N * N) :=
  [(10, 13); (28, 30); (133, 133); (8232, 8233)]%N.

Definition isdecimal (c : char) : bool := in_ranges decimal_ranges c.
Definition isdigit (c : char) : bool := in_ranges digit_ranges c.
Definition isalnum (c : char) : bool := in_ranges alnum_ranges c.
Definition isspace (c : char) : bool := in_ranges space_ranges c.
Definition islinebreak (c : char) : bool := in_ranges linebreak_ranges c.
Definition isword (c : char) : bool := isalnum c || (c =? 95)%N.

(** ** String methods used by the extractors *)

(** [text.replace("\u00a0", " ")]: U+00A0 becomes a plain space. *)
Definition nbsp_to_space (c : char) : char := if (c =? NBSP)%N then SPACE else c.

Definition replace_nbsp (t : str) : str := map nbsp_to_space t.

Fixpoint lstrip (s : str) : str :=
  match s with
  | c :: s' => if isspace c then lstrip s' else s
  | [] => []
  end.

Definition rstrip (s : str) : str := rev (lstrip (rev s)).

(** [s.strip()] *)
Definition strip (s : str) : str := rstrip (lstrip s).

(** [s.splitlines()]: [cur] is the line being read, reversed; ["\r\n"]
    counts as one boundary, and a final boundary opens no further line. *)
Fixpoint splitlines_aux (cur : str) (s : str) : list str :=
  match s with
  | [] => match cur with [] => [] | _ => [rev cur] end
  | c :: s' =>
    if islinebreak c then
      match s' with
      | d :: s'' =>
        if (c =? 13)%N && (d =? 10)%N
        then rev cur :: splitlines_aux [] s''
        else rev cur :: splitlines_aux [] s'
      | [] => [rev cur]
      end
    else splitlines_aux (c :: cur) s'
  end.

Definition splitlines (s : str) : list str := splitlines_aux [] s.

(** [re.sub(r"[^\d]", "", s)] *)
Definition sub_nondigits (s : str) : str := filter isdecimal s.

(** [re.sub(r"\s+", " ", s)] *)
Fixpoint collapse_ws (s : str) : str :=
  match s with
  | [] => []
  | c :: s' =>
    if isspace c then
      match s' with
      | d :: _ => if isspace d then collapse_ws s' else SPACE :: collapse_ws s'
      | [] => [SPACE]
      end
    else c :: collapse_ws s'
  end.

(** [s.isdigit()] *)
Definition str_isdigit (s : str) : bool :=
  match s with
  | [] => false
  | _ => forallb isdigit s
  end.

(** The value of a decimal digit: every run of decimal digits in the
    table starts at the digit zero. *)
Fixpoint digit_value_in (t : list (N * N)) (c : char) : Z :=
  match t with
  | [] => 0
  | (lo, hi) :: t' =>
    if (lo <=? c)%N && (c <=? hi)%N then Z.of_N ((c - lo) mod 10)
    else digit_value_in t' c
  end.

Definition digit_value (c : char) : Z := digit_value_in decimal_ranges c.

Definition digits_value (s : str) : Z :=
  fold_left (fun acc c => acc * 10 + digit_value c)%Z s 0%Z.

(** [int(num)] on the strings the extractors pass to it.  These come out of
    [re.sub(r"[^\d]", "", ...)] and hold decimal digits only; on a string of
    decimal digits [int] returns its value, and it raises [ValueError] on
    the empty string.  (Signs, underscores and surrounding blanks, which
    [int] also reads, cannot occur in such a string.) *)
Definition py_int (num : str) : py Z :=
  match num with
  | [] => Raise ValueError
  | _ => if forallb isdecimal num then Ok (digits_value num) else Raise ValueError
  end.

(** ** Regular expressions *)

Inductive regex : Type :=
| Eps                                   (* the empty pattern *)
| Cls (p : char -> bool)                (* one character of a class *)
| Seq (r1 r2 : regex)
| Alt (r1 r2 : regex)                   (* r1|r2, r1 tried first *)
| Rep (r : regex) (lo hi : nat)         (* greedy r{lo,hi} *)
| Star (p : char -> bool)               (* greedy [...]* over a class *)
| Grp (r : regex)                       (* the capturing group (group 1) *)
| Bnd.                                  (* \b *)

Definition Opt (r : regex) : regex := Rep r 0 1.
Definition Plus (p : char -> bool) : regex := Seq (Cls p) (Star p).

(** A position of the matcher: the character before it (for [\b]), the
    text after it, and the text captured by group 1 so far. *)
Record mstate : Type := MState {
  prev : option char;
  rest : str;
  grp : option str
}.

Definition word_before (st : mstate) : bool :=
  match prev st with Some c => isword c | None => false end.

Definition word_after (st : mstate) : bool :=
  match rest st with c :: _ => isword c | [] => false end.

Definition at_boundary (st : mstate) : bool :=
  xorb (word_before st) (word_after st).

(** What was read between two positions. *)
Definition consumed (st st' : mstate) : str :=
  firstn (length (rest st) - length (rest st')) (rest st).

Fixpoint star (p : char -> bool) (pv : option char) (s : str) (g : option str)
  : list mstate :=
  match s with
  | c :: s' =>
    if p c then star p (Some c) s' g ++ [MState pv s g] else [MState pv s g]
  | [] => [MState pv s g]
  end.

(** Greedy bounded repetition of a matcher [f]: one more round is tried
    before stopping. *)
Fixpoint rep_ms (f : mstate -> list mstate) (hi lo : nat) (st : mstate)
  {struct hi} : list mstate :=
  match hi with
  | O => match lo with O => [st] | S _ => [] end
  | S hi' =>
    flat_map (rep_ms f hi' (pred lo)) (f st)
      ++ match lo with O => [st] | S _ => [] end
  end.

(** [ms r st]: the positions at which a match of [r] started at [st] can
    end, in the order in which the backtracking engine reaches them. *)
Fixpoint ms (r : regex) (st : mstate) : list mstate :=
  match r with
  | Eps => [st]
  | Cls p =>
    match rest st with
    | c :: s' => if p c then [MState (Some c) s' (grp st)] else []
    | [] => []
    end
  | Seq r1 r2 => flat_map (ms r2) (ms r1 st)
  | Alt r1 r2 => ms r1 st ++ ms r2 st
  | Rep r0 lo hi => rep_ms (ms r0) hi lo st
  | Star p => star p (prev st) (rest st) (grp st)
  | Grp r0 =>
    map (fun st' => MState (prev st') (rest st') (Some (consumed st st')))
        (ms r0 st)
  | Bnd => if at_boundary st then [st] else []
  end.

(** A match object: only [group(1)] is used by the code. *)
Definition group1 (m : mstate) : py str :=
  match grp m with
  | Some g => Ok g
  | None => Raise TypeError
  end.

(** [re.search]: the first match at the leftmost position that has one. *)
Fixpoint search_from (r : regex) (pv : option char) (s : str) : option mstate :=
  match ms r (MState pv s None) with
  | m :: _ => Some m
  | [] =>
    match s with
    | c :: s' => search_from r (Some c) s'
    | [] => None
    end
  end.

Definition re_search (r : regex) (t : str) : option mstate :=
  search_from r None t.

(** [re.fullmatch]: the first match from the start that reaches the end. *)
Definition re_fullmatch (r : regex) (t : str) : option mstate :=
  find (fun m => match rest m with [] => true | _ => false end)
       (ms r (MState None t None)).

(** [re.findall] for a pattern with one group: the group of every match,
    scanning left to right, each search resuming where the previous match
    ended.  [skip] counts the characters of the last match still to pass. *)
Fixpoint findall_from (r : regex) (pv : option char) (s : str) (skip : nat)
  : list str :=
  match skip with
  | S k =>
    match s with
    | c :: s' => findall_from r (Some c) s' k
    | [] => []
    end
  | O =>
    match ms r (MState pv s None) with
    | m :: _ =>
      match grp m with Some g => g | None => [] end ::
      match s with
      | c :: s' =>
        findall_from r (Some c) s' (pred (length s - length (rest m)))
      | [] => []
      end
    | [] =>
      match s with
      | c :: s' => findall_from r (Some c) s' 0
      | [] => []
      end
    end
  end.

Definition re_findall (r : regex) (t : str) : list str :=
  findall_from r None t 0.

(** ** The patterns of [bot.py] *)

Definition lit (a : char) : regex := Cls (N.eqb a).

(** A small letter of a pattern compiled with [re.IGNORECASE]: it matches
    the letter and its capital (32 below, for a-z and for а-я), and for
    [s] and [i] also the letters that fold to them (U+017F; U+0130,
    U+0131). *)
Definition ci (lo : char) (c : char) : bool :=
  (c =? lo)%N || (c =? lo - 32)%N
  || (if (lo =? 115)%N then (c =? 383)%N else false)
  || (if (lo =? 105)%N then (c =? 304)%N || (c =? 305)%N else false).

Definition word_ci (w : str) : regex :=
  fold_right (fun a r => Seq (Cls (ci a)) r) Eps w.

Definition RUBLE_SIGN : char := 8381%N.  (* U+20BD *)

(** r"[:\s]" *)
Definition colon_or_space (c : char) : bool := (c =? 58)%N || isspace c.

(** r"[\d\s\.]" *)
Definition amount_ch (c : char) : bool := isdecimal c || isspace c || (c =? 46)%N.

(** r"(\d[\d\s\.]{1,12})" *)
Definition amount : regex := Grp (Seq (Cls isdecimal) (Rep (Cls amount_ch) 1 12)).

(** r"(?:₽|руб|руб\.|р)" *)
Definition currency : regex :=
  Alt (lit RUBLE_SIGN)
   (Alt (word_ci (u "руб"))
    (Alt (Seq (word_ci (u "руб")) (lit 46%N))
         (word_ci (u "р")))).

(** r"\s?(?:₽|руб|руб\.|р)\b" *)
Definition currency_tail : regex := Seq (Opt (Cls isspace)) (Seq currency Bnd).

(** The first pattern: the optional prefix r"(?:цена[:\s]*" closed and
    followed by [?], then r"(\d[\d\s\.]{1,12})\s?(?:₽|руб|руб\.|р)\b". *)
Definition price_pat1 : regex :=
  Seq (Opt (Seq (word_ci (u "цена")) (Star colon_or_space)))
      (Seq amount currency_tail).

(** r"\b(\d[\d\s\.]{1,12})\s?(?:₽|руб|руб\.|р)\b" *)
Definition price_pat2 : regex := Seq Bnd (Seq amount currency_tail).

(** r"\s*\d[\d\s\.]{1,12}\s*" *)
Definition price_line_pat : regex :=
  Seq (Star isspace)
      (Seq (Cls isdecimal) (Seq (Rep (Cls amount_ch) 1 12) (Star isspace))).

(** r"[:\-–]" *)
Definition size_delim (c : char) : bool :=
  (c =? 58)%N || (c =? 45)%N || (c =? 8211)%N.

(** r"[A-Za-zА-Яа-я0-9 ,\/\-]" under [re.IGNORECASE]: the listed characters
    and the letters that fold into the two alphabets (U+0130, U+0131,
    U+017F, U+212A; U+1C80..U+1C86). *)
Definition size_ch_ci (c : char) : bool :=
  in_ranges [(32, 32); (44, 45); (47, 57); (65, 90); (97, 122); (304, 305);
             (383, 383); (1040, 1103); (7296, 7302); (8490, 8490)]%N c.

(** r"[A-Za-zА-Яа-я0-9]" (no flag) *)
Definition size_tok_ch (c : char) : bool :=
  in_ranges [(48, 57); (65, 90); (97, 122); (1040, 1103)]%N c.

(** r"[\s,\/\-]" *)
Definition size_sep_ch (c : char) : bool :=
  isspace c || (c =? 44)%N || (c =? 47)%N || (c =? 45)%N.

(** r"(?:размеры?|sizes?)\s*[:\-–]\s*([A-Za-zА-Яа-я0-9 ,\/\-]+)" *)
Definition sizes_pat : regex :=
  Seq (Alt (Seq (word_ci (u "размер")) (Opt (Cls (ci 1099%N))))
           (Seq (word_ci (u "size")) (Opt (Cls (ci 115%N)))))
      (Seq (Star isspace)
           (Seq (Cls size_delim)
                (Seq (Star isspace) (Grp (Plus size_ch_ci))))).

(** r"\s*(?:[A-Za-zА-Яа-я0-9]{1,3}[\s,\/\-]+){1,10}[A-Za-zА-Яа-я0-9]{1,3}\s*" *)
Definition sizes_line_pat : regex :=
  Seq (Star isspace)
      (Seq (Rep (Seq (Rep (Cls size_tok_ch) 1 3) (Plus size_sep_ch)) 1 10)
           (Seq (Rep (Cls size_tok_ch) 1 3) (Star isspace))).

(** r"[\w\d_]" *)
Definition tag_ch (c : char) : bool := isword c || isdecimal c || (c =? 95)%N.

Definition HASH : char := 35%N.

(** r"#([\w\d_]+)" *)
Definition tag_pat : regex := Seq (lit HASH) (Grp (Plus tag_ch)).

(** ** The extractors *)

Definition is_empty (s : str) : bool :=
  match s with [] => true | _ => false end.

(** The loop over [patterns] of [parse_price]; [None] means that no
    pattern returned and the function goes on to the lines. *)
Fixpoint price_by_patterns (pats : list regex) (t : str) : py (option Z) :=
  match pats with
  | [] => Ok None
  | pat :: pats' =>
    match re_search pat t with
    | Some m =>
      g <- group1 m ;;
      let num := sub_nondigits g in
      if str_isdigit num
      then n <- py_int num ;; Ok (Some (n * 100)%Z)
      else price_by_patterns pats' t
    | None => price_by_patterns pats' t
    end
  end.

(** The loop over [t.splitlines()] of [parse_price]. *)
Fixpoint price_by_lines (lines : list str) : py (option Z) :=
  match lines with
  | [] => Ok None
  | line :: lines' =>
    match re_fullmatch price_line_pat (strip line) with
    | Some _ =>
      let num := sub_nondigits line in
      if str_isdigit num
      then n <- py_int num ;; Ok (Some (n * 100)%Z)
      else price_by_lines lines'
    | None => price_by_lines lines'
    end
  end.

Definition parse_price (text : str) : py (option Z) :=
  if is_empty text then Ok None
  else
    let t := replace_nbsp text in
    r <- price_by_patterns [price_pat1; price_pat2] t ;;
    match r with
    | Some v => Ok (Some v)
    | None => price_by_lines (splitlines t)
    end.

Fixpoint sizes_by_lines (lines : list str) : option str :=
  match lines with
  | [] => None
  | line :: lines' =>
    match re_fullmatch sizes_line_pat (strip line) with
    | Some _ => Some (firstn 120 (strip line))
    | None => sizes_by_lines lines'
    end
  end.

Definition parse_sizes (text : str) : py (option str) :=
  if is_empty text then Ok None
  else
    let t := replace_nbsp text in
    match re_search sizes_pat t with
    | Some m =>
      g <- group1 m ;;
      let sizes := collapse_ws (strip g) in
      Ok (Some (firstn 120 sizes))
    | None => Ok (sizes_by_lines (splitlines t))
    end.

Definition parse_hashtags (text : str) : list str :=
  if is_empty text then []
  else
    let tags := re_findall tag_pat text in
    map strip (filter (fun t => negb (is_empty (strip t))) tags).

Definition first_line (text : str) : py str :=
  if is_empty text then Ok (u "Товар")
  else
    match splitlines (strip text) with
    | l :: _ => Ok (firstn 128 l)
    | [] => Raise IndexError
    end.

(** ** Products and the forwarded-post normalizer *)

Record Product : Type := {
  id : Z;
  title : str;
  price : Z;
  photo_file_id : option str;
  descr : option str;
  category : str;
  brand : str;
  sizes : option str;
  source_chat_id : option Z;
  source_msg_id : option Z
}.

(** The fields of a forwarded message that [import_from_forward] reads;
    [photo] lists the file ids of [msg.photo]. *)
Record Message : Type := {
  caption : option str;
  text : option str;
  photo : list str;
  forward_from_chat : option Z;
  forward_from_message_id : option Z
}.

(** [a or b] on optional strings: the empty string is falsy. *)
Definition str_or (a : option str) (b : str) : str :=
  match a with
  | Some (c :: s) => c :: s
  | _ => b
  end.

Definition truthy_id (o : option Z) : option Z :=
  match o with
  | Some n => if (n =? 0)%Z then None else Some n
  | None => None
  end.

(** The product built by [import_from_forward], before it is stored. *)
Definition product_from_forward (msg : Message) : py Product :=
  let cap := str_or (caption msg) (str_or (text msg) []) in
  let tags := parse_hashtags cap in
  let category := nth 0 tags (u "Общее") in
  let brand := nth 1 tags (u "NoBrand") in
  title <- first_line cap ;;
  price <- parse_price cap ;;
  sizes <- parse_sizes cap ;;
  let photo_file_id :=
    match photo msg with [] => None | _ => Some (last (photo msg) []) end in
  let source_chat_id := truthy_id (forward_from_chat msg) in
  let source_msg_id :=
    match source_chat_id with
    | Some _ => truthy_id (forward_from_message_id msg)
    | None => None
    end in
  Ok {| id := 0;
        title := title;
        price := match price with Some v => v | None => 0%Z end;
        photo_file_id := photo_file_id;
        descr := Some cap;
        category := category;
        brand := brand;
        sizes := sizes;
        source_chat_id := source_chat_id;
        source_msg_id := source_msg_id |}.

(** ** The store

    The tables of [INIT_SQL] that the modelled queries touch, each a list
    of rows in rowid order, with the [sqlite_sequence] counters of the two
    AUTOINCREMENT keys.  Integers are Python's, unbounded; those that a
    caller passes in and those read back from the store are taken to fit
    SQLite's 64-bit INTEGER, and the one that the code computes before it
    binds it, the total of [create_order], is checked against that range as
    the driver checks it.  [created_at] is not read by the modelled
    operations and is left out. *)

Module Cart.
Record row : Type := { user_id : Z; product_id : Z; qty : Z }.
End Cart.

Module Orders.
Record row : Type := { id : Z; user_id : Z; total_price : Z; status : str }.
End Orders.

Module OrderItems.
Record row : Type := { order_id : Z; product_id : Z; qty : Z; price : Z }.
End OrderItems.

Record db : Type := {
  products : list Product;
  products_seq : Z;
  cart : list Cart.row;
  orders : list Orders.row;
  orders_seq : Z;
  order_items : list OrderItems.row
}.

Definition empty_db : db :=
  {| products := []; products_seq := 0; cart := [];
     orders := []; orders_seq := 0; order_items := [] |}.

Definition max_of (l : list Z) : Z := fold_right Z.max 0%Z l.

(** The rowid an AUTOINCREMENT key gives to the next row: one more than the
    largest the table has ever held. *)
Definition next_rowid (seq : Z) (ids : list Z) : Z := (Z.max seq (max_of ids) + 1)%Z.

Definition opt_Z_eqb (a b : option Z) : bool :=
  match a, b with
  | Some x, Some y => (x =? y)%Z
  | None, None => true
  | _, _ => false
  end.

(** The unique index [idx_source_msg]: two rows collide when both columns
    are non-NULL and equal; NULLs never collide. *)
Definition source_conflict (p q : Product) : bool :=
  match source_chat_id p, source_msg_id p, source_chat_id q, source_msg_id q with
  | Some a, Some b, Some c, Some d => (a =? c)%Z && (b =? d)%Z
  | _, _, _, _ => false
  end.

(** [WHERE source_chat_id IS ? AND source_msg_id IS ?] *)
Definition source_is (c m : option Z) (q : Product) : bool :=
  opt_Z_eqb (source_chat_id q) c && opt_Z_eqb (source_msg_id q) m.

Definition with_id (p : Product) (i : Z) : Product :=
  {| id := i; title := title p; price := price p;
     photo_file_id := photo_file_id p; descr := descr p;
     category := category p; brand := brand p; sizes := sizes p;
     source_chat_id := source_chat_id p; source_msg_id := source_msg_id p |}.

(** [add_product].  The connection is fresh, so [cur.lastrowid] is 0 when
    the INSERT was ignored and the new rowid otherwise; the sequence
    counter advances either way. *)
Definition add_product (d : db) (p : Product) : db * Z :=
  let new_id := next_rowid (products_seq d) (map id (products d)) in
  let ignored := existsb (source_conflict p) (products d) in
  let rows := if ignored then products d else products d ++ [with_id p new_id] in
  let d' := {| products := rows; products_seq := new_id; cart := cart d;
               orders := orders d; orders_seq := orders_seq d;
               order_items := order_items d |} in
  let lastrowid := if ignored then 0%Z else new_id in
  if negb (lastrowid =? 0)%Z then (d', lastrowid)
  else
    match find (source_is (source_chat_id p) (source_msg_id p)) rows with
    | Some row => (d', id row)
    | None => (d', 0%Z)
    end.

(** *** Listing *)

Definition ascii_lower (c : char) : char :=
  if (65 <=? c)%N && (c <=? 90)%N then (c + 32)%N else c.

(** SQLite's [LIKE]: [%] stands for any run of characters, [_] for any
    one, and ASCII letters compare without case. *)
Fixpoint like (pat : str) : str -> bool :=
  match pat with
  | [] => fun s => is_empty s
  | p :: pat' =>
    if (p =? 37)%N then
      fix any (s : str) : bool :=
        like pat' s || match s with [] => false | _ :: s' => any s' end
    else
      fun s =>
        match s with
        | [] => false
        | c :: s' =>
          ((p =? 95)%N || (ascii_lower p =? ascii_lower c)%N) && like pat' s'
        end
  end.

Record Filter : Type := {
  f_category : option str;
  f_brand : option str;
  price_from : option Z;
  price_to : option Z;
  size_query : option str
}.

Definition truthy (o : option str) : option str :=
  match o with
  | Some (c :: s) => Some (c :: s)
  | _ => None
  end.

(** The WHERE clause that [list_products] assembles. *)
Definition where_clause (f : Filter) (p : Product) : bool :=
  match truthy (f_category f) with
  | Some c => str_eqb (category p) c
  | None => true
  end
  && match truthy (f_brand f) with
     | Some b => str_eqb (brand p) b
     | None => true
     end
  && match price_from f with
     | Some lo => (lo <=? price p)%Z
     | None => true
     end
  && match price_to f with
     | Some hi => (price p <=? hi)%Z
     | None => true
     end
  && match truthy (size_query f) with
     | Some q =>
       match sizes p with
       | Some s => like ([37%N] ++ q ++ [37%N]) s
       | None => false
       end
     | None => true
     end.

(** [ORDER BY id DESC] *)
Fixpoint insert_desc (p : Product) (l : list Product) : list Product :=
  match l with
  | [] => [p]
  | q :: l' => if (id q <=? id p)%Z then p :: l else q :: insert_desc p l'
  end.

Definition order_by_id_desc (l : list Product) : list Product :=
  fold_right insert_desc [] l.

(** [LIMIT ? OFFSET ?]: a negative limit means no limit, a negative offset
    counts as 0. *)
Definition limit_offset {A} (limit offset : Z) (l : list A) : list A :=
  let l' := skipn (Z.to_nat offset) l in
  if (limit <? 0)%Z then l' else firstn (Z.to_nat limit) l'.

Definition list_products (d : db) (f : Filter) (offset limit : Z) : list Product :=
  limit_offset limit offset (order_by_id_desc (filter (where_clause f) (products d))).

(** *** Cart and orders *)

(** The join of [get_cart]: one line (id, title, price, qty) per cart row
    of the user and matching product, in the rowid order of the cart. *)
Definition cart_line : Type := (Z * str * Z * Z)%type.

Definition cart_join (d : db) (user : Z) : list cart_line :=
  flat_map
    (fun c =>
       if (Cart.user_id c =? user)%Z then
         map (fun p => (id p, title p, price p, Cart.qty c))
             (filter (fun p => (id p =? Cart.product_id c)%Z) (products d))
       else [])
    (cart d).

Definition line_pid (l : cart_line) : Z :=
  match l with (pid, _, _, _) => pid end.

Fixpoint insert_line (x : cart_line) (l : list cart_line) : list cart_line :=
  match l with
  | [] => [x]
  | y :: l' =>
    if (line_pid x <=? line_pid y)%Z then x :: l else y :: insert_line x l'
  end.

(** The lines by product id, smallest first. *)
Definition by_product (l : list cart_line) : list cart_line :=
  fold_right insert_line [] l.

(** [get_cart].  The query has no ORDER BY; SQLite answers it through the
    primary-key index of the cart, (user_id, product_id), so the lines of a
    user come by product id. *)
Definition get_cart (d : db) (user : Z) : list cart_line :=
  by_product (cart_join d user).

Definition set_cart (d : db) (rows : list Cart.row) : db :=
  {| products := products d; products_seq := products_seq d; cart := rows;
     orders := orders d; orders_seq := orders_seq d;
     order_items := order_items d |}.

Definition same_key (user pid : Z) (c : Cart.row) : bool :=
  (Cart.user_id c =? user)%Z && (Cart.product_id c =? pid)%Z.

(** [add_to_cart]: the upsert on the key (user_id, product_id). *)
Definition add_to_cart (d : db) (user pid : Z) : db :=
  if existsb (same_key user pid) (cart d) then
    set_cart d
      (map (fun c =>
              if same_key user pid c
              then {| Cart.user_id := user; Cart.product_id := pid;
                      Cart.qty := (Cart.qty c + 1)%Z |}
              else c)
           (cart d))
  else
    set_cart d
      (cart d ++ [{| Cart.user_id := user; Cart.product_id := pid; Cart.qty := 1 |}]).

Definition clear_cart (d : db) (user : Z) : db :=
  set_cart d (filter (fun c => negb (Cart.user_id c =? user)%Z) (cart d)).

Definition line_total (l : cart_line) : Z :=
  match l with (_, _, price, qty) => (price * qty)%Z end.

(** [sum(price * qty for _, _, price, qty in items)] *)
Definition cart_total (items : list cart_line) : Z :=
  fold_left (fun acc l => (acc + line_total l)%Z) items 0%Z.

Definition item_row (order_id : Z) (l : cart_line) : OrderItems.row :=
  match l with
  | (pid, _, price, qty) =>
    {| OrderItems.order_id := order_id; OrderItems.product_id := pid;
       OrderItems.qty := qty; OrderItems.price := price |}
  end.

(** A Python int that the driver can bind to a parameter: it fits SQLite's
    64-bit INTEGER. *)
Definition storable (z : Z) : bool := (- 2 ^ 63 <=? z)%Z && (z <? 2 ^ 63)%Z.

(** The rows that the second connection of [create_order] commits: the
    order and its items. *)
Definition insert_rows (d : db) (user : Z) (items : list cart_line) (total : Z)
  : db * Z :=
  let order_id := next_rowid (orders_seq d) (map Orders.id (orders d)) in
  ({| products := products d; products_seq := products_seq d; cart := cart d;
      orders := orders d ++ [{| Orders.id := order_id; Orders.user_id := user;
                                Orders.total_price := total;
                                Orders.status := u "NEW" |}];
      orders_seq := order_id;
      order_items := order_items d ++ map (item_row order_id) items |},
   order_id).

(** The second connection of [create_order].  Binding a total outside
    SQLite's range raises OverflowError in the first INSERT: nothing is
    written. *)
Definition insert_order (d : db) (user : Z) (items : list cart_line) (total : Z)
  : db * py Z :=
  if storable total then
    let (d1, order_id) := insert_rows d user items total in (d1, Ok order_id)
  else (d, Raise OverflowError).

(** [create_order], run without interruption: the store it leaves, and
    what it returns or raises. *)
Definition create_order (d : db) (user : Z) : db * py (option (Z * Z)) :=
  let items := get_cart d user in
  match items with
  | [] => (d, Ok None)
  | _ =>
    let total := cart_total items in
    match insert_order d user items total with
    | (d1, Ok order_id) => (clear_cart d1 user, Ok (Some (order_id, total)))
    | (d1, Raise e) => (d1, Raise e)
    end
  end.

(** *** Interleaved checkouts

    [create_order] gives up control at each [await]: after [get_cart], and
    after the commit of the order.  A call is therefore three store
    operations, each on a connection of its own; [step] runs the next one.
    A call ends when it has returned ([Done]) or raised ([Failed]). *)
Inductive task : Type :=
| Start
| HasItems (items : list cart_line)
| Inserted (order_id total : Z)
| Done (res : option (Z * Z))
| Failed (e : exn).

Definition step (user : Z) (d : db) (t : task) : db * task :=
  match t with
  | Start =>
    match get_cart d user with
    | [] => (d, Done None)
    | items => (d, HasItems items)
    end
  | HasItems items =>
    let total := cart_total items in
    match insert_order d user items total with
    | (d1, Ok order_id) => (d1, Inserted order_id total)
    | (d1, Raise e) => (d1, Failed e)
    end
  | Inserted order_id total => (clear_cart d user, Done (Some (order_id, total)))
  | Done r => (d, Done r)
  | Failed e => (d, Failed e)
  end.

(** Two calls under a schedule: [true] lets the first call take a step,
    [false] the second. *)
Fixpoint run_schedule (user1 user2 : Z) (sched : list bool)
         (d : db) (t1 t2 : task) : db * task * task :=
  match sched with
  | [] => (d, t1, t2)
  | true :: sched' =>
    let (d', t1') := step user1 d t1 in run_schedule user1 user2 sched' d' t1' t2
  | false :: sched' =>
    let (d', t2') := step user2 d t2 in run_schedule user1 user2 sched' d' t1 t2'
  end.

(** What the claims measure. *)
Definition item_total (r : OrderItems.row) : Z :=
  (OrderItems.price r * OrderItems.qty r)%Z.

Definition items_of_order (d : db) (order_id : Z) : list OrderItems.row :=
  filter (fun r => (OrderItems.order_id r =? order_id)%Z) (order_items d).

Definition items_sum (d : db) (order_id : Z) : Z :=
  fold_right Z.add 0%Z (map item_total (items_of_order d order_id)).

Definition user_cart (d : db) (user : Z) : list Cart.row :=
  filter (fun c => (Cart.user_id c =? user)%Z) (cart d).

Definition orders_of (d : db) (user : Z) : list Orders.row :=
  filter (fun o => (Orders.user_id o =? user)%Z) (orders d).

(** ** Notions used to state the properties *)

(** The code points of a table of ranges, listed. *)
Definition expand (t : list (N * N)) : list char :=
  flat_map (fun r => map (fun k => (fst r + N.of_nat k)%N)
                         (seq 0 (S (N.to_nat (snd r - fst r))))) t.

(** The character before the position reached by reading [w]. *)
Definition after (pv : option char) (w : str) : option char :=
  fold_left (fun _ c => Some c) w pv.

Fixpoint has_grp (r : regex) : bool :=
  match r with
  | Grp _ => true
  | Seq a b | Alt a b => has_grp a || has_grp b
  | Rep a _ _ => has_grp a
  | _ => false
  end.

(** Every class of [r] lies within [P]. *)
Fixpoint classes_in (P : char -> bool) (r : regex) : Prop :=
  match r with
  | Cls p | Star p => forall c, p c = true -> P c = true
  | Seq a b | Alt a b => classes_in P a /\ classes_in P b
  | Rep a _ _ | Grp a => classes_in P a
  | Eps | Bnd => True
  end.

(** [st'] is reached from [st] by reading [w] with the pattern [r]. *)
Definition reaches (r : regex) (st st' : mstate) : Prop :=
  exists w,
    rest st = w ++ rest st'
    /\ prev st' = after (prev st) w
    /\ (has_grp r = false -> grp st' = grp st)
    /\ (forall P, classes_in P r -> forallb P w = true).

Fixpoint take_while (p : char -> bool) (s : str) : str :=
  match s with
  | c :: s' => if p c then c :: take_while p s' else []
  | [] => []
  end.

Fixpoint drop_while (p : char -> bool) (s : str) : str :=
  match s with
  | c :: s' => if p c then drop_while p s' else s
  | [] => []
  end.

(** The tags of a text in the words of the specification: for every [#]
    of the text, in order, the longest run of word characters right after
    it, when there is one. *)
Fixpoint hashtags_spec (s : str) : list str :=
  match s with
  | [] => []
  | c :: s' =>
    if (c =? HASH)%N then
      match take_while isword s' with
      | [] => hashtags_spec s'
      | w => w :: hashtags_spec s'
      end
    else hashtags_spec s'
  end.

(** The first character of a currency token: the ruble sign, or [р] in
    either case. *)
Definition currency_start (c : char) : bool :=
  (c =? RUBLE_SIGN)%N || ci 1088%N c.

(** A line that is a number and nothing else, read liberally: digits,
    blanks and dots only, with at least one digit. *)
Definition number_like (l : str) : bool :=
  forallb amount_ch l && existsb isdecimal l.

Definition has_number_line (t : str) : bool :=
  existsb (fun line => number_like (strip line)) (splitlines t).

(** The tokens [руб] and [р], in either letter case. *)
Definition rub_token (cur : str) : bool :=
  match cur with
  | [a] => ci 1088%N a
  | [a; b; c] => ci 1088%N a && ci 1091%N b && ci 1073%N c
  | _ => false
  end.

(** The token ends the word: the text stops, or goes on with a character
    that is not a word character. *)
Definition ends_word (post : str) : bool :=
  match post with
  | [] => true
  | c :: _ => negb (isword c)
  end.

(** A currency token at the head of [s]: the ruble sign, or [руб] or [р],
    in either letter case, ending a word. *)
Definition token_here (s : str) : bool :=
  match s with
  | c :: r =>
    (c =? RUBLE_SIGN)%N
    || (ci 1088%N c && ends_word r)
    || match r with
       | b :: c3 :: r' =>
         ci 1088%N c && ci 1091%N b && ci 1073%N c3 && ends_word r'
       | _ => false
       end
  | [] => false
  end.

(** A currency token reached from the head of [s] over digits, blanks and
    dots only. *)
Fixpoint token_after_run (s : str) : bool :=
  token_here s
  || match s with
     | c :: s' => amount_ch c && token_after_run s'
     | [] => false
     end.

(** A currency-marked number starts among the first [n] characters of
    [t]: a decimal digit followed, over digits, blanks and dots only, by a
    currency token. *)
Fixpoint marked_within (n : nat) (t : str) : bool :=
  match n, t with
  | S n', c :: s => (isdecimal c && token_after_run s) || marked_within n' s
  | _, _ => false
  end.

(** The text holds a currency-marked number. *)
Definition price_marked (t : str) : bool := marked_within (length t) t.

(** A line that is a number and nothing else, as [parse_price] reads it:
    blanks around it apart, a decimal digit and then 1 to 12 digits, blanks
    or dots. *)
Definition number_line (l : str) : bool :=
  match lstrip l with
  | d :: rest =>
    isdecimal d && forallb amount_ch rest && negb (is_empty rest)
    && (length (rstrip rest) <=? 12)%nat
  | [] => false
  end.

Definition has_price_line (t : str) : bool :=
  existsb (fun line => number_line (strip line)) (splitlines t).

(** Patterns whose every match sets group 1. *)
Fixpoint sets_grp (r : regex) : bool :=
  match r with
  | Grp _ => true
  | Seq a b => sets_grp a || sets_grp b
  | Alt a b => sets_grp a && sets_grp b
  | _ => false
  end.

(** The post of the scenario of the specification. *)
Definition scenario_text : str :=
  u "#Jackets #Nike" ++ [LF] ++ u "Winter Jacket" ++ [LF]
    ++ u "Цена: 4 990 ₽" ++ [LF] ++ u "Размеры: S, M, L".

Definition scenario_msg : Message :=
  {| caption := Some scenario_text; text := None; photo := [];
     forward_from_chat := Some 7%Z; forward_from_message_id := Some 42%Z |}.

(** ** Notions about the store *)

(** Rows that carry the source pair (c, m). *)
Definition has_source (c m : Z) (q : Product) : bool :=
  source_is (Some c) (Some m) q.

(** What the unique index [idx_source_msg] maintains. *)
Definition source_unique (rows : list Product) : Prop :=
  forall c m, (length (filter (has_source c m) rows) <= 1)%nat.

(** A product ingested from message [m] of channel [c]. *)
Definition sample_product (c m : Z) : Product :=
  {| id := 0; title := u "Winter Jacket"; price := 499000;
     photo_file_id := None; descr := None;
     category := u "Jackets"; brand := u "Nike"; sizes := Some (u "S, M, L");
     source_chat_id := Some c; source_msg_id := Some m |}.

(** Every item row refers to an order id that the orders table has
    already handed out.  [create_order] is the only writer of both tables
    and keeps this. *)
Definition items_bounded (d : db) : Prop :=
  forall r, In r (order_items d) ->
    (OrderItems.order_id r <= Z.max (orders_seq d) (max_of (map Orders.id (orders d))))%Z.

(** A cart row is dangling when no product has its product_id. *)
Definition dangling (d : db) (c : Cart.row) : bool :=
  negb (existsb (fun p => (id p =? Cart.product_id c)%Z) (products d)).

Definition drop_dangling (d : db) : db :=
  set_cart d (filter (fun c => negb (dangling d c)) (cart d)).

(** A small store: two products, the carts of three users (that of user 20
    points at a product that does not exist), no order yet. *)
Definition cap : Product :=
  {| id := 2; title := u "Cap"; price := 150000;
     photo_file_id := None; descr := None;
     category := u "Caps"; brand := u "NoBrand"; sizes := None;
     source_chat_id := None; source_msg_id := None |}.

Definition shop_db : db :=
  {| products := [with_id (sample_product 7 42) 1; cap];
     products_seq := 2;
     cart := [ {| Cart.user_id := 10; Cart.product_id := 1; Cart.qty := 2 |};
               {| Cart.user_id := 10; Cart.product_id := 2; Cart.qty := 1 |};
               {| Cart.user_id := 20; Cart.product_id := 99; Cart.qty := 1 |};
               {| Cart.user_id := 30; Cart.product_id := 1; Cart.qty := 1 |} ];
     orders := []; orders_seq := 0; order_items := [] |}.

(** A catalog of eight products, ingested from the posts 1..8 of channel 7. *)
Definition catalog_db : db :=
  fold_left (fun d m => fst (add_product d (sample_product 7 m)))
            [1; 2; 3; 4; 5; 6; 7; 8]%Z empty_db.

Definition no_filter : Filter :=
  {| f_category := None; f_brand := None; price_from := None;
     price_to := None; size_query := None |}.

(** Rows in strictly descending id order. *)
Definition id_desc (a b : Product) : Prop := (id b < id a)%Z.

(** The claim of C4 in the model: however the steps of two calls for one
    user are scheduled, a non-empty snapshot yields one order. *)
Definition one_order_per_snapshot : Prop :=
  forall (d d' : db) (user : Z) (sched : list bool) (r1 r2 : option (Z * Z)),
    get_cart d user <> [] ->
    run_schedule user user sched d Start Start = (d', Done r1, Done r2) ->
    length (orders d') = S (length (orders d)).

Definition alternating : list bool := [true; false; true; false; true; false].

(** The state of a call that has ended with the outcome [r]. *)
Definition ended (r : py (option (Z * Z))) : task :=
  match r with
  | Ok res => Done res
  | Raise e => Failed e
  end.

(** A store of rows that SQLite holds, whose checkout total it does not:
    one product of 2^62 kopecks, twice in the cart of user 10. *)
Definition dear_db : db :=
  {| products := [ {| id := 1; title := u "Diamond Jacket"; price := 2 ^ 62;
                      photo_file_id := None; descr := None;
                      category := u "Jackets"; brand := u "Nike"; sizes := None;
                      source_chat_id := None; source_msg_id := None |} ];
     products_seq := 1;
     cart := [ {| Cart.user_id := 10; Cart.product_id := 1; Cart.qty := 2 |} ];
     orders := []; orders_seq := 0; order_items := [] |}.

(** ** Further operations of [bot.py] *)

(** [get_product_by_id] *)
Definition get_product_by_id (d : db) (pid : Z) : option Product :=
  find (fun p => (id p =? pid)%Z) (products d).

(** The quantity a user holds of a product: the cart row of the key, if
    there is one. *)
Definition cart_qty (d : db) (user pid : Z) : Z :=
  match find (same_key user pid) (cart d) with
  | Some c => Cart.qty c
  | None => 0%Z
  end.

Definition cart_key (c : Cart.row) : Z * Z := (Cart.user_id c, Cart.product_id c).

(** The wardrobe table of [INIT_SQL], kept beside [db]. *)
Module Wardrobe.
Record row : Type := { user_id : Z; product_id : Z }.
End Wardrobe.

Definition wardrobe_key (user pid : Z) (w : Wardrobe.row) : bool :=
  (Wardrobe.user_id w =? user)%Z && (Wardrobe.product_id w =? pid)%Z.

(** [add_to_wardrobe]: INSERT OR IGNORE on the key (user_id, product_id). *)
Definition add_to_wardrobe (w : list Wardrobe.row) (user pid : Z)
  : list Wardrobe.row :=
  if existsb (wardrobe_key user pid) w then w
  else w ++ [{| Wardrobe.user_id := user; Wardrobe.product_id := pid |}].

(** The writes that reach the store.  [InsertOrder] is the committed write
    of a [create_order] whose snapshot [items] was read earlier, as happens
    when calls interleave; [CreateOrder] is an uninterrupted call. *)
Inductive op : Type :=
| AddProduct (p : Product)
| AddToCart (user pid : Z)
| ClearCart (user : Z)
| CreateOrder (user : Z)
| InsertOrder (user : Z) (items : list cart_line).

Definition apply_op (d : db) (o : op) : db :=
  match o with
  | AddProduct p => fst (add_product d p)
  | AddToCart user pid => add_to_cart d user pid
  | ClearCart user => clear_cart d user
  | CreateOrder user => fst (create_order d user)
  | InsertOrder user items => fst (insert_order d user items (cart_total items))
  end.

Definition run_ops (ops : list op) (d : db) : db := fold_left apply_op ops d.

(** What the keys and counters of [INIT_SQL] maintain on the products. *)
Definition catalog_ok (d : db) : Prop :=
  NoDup (map id (products d))
  /\ (forall p, In p (products d) -> (1 <= id p <= products_seq d)%Z)
  /\ source_unique (products d).

(** One cart row per (user, product), each of quantity at least 1. *)
Definition cart_ok (d : db) : Prop :=
  NoDup (map cart_key (cart d))
  /\ forall c, In c (cart d) -> (1 <= Cart.qty c)%Z.

(** Order ids are distinct, and the items of every order sum to its total. *)
Definition orders_ok (d : db) : Prop :=
  NoDup (map Orders.id (orders d))
  /\ (forall o, In o (orders d) -> (1 <= Orders.id o <= orders_seq d)%Z)
  /\ (forall r, In r (order_items d) -> (OrderItems.order_id r <= orders_seq d)%Z)
  /\ forall o, In o (orders d) -> items_sum d (Orders.id o) = Orders.total_price o.

(** The lines that one cart row gives to the join of [get_cart]. *)
Definition row_lines (d : db) (user : Z) (c : Cart.row) : list cart_line :=
  if (Cart.user_id c =? user)%Z then
    map (fun p => (id p, title p, price p, Cart.qty c))
        (filter (fun p => (id p =? Cart.product_id c)%Z) (products d))
  else [].

Definition lines_total (ls : list cart_line) : Z :=
  fold_right Z.add 0%Z (map line_total ls).

(** The update of [add_to_cart] on one row. *)
Definition bump (u pid : Z) (c : Cart.row) : Cart.row :=
  if same_key u pid c
  then {| Cart.user_id := u; Cart.product_id := pid; Cart.qty := (Cart.qty c + 1)%Z |}
  else c.




(** ** The two import handlers *)

(** A channel post as [on_channel_post] reads it. *)
Record ChannelPost : Type := {
  cp_caption : option str;
  cp_text : option str;
  cp_photo : list str;
  chat_id : Z;
  message_id : Z
}.

(** [x or 0] on an optional integer. *)
Definition int_or_zero (o : option Z) : Z :=
  match o with
  | Some v => if (v =? 0)%Z then 0%Z else v
  | None => 0%Z
  end.

(** The product built by [on_channel_post]. *)
Definition product_from_channel_post (post : ChannelPost) : py Product :=
  let cap := str_or (cp_caption post) (str_or (cp_text post) []) in
  let tags := parse_hashtags cap in
  let category := nth 0 tags (u "Общее") in
  let brand := nth 1 tags (u "NoBrand") in
  title <- first_line cap ;;
  price <- parse_price cap ;;
  sizes <- parse_sizes cap ;;
  let photo_file_id :=
    match cp_photo post with [] => None | _ => Some (last (cp_photo post) []) end in
  Ok {| id := 0;
        title := title;
        price := int_or_zero price;
        photo_file_id := photo_file_id;
        descr := Some cap;
        category := category;
        brand := brand;
        sizes := sizes;
        source_chat_id := Some (chat_id post);
        source_msg_id := Some (message_id post) |}.

(** [on_channel_post], as far as the store goes: the new store and the id
    of the product, or no id when there is no post or nothing to parse.
    What follows the insert only sends a message. *)
Definition on_channel_post (d : db) (channel_post : option ChannelPost)
  : py (db * option Z) :=
  match channel_post with
  | None => Ok (d, None)
  | Some post =>
    let cap := str_or (cp_caption post) (str_or (cp_text post) []) in
    if is_empty cap && match cp_photo post with [] => true | _ => false end
    then Ok (d, None)
    else
      p <- product_from_channel_post post ;;
      let (d', pid) := add_product d p in
      Ok (d', Some pid)
  end.

(** [import_from_forward], as far as the store goes; [private] tells
    whether the chat is a private one.  What follows the insert only reads
    the categories and sends the reply. *)
Definition import_from_forward (d : db) (private : bool) (msg : Message)
  : py (db * option Z) :=
  if negb private then Ok (d, None)
  else
    p <- product_from_forward msg ;;
    let (d', pid) := add_product d p in
    Ok (d', Some pid).

(** ** Integers as text *)

(** The interpreter's default limit on the digits of a conversion between
    [int] and [str]. *)
Definition max_str_digits : nat := 4300.

(** The decimal digits of [n], most significant first, put before [acc];
    [fuel] bounds their number. *)
Fixpoint dec_digits (fuel : nat) (n : N) (acc : str) : str :=
  match fuel with
  | O => acc
  | S f =>
    let acc' := (48 + n mod 10)%N :: acc in
    if (n <? 10)%N then acc' else dec_digits f (n / 10) acc'
  end.

Definition str_of_N (n : N) : str := dec_digits (S (N.to_nat (N.log2 n))) n [].

(** [str(z)] and [f"{z}"] for an int. *)
Definition str_of_int (z : Z) : py str :=
  let ds := str_of_N (Z.abs_N z) in
  if (max_str_digits <? length ds)%nat then Raise ValueError
  else Ok (if (z <? 0)%Z then 45%N :: ds else ds).

(** The blanks that [int] skips at both ends: those of [str.isspace]
    except the four separators U+001C to U+001F. *)
Definition int_space (c : char) : bool :=
  isspace c && negb ((28 <=? c)%N && (c <=? 31)%N).

(** The digits of an [int] literal: decimal digits, with single
    underscores between them. *)
Fixpoint int_body_ok (after_digit : bool) (s : str) : bool :=
  match s with
  | [] => after_digit
  | c :: s' =>
    if isdecimal c then int_body_ok true s'
    else if (c =? 95)%N then after_digit && int_body_ok false s'
    else false
  end.

(** An optional sign in front: whether it is a minus, and what follows. *)
Definition int_sign (t : str) : bool * str :=
  match t with
  | c :: r =>
    if (c =? 45)%N then (true, r)
    else if (c =? 43)%N then (false, r)
    else (false, t)
  | [] => (false, [])
  end.

(** [int(s)] for a str. *)
Definition int_of_str (s : str) : py Z :=
  let t := rev (drop_while int_space (rev (drop_while int_space s))) in
  let body := snd (int_sign t) in
  let ds := filter isdecimal body in
  if int_body_ok false body && (length ds <=? max_str_digits)%nat
  then Ok (if fst (int_sign t) then - digits_value ds else digits_value ds)%Z
  else Raise ValueError.

(** ** Splitting *)

(** [s.split(sep)] for a separator of one character; [cur] is the part
    being read, reversed. *)
Fixpoint split_aux (sep : char) (cur : str) (s : str) : list str :=
  match s with
  | [] => [rev cur]
  | c :: s' =>
    if (c =? sep)%N then rev cur :: split_aux sep [] s'
    else split_aux sep (c :: cur) s'
  end.

Definition split_on (sep : char) (s : str) : list str := split_aux sep [] s.

(** [s.split()]: the runs of characters that are not blanks. *)
Fixpoint split_ws_aux (cur : str) (s : str) : list str :=
  match s with
  | [] => match cur with [] => [] | _ => [rev cur] end
  | c :: s' =>
    if isspace c then
      match cur with
      | [] => split_ws_aux [] s'
      | _ => rev cur :: split_ws_aux [] s'
      end
    else split_ws_aux (c :: cur) s'
  end.

Definition split_ws (s : str) : list str := split_ws_aux [] s.

Fixpoint startswith (prefix s : str) : bool :=
  match prefix, s with
  | [], _ => true
  | p :: prefix', c :: s' => (c =? p)%N && startswith prefix' s'
  | _ :: _, [] => false
  end.

Definition COLON : char := 58%N.

(** ** [price_fmt] *)

(** The thousands separators of the [,] format, on the reversed digits;
    [k] digits of the current group have been written. *)
Fixpoint group_rev (k : nat) (l : str) : str :=
  match l with
  | [] => []
  | c :: r =>
    match r with
    | [] => [c]
    | _ => if (k =? 2)%nat then c :: 44%N :: group_rev 0 r else c :: group_rev (S k) r
    end
  end.

(** [f"{z:,}"] *)
Definition format_grouped (z : Z) : py str :=
  let ds := str_of_N (Z.abs_N z) in
  if (max_str_digits <? length ds)%nat then Raise ValueError
  else
    let g := rev (group_rev 0 (rev ds)) in
    Ok (if (z <? 0)%Z then 45%N :: g else g).

(** [f"{k:02d}"] for [0 <= k < 100] *)
Definition two_digits (k : Z) : str :=
  [(48 + Z.to_N (k / 10))%N; (48 + Z.to_N (k mod 10))%N].

(** [s.replace(",", " ")] *)
Definition comma_to_space (c : char) : char := if (c =? 44)%N then SPACE else c.

Definition price_fmt (p : Z) : py str :=
  let rub := (p / 100)%Z in
  let kop := (p mod 100)%Z in
  g <- format_grouped rub ;;
  Ok (map comma_to_space (g ++ u "." ++ two_digits kop ++ u " ₽")).

(** ** Inline keyboards and callbacks *)

Inductive Button : Type :=
| CallbackButton (label data : str)
| UrlButton (label url : str).

(** [product_inline_kb]; the two user names are the settings
    [BOT_USERNAME] and [MANAGER_USERNAME]. *)
Definition product_inline_kb (bot_username manager_username : str) (pid : Z)
  : py (list (list Button)) :=
  s <- str_of_int pid ;;
  let rows :=
    [ [ CallbackButton (u "🛒 Купить") (u "buy:" ++ s);
        CallbackButton (u "👗 В гардероб") (u "wardrobe:" ++ s) ];
      [ UrlButton (u "👤 Написать менеджеру") (u "https://t.me/" ++ manager_username) ] ] in
  Ok match bot_username with
     | [] => rows
     | _ => rows ++ [ [ UrlButton (u "🔗 Открыть в боте")
                          (u "https://t.me/" ++ bot_username ++ u "?start=prd_" ++ s) ] ]
     end.

(** The product that [start] looks up for its arguments, if any: the
    [try] block swallows every exception. *)
Definition start_product (d : db) (args : list str) : option Product :=
  match args with
  | a :: _ =>
    if startswith (u "prd_") a then
      match nth_error (split_on 95%N a) 1 with
      | Some x =>
        match int_of_str x with
        | Ok pid => get_product_by_id d pid
        | Raise _ => None
        end
      | None => None
      end
    else None
  | [] => None
  end.

(** The page of [show_products_by_brand] and the data of its "more"
    button; no button follows an empty first page.  The captions of the
    cards are left out. *)
Definition show_products_by_brand (d : db) (category brand : str) (offset : Z)
    (pf pt : option Z) (sz : option str) : py (list Product * option str) :=
  let items :=
    list_products d {| f_category := Some category; f_brand := Some brand;
                       price_from := pf; price_to := pt; size_query := sz |}
                  offset 6 in
  match items, (offset =? 0)%Z with
  | [], true => Ok ([], None)
  | _, _ =>
    off <- str_of_int (offset + 6) ;;
    Ok (items, Some (u "morebrand:" ++ category ++ [COLON] ++ brand ++ [COLON] ++ off))
  end.

(** The store as [on_cb] sees it. *)
Record shop : Type := { store : db; wardrobe : list Wardrobe.row }.

(** [int(data.split(":")[1])] *)
Definition callback_pid (data : str) : py Z :=
  match nth_error (split_on COLON data) 1 with
  | Some x => int_of_str x
  | None => Raise IndexError
  end.

(** [parts[1], parts[2], int(parts[3])] *)
Definition morebrand_args (data : str) : py (str * str * Z) :=
  let parts := split_on COLON data in
  match nth_error parts 1, nth_error parts 2, nth_error parts 3 with
  | Some cat, Some brand, Some o => off <- int_of_str o ;; Ok (cat, brand, off)
  | _, _, _ => Raise IndexError
  end.

(** [on_cb]: the store after the callback and the page of cards it shows.
    The integers that reach the store are taken within SQLite's range, as
    in the store model; the replies are left out. *)
Definition on_cb (s : shop) (from_user : Z) (data : str)
  : py (shop * list Product) :=
  if startswith (u "buy:") data then
    pid <- callback_pid data ;;
    Ok ({| store := add_to_cart (store s) from_user pid; wardrobe := wardrobe s |}, [])
  else if startswith (u "wardrobe:") data then
    pid <- callback_pid data ;;
    Ok ({| store := store s; wardrobe := add_to_wardrobe (wardrobe s) from_user pid |}, [])
  else if startswith (u "morebrand:") data then
    a <- morebrand_args data ;;
    let '(cat, brand, off) := a in
    r <- show_products_by_brand (store s) cat brand off None None None ;;
    Ok (s, fst r)
  else if str_eqb data (u "checkout") then
    let (d, r) := create_order (store s) from_user in
    _ <- r ;;
    Ok ({| store := d; wardrobe := wardrobe s |}, [])
  else if str_eqb data (u "checkout_pay") then Ok (s, [])
  else if str_eqb data (u "clearcart") then
    Ok ({| store := clear_cart (store s) from_user; wardrobe := wardrobe s |}, [])
  else Ok (s, []).

(** ** The [/filter] command of [on_text] *)

(** [int(parts[i]) * 100 if len(parts) > i and parts[i].isdigit() else None] *)
Definition filter_bound (parts : list str) (i : nat) : py (option Z) :=
  match nth_error parts i with
  | Some x =>
    if str_isdigit x then v <- int_of_str x ;; Ok (Some (v * 100)%Z) else Ok None
  | None => Ok None
  end.

(** The two bounds that [/filter] stores in [user_data]. *)
Definition filter_command (txt : str) : py (option Z * option Z) :=
  let parts := split_ws txt in
  pf <- filter_bound parts 1 ;;
  pt <- filter_bound parts 2 ;;
  Ok (pf, pt).

(** ** Reply keyboards *)

(** The rows of two that both keyboard builders make. *)
Fixpoint rows_of_two (l : list str) : list (list str) :=
  match l with
  | a :: b :: r => [a; b] :: rows_of_two r
  | [a] => [[a]]
  | [] => []
  end.

Definition BTN_CART : str := u "🛒 Корзина".
Definition BTN_WARDROBE : str := u "👗 Гардероб".
Definition BTN_ORDERS : str := u "🧾 Мои покупки".
Definition BTN_FEEDBACK : str := u "✉️ Обратная связь".
Definition BTN_BACK_TO_CATS : str := u "⬅️ Назад в категории".

Definition build_categories_kb (categories : list str) : list (list str) :=
  let categories :=
    match categories with
    | [] => [u "🧥 Куртки"; u "👕 Одежда"; u "👖 Джинсы"; u "👟 Кроссовки"]
    | _ => categories
    end in
  rows_of_two categories
  ++ [[BTN_CART; BTN_WARDROBE]; [BTN_ORDERS; BTN_FEEDBACK]].

Definition build_brands_kb (brands : list str) : list (list str) :=
  let brands := match brands with [] => [u "NoBrand"] | _ => brands end in
  rows_of_two brands ++ [[BTN_BACK_TO_CATS]].

(** The digits [0] to [9]. *)
Definition ascii_digit (c : char) : bool := (48 <=? c)%N && (c <=? 57)%N.

(** The integers that SQLite stores. *)
Definition sqlite_int (z : Z) : Prop := (- 2 ^ 63 <= z < 2 ^ 63)%Z.

Definition no_colon (s : str) : Prop := ~ In COLON s.

(** A text that holds the letter [р], small or capital. *)
Definition has_rub_letter (t : str) : Prop :=
  exists c, In c t /\ ci 1088%N c = true.

(** A ruble sign with a word character right after it. *)
Definition sign_before_word (t : str) : Prop :=
  exists pre c post, t = pre ++ RUBLE_SIGN :: c :: post /\ isword c = true.

(** [sign_before_word], decided. *)
Fixpoint sign_before_wordb (t : str) : bool :=
  match t with
  | a :: r =>
    ((a =? RUBLE_SIGN)%N && match r with b :: _ => isword b | [] => false end)
    || sign_before_wordb r
  | [] => false
  end.

(** Where a currency token can match with [\b] after it. *)
Definition currency_ready (t : str) : Prop :=
  has_rub_letter t \/ sign_before_word t.

(** * Properties *)

Lemma str_eqb_eq (a b : str) : str_eqb a b = true <-> a = b.
Proof. unfold str_eqb. destruct (list_eq_dec N.eq_dec a b); split; congruence. Qed.

(** ** General list facts *)

Lemma find_hd_filter {A} (f : A -> bool) (l : list A) :
  find f l = hd_error (filter f l).
Proof.
  induction l as [|a l IH]; simpl; [reflexivity|].
  destruct (f a); simpl; auto.
Qed.

Lemma existsb_false_filter {A} (f : A -> bool) (l : list A) :
  existsb f l = false -> filter f l = [].
Proof.
  induction l as [|a l IH]; simpl; [reflexivity|].
  destruct (f a); simpl; [discriminate|auto].
Qed.

Lemma existsb_true_filter {A} (f : A -> bool) (l : list A) :
  existsb f l = true -> filter f l <> [].
Proof.
  induction l as [|a l IH]; simpl; [discriminate|].
  destruct (f a); simpl; [discriminate|auto].
Qed.

Lemma existsb_pointwise {A} (f g : A -> bool) (l : list A) :
  (forall a, f a = g a) -> existsb f l = existsb g l.
Proof. intros H. induction l as [|a l IH]; simpl; [reflexivity|]. now rewrite H, IH. Qed.

Lemma max_of_ge (l : list Z) (x : Z) : In x l -> (x <= max_of l)%Z.
Proof.
  induction l as [|a l IH]; simpl; [tauto|].
  intros [->|H]; [lia|]. specialize (IH H). lia.
Qed.

Lemma max_of_nonneg (l : list Z) : (0 <= max_of l)%Z.
Proof. induction l; simpl; lia. Qed.

Lemma next_rowid_pos (seq : Z) (ids : list Z) : (1 <= next_rowid seq ids)%Z.
Proof. unfold next_rowid. pose proof (max_of_nonneg ids). lia. Qed.

Lemma next_rowid_fresh (seq : Z) (ids : list Z) (x : Z) :
  In x ids -> (x < next_rowid seq ids)%Z.
Proof. intros H. apply max_of_ge in H. unfold next_rowid. lia. Qed.

(** ** The catalog: [add_product] *)

Lemma source_conflict_has_source (p : Product) (c m : Z) :
  source_chat_id p = Some c -> source_msg_id p = Some m ->
  forall q, source_conflict p q = has_source c m q.
Proof.
  intros Hc Hm q. unfold source_conflict, has_source, source_is, opt_Z_eqb.
  rewrite Hc, Hm.
  destruct (source_chat_id q) as [a|], (source_msg_id q) as [b|]; simpl;
    rewrite ?andb_false_r; try reflexivity.
  rewrite (Z.eqb_sym c a), (Z.eqb_sym m b). reflexivity.
Qed.

Lemma has_source_with_id (p : Product) (c m i : Z) :
  has_source c m (with_id p i) = has_source c m p.
Proof. reflexivity. Qed.

Lemma has_source_self (p : Product) (c m : Z) :
  source_chat_id p = Some c -> source_msg_id p = Some m ->
  has_source c m p = true.
Proof.
  intros Hc Hm. unfold has_source, source_is, opt_Z_eqb.
  rewrite Hc, Hm, !Z.eqb_refl. reflexivity.
Qed.

Lemma has_source_inj (q : Product) (c m c' m' : Z) :
  has_source c m q = true -> has_source c' m' q = true -> c = c' /\ m = m'.
Proof.
  unfold has_source, source_is, opt_Z_eqb.
  destruct (source_chat_id q), (source_msg_id q); simpl;
    intros H1 H2; try discriminate;
    rewrite ?andb_false_r in *; try discriminate.
  apply andb_true_iff in H1 as [H1 H1']. apply andb_true_iff in H2 as [H2 H2'].
  apply Z.eqb_eq in H1, H1', H2, H2'. lia.
Qed.

(** The result of [add_product] on a product that carries a source pair:
    the id of the only row with that pair afterwards. *)
Lemma add_product_sourced (d : db) (p : Product) (c m : Z) :
  source_unique (products d) ->
  source_chat_id p = Some c -> source_msg_id p = Some m ->
  exists row,
    filter (has_source c m) (products (fst (add_product d p))) = [row]
    /\ id row = snd (add_product d p)
    /\ (existsb (has_source c m) (products d) = true ->
        products (fst (add_product d p)) = products d).
Proof.
  intros Hu Hc Hm. unfold add_product.
  rewrite (existsb_pointwise _ _ (products d) (source_conflict_has_source p c m Hc Hm)).
  rewrite Hc, Hm.
  set (new_id := next_rowid (products_seq d) (map id (products d))).
  destruct (existsb (has_source c m) (products d)) eqn:E.
  - simpl. change (source_is (Some c) (Some m)) with (has_source c m).
    rewrite find_hd_filter.
    pose proof (existsb_true_filter _ _ E) as Hne. specialize (Hu c m).
    destruct (filter (has_source c m) (products d)) as [|row [|row' l]] eqn:F;
      [congruence| |simpl in Hu; lia].
    exists row. simpl. auto.
  - assert (Hpos : (new_id =? 0)%Z = false).
    { apply Z.eqb_neq. pose proof (next_rowid_pos (products_seq d) (map id (products d))).
      subst new_id. lia. }
    rewrite Hpos. simpl.
    exists (with_id p new_id). simpl. rewrite filter_app, (existsb_false_filter _ _ E). simpl.
    rewrite has_source_with_id, (has_source_self p c m Hc Hm). simpl.
    repeat split; auto. discriminate.
Qed.

Lemma has_source_fields (q : Product) (c m : Z) :
  has_source c m q = true ->
  source_chat_id q = Some c /\ source_msg_id q = Some m.
Proof.
  unfold has_source, source_is, opt_Z_eqb.
  destruct (source_chat_id q), (source_msg_id q); simpl;
    intros H; try discriminate; rewrite ?andb_false_r in *; try discriminate.
  apply andb_true_iff in H as [H1 H2]. apply Z.eqb_eq in H1, H2. now subst.
Qed.

(** The index invariant holds initially and [add_product] keeps it. *)
Lemma source_unique_empty : source_unique (products empty_db).
Proof. intros c m. simpl. lia. Qed.

Lemma add_product_keeps_unique (d : db) (p : Product) :
  source_unique (products d) -> source_unique (products (fst (add_product d p))).
Proof.
  intros Hu. unfold add_product.
  destruct (existsb (source_conflict p) (products d)) eqn:E; simpl.
  - destruct (find _ _); exact Hu.
  - destruct (negb _); simpl.
    2: destruct (find _ _); simpl.
    all: intros c m; rewrite filter_app, length_app; simpl;
      destruct (has_source c m (with_id p _)) eqn:H; simpl;
      [|specialize (Hu c m); lia].
    all: rewrite has_source_with_id in H; apply has_source_fields in H as [Hc Hm];
      rewrite (existsb_pointwise _ _ (products d) (source_conflict_has_source p c m Hc Hm)) in E;
      rewrite (existsb_false_filter _ _ E); simpl; lia.
Qed.

(** C1. For a product whose source pair (source_chat_id, source_msg_id) is
    non-null, two calls of [add_product] with that pair return the same id,
    the second call leaves the products table as it was, and the table
    then holds exactly one row with the pair, the row of the returned id. *)
Theorem add_product_idempotent (d : db) (p q : Product) (c m : Z) :
  source_unique (products d) ->
  source_chat_id p = Some c -> source_msg_id p = Some m ->
  source_chat_id q = Some c -> source_msg_id q = Some m ->
  let (d1, id1) := add_product d p in
  let (d2, id2) := add_product d1 q in
  id1 = id2
  /\ products d2 = products d1
  /\ exists row, filter (has_source c m) (products d2) = [row] /\ id row = id1.
Proof.
  intros Hu Hpc Hpm Hqc Hqm.
  destruct (add_product_sourced d p c m Hu Hpc Hpm) as (r1 & F1 & I1 & _).
  pose proof (add_product_keeps_unique d p Hu) as Hu1.
  destruct (add_product d p) as [d1 id1]. simpl in *.
  destruct (add_product_sourced d1 q c m Hu1 Hqc Hqm) as (r2 & F2 & I2 & Same).
  destruct (add_product d1 q) as [d2 id2]. simpl in *.
  assert (E : existsb (has_source c m) (products d1) = true).
  { destruct (existsb (has_source c m) (products d1)) eqn:E; [reflexivity|].
    rewrite (existsb_false_filter _ _ E) in F1. discriminate. }
  specialize (Same E). rewrite Same in F2. rewrite F1 in F2.
  injection F2 as <-. subst. repeat split; auto.
  exists r1. rewrite Same. auto.
Qed.

Lemma add_product_idempotent_witness :
  let (d1, id1) := add_product shop_db (sample_product 7 42) in
  let (d2, id2) := add_product d1 (sample_product 7 42) in
  id1 = id2
  /\ products d2 = products d1
  /\ exists row, filter (has_source 7 42) (products d2) = [row] /\ id row = id1.
Proof.
  apply (add_product_idempotent shop_db (sample_product 7 42) (sample_product 7 42)
           7%Z 42%Z).
  - intros c m. simpl. destruct (has_source c m _); simpl; lia.
  - reflexivity.
  - reflexivity.
  - reflexivity.
  - reflexivity.
Defined.

(** ** Cart and checkout: [get_cart], [create_order] *)

Lemma fold_left_add_shift {A} (f : A -> Z) (l : list A) (a : Z) :
  fold_left (fun acc x => (acc + f x)%Z) l a
  = (a + fold_right Z.add 0%Z (map f l))%Z.
Proof.
  revert a. induction l as [|x l IH]; intros a; simpl; [lia|].
  rewrite IH. lia.
Qed.

(** Python's [sum] over the snapshot is the sum of the line totals. *)
Lemma cart_total_sum (items : list cart_line) :
  cart_total items = fold_right Z.add 0%Z (map line_total items).
Proof. unfold cart_total. rewrite fold_left_add_shift. lia. Qed.

Lemma item_total_row (order_id : Z) (l : cart_line) :
  item_total (item_row order_id l) = line_total l.
Proof. destruct l as [[[pid t] pr] q]. reflexivity. Qed.

Lemma filter_all {A} (f : A -> bool) (l : list A) :
  (forall a, In a l -> f a = true) -> filter f l = l.
Proof.
  induction l as [|a l IH]; simpl; intros H; [reflexivity|].
  rewrite (H a) by auto. f_equal. auto.
Qed.

Lemma filter_none {A} (f : A -> bool) (l : list A) :
  (forall a, In a l -> f a = false) -> filter f l = [].
Proof.
  induction l as [|a l IH]; simpl; intros H; [reflexivity|].
  rewrite (H a) by auto. auto.
Qed.

(** *** The order of the lines *)

Lemma insert_line_sum (x : cart_line) (l : list cart_line) :
  fold_right Z.add 0%Z (map line_total (insert_line x l))
  = (line_total x + fold_right Z.add 0%Z (map line_total l))%Z.
Proof.
  induction l as [|y l IH]; [reflexivity|]. cbn [insert_line].
  destruct (line_pid x <=? line_pid y)%Z; [reflexivity|].
  cbn [map fold_right]. rewrite IH. lia.
Qed.

Lemma by_product_sum (l : list cart_line) :
  fold_right Z.add 0%Z (map line_total (by_product l))
  = fold_right Z.add 0%Z (map line_total l).
Proof.
  induction l as [|x l IH]; [reflexivity|].
  cbn [by_product fold_right]. fold (by_product l).
  rewrite insert_line_sum, IH. reflexivity.
Qed.

Lemma insert_line_in (x y : cart_line) (l : list cart_line) :
  In y (insert_line x l) <-> y = x \/ In y l.
Proof.
  induction l as [|z l IH]; cbn [insert_line].
  - simpl. intuition.
  - destruct (line_pid x <=? line_pid z)%Z; simpl; [intuition|].
    rewrite IH. simpl. intuition.
Qed.

Lemma by_product_in (y : cart_line) (l : list cart_line) :
  In y (by_product l) <-> In y l.
Proof.
  induction l as [|x l IH]; [reflexivity|].
  cbn [by_product fold_right]. fold (by_product l).
  rewrite insert_line_in, IH. simpl. intuition.
Qed.

Lemma by_product_nil (l : list cart_line) : by_product l = [] <-> l = [].
Proof.
  split; [|now intros ->].
  destruct l as [|x l]; [reflexivity|]. intros H.
  assert (K : In x (by_product (x :: l))) by (apply by_product_in; now left).
  rewrite H in K. destruct K.
Qed.

Lemma cart_join_clear (d : db) (user : Z) : cart_join (clear_cart d user) user = [].
Proof.
  unfold cart_join, clear_cart. simpl.
  induction (cart d) as [|c l IH]; simpl; [reflexivity|].
  destruct (Cart.user_id c =? user)%Z eqn:E; simpl; [exact IH|].
  rewrite E. exact IH.
Qed.

Lemma get_cart_clear (d : db) (user : Z) : get_cart (clear_cart d user) user = [].
Proof. unfold get_cart. now rewrite cart_join_clear. Qed.

Lemma user_cart_clear (d : db) (user : Z) : user_cart (clear_cart d user) user = [].
Proof.
  unfold user_cart, clear_cart. simpl. apply filter_none.
  intros c H. apply filter_In in H as [_ H].
  now apply negb_true_iff in H.
Qed.

Lemma items_bounded_empty : items_bounded empty_db.
Proof. intros r []. Qed.

Lemma create_order_keeps_bounded (d : db) (user : Z) :
  items_bounded d -> items_bounded (fst (create_order d user)).
Proof.
  intros Hb. unfold create_order.
  destruct (get_cart d user) as [|l items]; [exact Hb|].
  unfold insert_order. destruct (storable _); [|exact Hb].
  unfold insert_rows, clear_cart, items_bounded. simpl.
  set (oid := next_rowid (orders_seq d) (map Orders.id (orders d))).
  intros r H. apply in_app_or in H as [H | H].
  - apply Hb in H. unfold oid, next_rowid. lia.
  - assert (E : OrderItems.order_id r = oid).
    { destruct H as [<- | H]; [destruct l as [[[? ?] ?] ?]; reflexivity|].
      apply in_map_iff in H as (x & <- & _).
      destruct x as [[[? ?] ?] ?]. reflexivity. }
    rewrite E. lia.
Qed.

Lemma insert_rows_items_sum (d : db) (user : Z) (its : list cart_line) (total : Z) :
  items_bounded d ->
  items_sum (fst (insert_rows d user its total)) (snd (insert_rows d user its total))
  = cart_total its.
Proof.
  intros Hb. unfold items_sum, items_of_order, insert_rows.
  cbn [fst snd order_items].
  set (oid := next_rowid (orders_seq d) (map Orders.id (orders d))).
  rewrite filter_app, (@filter_none _ _ (order_items d)), filter_all.
  - cbn [app]. rewrite cart_total_sum, map_map. f_equal.
    apply map_ext. intros a. apply item_total_row.
  - intros r Hr. apply Z.eqb_eq. apply in_map_iff in Hr as (x & <- & _).
    destruct x as [[[? ?] ?] ?]. reflexivity.
  - intros r Hr. apply Z.eqb_neq. apply Hb in Hr. unfold oid, next_rowid. lia.
Qed.

Lemma insert_rows_row (d : db) (user : Z) (its : list cart_line) (total : Z) :
  filter (fun o => (Orders.id o =? snd (insert_rows d user its total))%Z)
         (orders (fst (insert_rows d user its total)))
  = [{| Orders.id := snd (insert_rows d user its total); Orders.user_id := user;
        Orders.total_price := total; Orders.status := u "NEW" |}].
Proof.
  unfold insert_rows. cbn [fst snd orders].
  set (oid := next_rowid (orders_seq d) (map Orders.id (orders d))).
  rewrite filter_app. cbn [filter Orders.id]. rewrite Z.eqb_refl.
  rewrite filter_none; [reflexivity|].
  intros o Ho. apply Z.eqb_neq.
  pose proof (next_rowid_fresh (orders_seq d) (map Orders.id (orders d))
                (Orders.id o) (in_map _ _ _ Ho)) as H.
  fold oid in H. lia.
Qed.

(** The store that a call leaves: the one it found, or the one with the
    rows committed and, for [create_order], the cart cleared. *)
Lemma insert_order_store (d : db) (user : Z) (items : list cart_line) (total : Z) :
  fst (insert_order d user items total) = d
  \/ fst (insert_order d user items total) = fst (insert_rows d user items total).
Proof.
  unfold insert_order. destruct (storable total); [right|left; reflexivity].
  now destruct (insert_rows d user items total).
Qed.

Lemma create_order_store (d : db) (user : Z) :
  fst (create_order d user) = d
  \/ fst (create_order d user)
     = clear_cart (fst (insert_rows d user (get_cart d user)
                                    (cart_total (get_cart d user)))) user.
Proof.
  unfold create_order, insert_order.
  destruct (get_cart d user) as [|l items]; [left; reflexivity|].
  destruct (storable _); [right|left; reflexivity].
  now destruct (insert_rows d user (l :: items) (cart_total (l :: items))).
Qed.

Lemma create_order_raises (d : db) (user : Z) :
  get_cart d user <> [] ->
  storable (cart_total (get_cart d user)) = false ->
  create_order d user = (d, Raise OverflowError).
Proof.
  intros Hne Hs. unfold create_order, insert_order.
  destruct (get_cart d user) as [|l items]; [congruence|]. now rewrite Hs.
Qed.

(** C2, amended. For a user whose cart snapshot is non-empty, with total
    the sum of price times qty over the snapshot: when total fits SQLite's
    INTEGER, [create_order] returns (order_id, total); afterwards the
    user's cart is empty, exactly one order row has that id, it is the
    user's, NEW, with total_price = total, and the order_items rows of that
    id sum (price times qty) to total.  When total does not fit,
    [create_order] raises OverflowError and the store, the cart included,
    is as it was. *)
Theorem create_order_checkout (d : db) (user : Z) :
  items_bounded d ->
  get_cart d user <> [] ->
  (storable (cart_total (get_cart d user)) = true ->
   exists d' order_id total,
     create_order d user = (d', Ok (Some (order_id, total)))
     /\ total = fold_right Z.add 0%Z (map line_total (get_cart d user))
     /\ user_cart d' user = []
     /\ get_cart d' user = []
     /\ filter (fun o => (Orders.id o =? order_id)%Z) (orders d')
        = [{| Orders.id := order_id; Orders.user_id := user;
              Orders.total_price := total; Orders.status := u "NEW" |}]
     /\ items_sum d' order_id = total)
  /\ (storable (cart_total (get_cart d user)) = false ->
      create_order d user = (d, Raise OverflowError)).
Proof.
  intros Hb Hne. split; [|apply create_order_raises, Hne].
  intros Hs. unfold create_order, insert_order. rewrite Hs.
  pose proof (insert_rows_items_sum d user (get_cart d user)
                (cart_total (get_cart d user)) Hb) as Hsum.
  pose proof (insert_rows_row d user (get_cart d user)
                (cart_total (get_cart d user))) as Hrow.
  destruct (insert_rows d user (get_cart d user) (cart_total (get_cart d user)))
    as [d1 oid] eqn:I.
  cbn [fst snd] in Hsum, Hrow.
  exists (clear_cart d1 user), oid, (cart_total (get_cart d user)).
  split.
  { destruct (get_cart d user) as [|l items]; [congruence|]. reflexivity. }
  split; [apply cart_total_sum|].
  split; [apply user_cart_clear|].
  split; [apply get_cart_clear|].
  split; [exact Hrow | exact Hsum].
Qed.

(** A cart row whose product exists makes the snapshot non-empty. *)
Lemma get_cart_nonempty (d : db) (user : Z) (c : Cart.row) (p : Product) :
  In c (cart d) -> Cart.user_id c = user ->
  In p (products d) -> id p = Cart.product_id c ->
  get_cart d user <> [].
Proof.
  intros Hc Hu Hp Hid E.
  assert (H : In (id p, title p, price p, Cart.qty c) (get_cart d user)).
  { unfold get_cart. apply by_product_in.
    unfold cart_join. apply in_flat_map. exists c. split; [exact Hc|].
    rewrite Hu, Z.eqb_refl. apply in_map_iff. exists p. split; [reflexivity|].
    apply filter_In. split; [exact Hp|]. now apply Z.eqb_eq. }
  rewrite E in H. exact H.
Qed.

(** C3. For a user whose cart snapshot is empty, [create_order] returns
    None and the store is unchanged: no order row, no item row. *)
Theorem create_order_empty_cart (d : db) (user : Z) :
  get_cart d user = [] -> create_order d user = (d, Ok None).
Proof. intros H. unfold create_order. now rewrite H. Qed.

(** *** Dangling cart rows *)

Lemma get_cart_drop_dangling (d : db) (user : Z) :
  get_cart (drop_dangling d) user = get_cart d user.
Proof.
  unfold get_cart. f_equal.
  unfold cart_join, drop_dangling, dangling. simpl.
  induction (cart d) as [|c l IH]; simpl; [reflexivity|].
  destruct (existsb _ (products d)) eqn:E; simpl.
  - now rewrite IH.
  - rewrite IH. rewrite (existsb_false_filter _ _ E).
    destruct (Cart.user_id c =? user)%Z; reflexivity.
Qed.

Lemma get_cart_all_dangling (d : db) (user : Z) :
  (forall c, In c (user_cart d user) -> dangling d c = true) ->
  get_cart d user = [].
Proof.
  unfold get_cart. intros H. apply by_product_nil. revert H.
  unfold cart_join, user_cart, dangling.
  induction (cart d) as [|c l IH]; simpl; intros H; [reflexivity|].
  destruct (Cart.user_id c =? user)%Z eqn:E.
  - rewrite IH by (intros c' Hc'; apply H; simpl; auto).
    pose proof (H c (or_introl eq_refl)) as Hd.
    apply negb_true_iff in Hd. rewrite (existsb_false_filter _ _ Hd).
    reflexivity.
  - apply IH. exact H.
Qed.

(** C10. Dangling cart rows take no part in [get_cart]: the snapshot, and
    so the checkout total, is the same with them removed.  When every cart
    row of a user is dangling, [create_order] returns None and leaves the
    store as it was, so those rows stay in the cart table. *)
Theorem dangling_rows_ignored (d : db) (user : Z) :
  get_cart d user = get_cart (drop_dangling d) user
  /\ cart_total (get_cart d user) = cart_total (get_cart (drop_dangling d) user)
  /\ ((forall c, In c (user_cart d user) -> dangling d c = true) ->
      create_order d user = (d, Ok None)
      /\ user_cart (fst (create_order d user)) user = user_cart d user).
Proof.
  rewrite get_cart_drop_dangling. repeat split; auto.
  - apply create_order_empty_cart, get_cart_all_dangling, H.
  - rewrite create_order_empty_cart; [reflexivity|].
    apply get_cart_all_dangling, H.
Qed.

Lemma create_order_checkout_witness :
  (exists d' order_id total,
     create_order shop_db 10 = (d', Ok (Some (order_id, total)))
     /\ total = fold_right Z.add 0%Z (map line_total (get_cart shop_db 10))
     /\ user_cart d' 10 = []
     /\ get_cart d' 10 = []
     /\ filter (fun o => (Orders.id o =? order_id)%Z) (orders d')
        = [{| Orders.id := order_id; Orders.user_id := 10;
              Orders.total_price := total; Orders.status := u "NEW" |}]
     /\ items_sum d' order_id = total)
  /\ create_order dear_db 10 = (dear_db, Raise OverflowError).
Proof.
  split.
  - apply (create_order_checkout shop_db 10).
    + intros r H. destruct H.
    + vm_compute. discriminate.
    + reflexivity.
  - apply (create_order_checkout dear_db 10).
    + intros r H. destruct H.
    + vm_compute. discriminate.
    + reflexivity.
Defined.

(** Counterexample to C2 as stated: the cart of user 10 in [dear_db] is not
    empty, its rows fit SQLite's INTEGER, and [create_order] raises
    OverflowError on the total 2^63: it returns no (order_id, total), writes
    no order and leaves the cart as it was. *)
Lemma create_order_overflow_counterexample :
  get_cart dear_db 10 <> []
  /\ cart_total (get_cart dear_db 10) = (2 ^ 63)%Z
  /\ Forall (fun p => storable (price p) = true) (products dear_db)
  /\ Forall (fun c => storable (Cart.qty c) = true) (cart dear_db)
  /\ create_order dear_db 10 = (dear_db, Raise OverflowError)
  /\ ~ (exists d' order_id total,
          create_order dear_db 10 = (d', Ok (Some (order_id, total)))).
Proof.
  split; [vm_compute; discriminate|].
  split; [reflexivity|].
  split; [repeat constructor|].
  split; [repeat constructor|].
  split; [reflexivity|].
  intros (d' & oid & total & H). vm_compute in H. discriminate H.
Qed.

Lemma create_order_empty_cart_witness : create_order shop_db 40 = (shop_db, Ok None).
Proof. apply (create_order_empty_cart shop_db 40). reflexivity. Defined.

Lemma dangling_rows_ignored_witness :
  user_cart shop_db 20 <> []
  /\ create_order shop_db 20 = (shop_db, Ok None)
  /\ user_cart (fst (create_order shop_db 20)) 20 = user_cart shop_db 20.
Proof.
  split.
  - vm_compute. discriminate.
  - apply (proj2 (proj2 (dangling_rows_ignored shop_db 20))).
    intros c H. vm_compute in H. destruct H as [H | H].
    + rewrite <- H. reflexivity.
    + destruct H.
Defined.

(** ** Listing: [list_products] *)

Lemma insert_desc_perm (p : Product) (l : list Product) :
  Permutation (p :: l) (insert_desc p l).
Proof.
  induction l as [|q l IH]; simpl; [constructor; constructor|].
  destruct (id q <=? id p)%Z; [apply Permutation_refl|].
  eapply perm_trans; [apply perm_swap|]. now constructor.
Qed.

Lemma order_by_id_desc_perm (l : list Product) :
  Permutation l (order_by_id_desc l).
Proof.
  induction l as [|p l IH]; simpl; [constructor|].
  eapply perm_trans; [|apply insert_desc_perm]. now constructor.
Qed.

Lemma insert_desc_sorted (p : Product) (l : list Product) :
  StronglySorted id_desc l ->
  ~ In (id p) (map id l) ->
  StronglySorted id_desc (insert_desc p l).
Proof.
  induction l as [|q l IH]; simpl; intros Hs Hn.
  - repeat constructor.
  - inversion Hs as [|? ? Hs' Hall]; subst.
    destruct (id q <=? id p)%Z eqn:E.
    + apply Z.leb_le in E. constructor; [exact Hs|].
      assert (Hlt : (id q < id p)%Z) by lia.
      constructor; [exact Hlt|].
      eapply Forall_impl; [|exact Hall]. unfold id_desc. intros a Ha. lia.
    + apply Z.leb_gt in E. constructor.
      * apply IH; [exact Hs'|tauto].
      * eapply Permutation_Forall; [apply insert_desc_perm|].
        constructor; [exact E|exact Hall].
Qed.

Lemma order_by_id_desc_sorted (l : list Product) :
  NoDup (map id l) -> StronglySorted id_desc (order_by_id_desc l).
Proof.
  induction l as [|p l IH]; simpl; intros Hnd; [constructor|].
  inversion Hnd as [|? ? Hn Hnd']; subst.
  apply insert_desc_sorted; [auto|].
  intros H. apply Hn.
  eapply Permutation_in; [|exact H].
  apply Permutation_map, Permutation_sym, order_by_id_desc_perm.
Qed.

Lemma sorted_app (R : Product -> Product -> Prop) (l1 l2 : list Product) :
  StronglySorted R (l1 ++ l2) ->
  StronglySorted R l1 /\ StronglySorted R l2
  /\ forall a b, In a l1 -> In b l2 -> R a b.
Proof.
  induction l1 as [|x l1 IH]; simpl; intros H.
  - repeat split; [constructor|exact H|intros a b []].
  - inversion H as [|? ? Hs Hall]; subst.
    destruct (IH Hs) as (S1 & S2 & Hab).
    apply Forall_app in Hall as [A1 A2].
    repeat split; [constructor; assumption|exact S2|].
    intros a b [<-|Ha] Hb; [|auto].
    rewrite Forall_forall in A2. auto.
Qed.

Lemma sorted_firstn (R : Product -> Product -> Prop) (n : nat) (l : list Product) :
  StronglySorted R l -> StronglySorted R (firstn n l).
Proof.
  intros H. rewrite <- (firstn_skipn n l) in H. now apply sorted_app in H.
Qed.

Lemma sorted_skipn (R : Product -> Product -> Prop) (n : nat) (l : list Product) :
  StronglySorted R l -> StronglySorted R (skipn n l).
Proof.
  intros H. rewrite <- (firstn_skipn n l) in H. now apply sorted_app in H.
Qed.

Lemma NoDup_map_filter (f : Product -> bool) (l : list Product) :
  NoDup (map id l) -> NoDup (map id (filter f l)).
Proof.
  induction l as [|p l IH]; simpl; intros H; [constructor|].
  inversion H as [|? ? Hn Hnd]; subst.
  destruct (f p); simpl; [|auto].
  constructor; [|auto].
  intros Hin. apply Hn. apply in_map_iff in Hin as (x & Hx & Hin).
  apply filter_In in Hin as [Hin _]. rewrite <- Hx. now apply in_map.
Qed.

Lemma in_firstn (n : nat) (l : list Product) (x : Product) :
  In x (firstn n l) -> In x l.
Proof.
  intros H. rewrite <- (firstn_skipn n l). apply in_or_app. now left.
Qed.

(** The primary key: ids are distinct, and [add_product] keeps them so. *)
Lemma add_product_keeps_ids (d : db) (p : Product) :
  NoDup (map id (products d)) -> NoDup (map id (products (fst (add_product d p)))).
Proof.
  intros H. unfold add_product.
  assert (K : NoDup (map id (products d
                ++ [with_id p (next_rowid (products_seq d) (map id (products d)))]))).
  { rewrite map_app. simpl. apply NoDup_app; [exact H|repeat constructor; auto|].
    intros x Hx [<-|[]].
    pose proof (next_rowid_fresh (products_seq d) (map id (products d)) _ Hx). lia. }
  destruct (existsb (source_conflict p) (products d)); simpl.
  - destruct (find _ _); exact H.
  - destruct (negb _); [exact K|]. destruct (find _ _); exact K.
Qed.

(** C9. With the primary key in force, [list_products] returns its rows
    in strictly descending id order whatever the filter, offset and limit,
    and on the same store and filter no id of the page (limit 6, offset 6)
    occurs on the page (limit 6, offset 0). *)
Theorem list_products_pages (d : db) (f : Filter) :
  NoDup (map id (products d)) ->
  (forall offset limit, StronglySorted id_desc (list_products d f offset limit))
  /\ (forall p q, In p (list_products d f 0 6) ->
                  In q (list_products d f 6 6) -> id p <> id q).
Proof.
  intros Hnd.
  assert (Hs : StronglySorted id_desc
                 (order_by_id_desc (filter (where_clause f) (products d)))).
  { apply order_by_id_desc_sorted, NoDup_map_filter, Hnd. }
  split.
  - intros offset limit. unfold list_products, limit_offset.
    destruct (limit <? 0)%Z.
    + now apply sorted_skipn.
    + now apply sorted_firstn, sorted_skipn.
  - intros p q Hp Hq.
    set (L := order_by_id_desc (filter (where_clause f) (products d))) in *.
    change (In p (firstn 6 L)) in Hp.
    change (In q (firstn 6 (skipn 6 L))) in Hq.
    apply in_firstn in Hq.
    rewrite <- (firstn_skipn 6 L) in Hs.
    apply sorted_app in Hs as (_ & _ & H).
    specialize (H p q Hp Hq). unfold id_desc in H. lia.
Qed.

Lemma list_products_pages_witness :
  (forall offset limit,
      StronglySorted id_desc (list_products catalog_db no_filter offset limit))
  /\ (forall p q,
         In p (list_products catalog_db no_filter 0 6) ->
         In q (list_products catalog_db no_filter 6 6) ->
         id p <> id q).
Proof.
  apply (list_products_pages catalog_db no_filter).
  vm_compute. repeat constructor; simpl; intuition discriminate.
Defined.

(** ** Interleaved checkouts *)

(** [create_order] is its three store operations run back to back. *)
Lemma create_order_steps (d : db) (user other : Z) (t2 : task) :
  run_schedule user other [true; true; true] d Start t2
  = (fst (create_order d user), ended (snd (create_order d user)), t2).
Proof.
  unfold create_order. simpl.
  destruct (get_cart d user) as [|l items]; [reflexivity|].
  cbn [step]. unfold insert_order. destruct (storable _); [|reflexivity].
  destruct (insert_rows d user (l :: items) (cart_total (l :: items))).
  reflexivity.
Qed.

(** Counterexample to C4: user 30 holds one cart row of qty 1; when the two
    calls alternate, both read the same snapshot and both insert an order. *)
Lemma interleaved_checkouts_two_orders :
  ~ one_order_per_snapshot
  /\ snd (run_schedule 30 30 alternating shop_db Start Start)
     = Done (Some (2, 499000))%Z
  /\ snd (fst (run_schedule 30 30 alternating shop_db Start Start))
     = Done (Some (1, 499000))%Z
  /\ length (orders (fst (fst (run_schedule 30 30 alternating shop_db Start Start))))
     = 2%nat.
Proof.
  split; [|repeat split; reflexivity].
  intros H.
  specialize (H shop_db
                (fst (fst (run_schedule 30 30 alternating shop_db Start Start)))
                30%Z alternating (Some (1, 499000)%Z) (Some (2, 499000)%Z)).
  assert (G : get_cart shop_db 30 <> []) by (vm_compute; discriminate).
  specialize (H G eq_refl). vm_compute in H. discriminate H.
Qed.

(** C4, amended. [create_order] is three separate store operations, and
    nothing ties them together.  When the two calls do not interleave, a
    non-empty snapshot whose total fits SQLite's INTEGER yields exactly one
    order: the first call returns it, the second finds the cart empty,
    returns None and writes nothing.  When the total does not fit, both
    calls raise OverflowError and no order is written. *)
Theorem sequential_checkouts_one_order (d : db) (user : Z) :
  get_cart d user <> [] ->
  (storable (cart_total (get_cart d user)) = true ->
   exists d' order_id total,
     run_schedule user user [true; true; true; false; false; false] d Start Start
     = (d', Done (Some (order_id, total)), Done None)
     /\ d' = fst (create_order d user)
     /\ create_order d' user = (d', Ok None)
     /\ exists o, orders d' = orders d ++ [o]
                  /\ Orders.id o = order_id /\ Orders.user_id o = user
                  /\ Orders.total_price o = total)
  /\ (storable (cart_total (get_cart d user)) = false ->
      run_schedule user user [true; true; true; false; false; false] d Start Start
      = (d, Failed OverflowError, Failed OverflowError)).
Proof.
  intros Hne.
  change [true; true; true; false; false; false]
    with ([true; true; true] ++ [false; false; false]).
  assert (Happ : forall s1 s2 d0 t1 t2,
             run_schedule user user (s1 ++ s2) d0 t1 t2
             = let '(d1, a, b) := run_schedule user user s1 d0 t1 t2 in
               run_schedule user user s2 d1 a b).
  { induction s1 as [|[|] s1 IH]; intros; simpl.
    - now destruct (run_schedule user user s2 d0 t1 t2) as [[? ?] ?].
    - destruct (step user d0 t1). apply IH.
    - destruct (step user d0 t2). apply IH. }
  rewrite Happ, create_order_steps. split; intros Hs.
  - unfold create_order, insert_order. rewrite Hs.
    destruct (get_cart d user) as [|l items] eqn:G; [congruence|].
    set (its := l :: items).
    unfold insert_rows. cbn [fst snd ended].
    set (oid := next_rowid (orders_seq d) (map Orders.id (orders d))).
    match goal with |- context [clear_cart ?x user] => set (d1 := x) end.
    exists (clear_cart d1 user), oid, (cart_total its).
    assert (E : get_cart (clear_cart d1 user) user = []) by apply get_cart_clear.
    repeat split.
    + cbn [run_schedule step]. rewrite E. reflexivity.
    + rewrite E. reflexivity.
    + eexists. split; [reflexivity|]. repeat split.
  - rewrite (create_order_raises d user Hne Hs). cbn [fst snd ended].
    assert (S1 : step user d Start = (d, HasItems (get_cart d user))).
    { cbn [step]. destruct (get_cart d user); [congruence|reflexivity]. }
    assert (S2 : step user d (HasItems (get_cart d user)) = (d, Failed OverflowError)).
    { cbn [step]. unfold insert_order. now rewrite Hs. }
    cbn [run_schedule]. rewrite S1. cbn [run_schedule]. rewrite S2. reflexivity.
Qed.

Lemma sequential_checkouts_one_order_witness :
  (exists d' order_id total,
     run_schedule 30 30 [true; true; true; false; false; false] shop_db Start Start
     = (d', Done (Some (order_id, total)), Done None)
     /\ d' = fst (create_order shop_db 30)
     /\ create_order d' 30 = (d', Ok None)
     /\ exists o, orders d' = orders shop_db ++ [o]
                  /\ Orders.id o = order_id /\ Orders.user_id o = 30%Z
                  /\ Orders.total_price o = total)
  /\ run_schedule 10 10 [true; true; true; false; false; false] dear_db Start Start
     = (dear_db, Failed OverflowError, Failed OverflowError).
Proof.
  split.
  - apply (sequential_checkouts_one_order shop_db 30).
    + vm_compute. discriminate.
    + reflexivity.
  - apply (sequential_checkouts_one_order dear_db 10).
    + vm_compute. discriminate.
    + reflexivity.
Defined.

(** ** Character classes *)

Lemma in_ranges_expand (t : list (N * N)) (c : char) :
  in_ranges t c = true -> In c (expand t).
Proof.
  unfold in_ranges, expand. intros H.
  apply existsb_exists in H as ([lo hi] & Hin & H).
  apply andb_true_iff in H as [H1 H2]. apply N.leb_le in H1, H2. simpl in H1, H2.
  apply in_flat_map. exists (lo, hi). split; [exact Hin|]. cbn [fst snd].
  apply in_map_iff. exists (N.to_nat (c - lo)). split; [lia|].
  apply in_seq. lia.
Qed.

Lemma ranges_all (t : list (N * N)) (P : char -> bool) :
  forallb P (expand t) = true ->
  forall c, in_ranges t c = true -> P c = true.
Proof.
  intros H c Hc. rewrite forallb_forall in H. apply H, in_ranges_expand, Hc.
Qed.

Lemma decimal_is_digit (c : char) : isdecimal c = true -> isdigit c = true.
Proof. apply (ranges_all decimal_ranges isdigit). vm_compute. reflexivity. Qed.

Lemma decimal_is_alnum (c : char) : isdecimal c = true -> isalnum c = true.
Proof. apply (ranges_all decimal_ranges isalnum). vm_compute. reflexivity. Qed.

Lemma space_not_word (c : char) : isspace c = true -> isword c = false.
Proof.
  intros H. apply negb_true_iff. revert c H.
  apply (ranges_all space_ranges (fun c => negb (isword c))).
  vm_compute. reflexivity.
Qed.

Lemma space_not_decimal (c : char) : isspace c = true -> isdecimal c = false.
Proof.
  intros H. apply negb_true_iff. revert c H.
  apply (ranges_all space_ranges (fun c => negb (isdecimal c))).
  vm_compute. reflexivity.
Qed.

(** [[\w\d_]] is just [\w]. *)
Lemma tag_ch_isword (c : char) : tag_ch c = isword c.
Proof.
  unfold tag_ch, isword.
  destruct (isdecimal c) eqn:D.
  - rewrite (decimal_is_alnum c D). reflexivity.
  - destruct (isalnum c), (c =? 95)%N; reflexivity.
Qed.

(** ** The matcher *)

Lemma after_app (pv : option char) (w1 w2 : str) :
  after pv (w1 ++ w2) = after (after pv w1) w2.
Proof. unfold after. apply fold_left_app. Qed.

Lemma reaches_refl (r : regex) (st : mstate) : reaches r st st.
Proof.
  exists []. repeat split; auto.
Qed.

Lemma reaches_step (r1 r2 r : regex) (a b c : mstate) :
  (has_grp r = false -> has_grp r1 = false /\ has_grp r2 = false) ->
  (forall P, classes_in P r -> classes_in P r1 /\ classes_in P r2) ->
  reaches r1 a b -> reaches r2 b c -> reaches r a c.
Proof.
  intros Hg Hc (w1 & E1 & P1 & G1 & C1) (w2 & E2 & P2 & G2 & C2).
  exists (w1 ++ w2). repeat split.
  - rewrite E1, E2. now rewrite app_assoc.
  - rewrite after_app, <- P1. exact P2.
  - intros H. destruct (Hg H) as [H1 H2]. rewrite (G2 H2). apply (G1 H1).
  - intros P HP. destruct (Hc P HP) as [H1 H2].
    rewrite forallb_app, (C1 P H1), (C2 P H2). reflexivity.
Qed.

Lemma rep_ms_inv (f : mstate -> list mstate) (Q : mstate -> mstate -> Prop) :
  (forall st, Q st st) ->
  (forall a b c, Q a b -> Q b c -> Q a c) ->
  (forall st st', In st' (f st) -> Q st st') ->
  forall hi lo st st', In st' (rep_ms f hi lo st) -> Q st st'.
Proof.
  intros Hrefl Htrans Hf.
  induction hi as [|hi IH]; intros lo st st' H; simpl in H.
  - destruct lo; [|destruct H]. destruct H as [<-|[]]. apply Hrefl.
  - apply in_app_or in H as [H|H].
    + apply in_flat_map in H as (x & Hx & H).
      eapply Htrans; [apply Hf, Hx|]. eapply IH, H.
    + destruct lo; [|destruct H]. destruct H as [<-|[]]. apply Hrefl.
Qed.

Lemma star_inv (p : char -> bool) (s : str) (pv : option char) (g : option str)
      (st' : mstate) :
  In st' (star p pv s g) ->
  exists w, s = w ++ rest st' /\ prev st' = after pv w /\ grp st' = g
            /\ forallb p w = true.
Proof.
  revert pv. induction s as [|c s IH]; intros pv H; simpl in H.
  - destruct H as [<-|[]]. exists []. auto.
  - destruct (p c) eqn:E.
    + apply in_app_or in H as [H|H].
      * destruct (IH _ H) as (w & -> & Hp & Hg & Hw).
        exists (c :: w). simpl. rewrite E. auto.
      * destruct H as [<-|[]]. exists []. auto.
    + destruct H as [<-|[]]. exists []. auto.
Qed.

Lemma ms_reaches (r : regex) : forall st st', In st' (ms r st) -> reaches r st st'.
Proof.
  induction r as [|p|r1 IH1 r2 IH2|r1 IH1 r2 IH2|r0 IH lo hi|p|r0 IH|];
    intros st st' H; simpl in H.
  - destruct H as [<-|[]]. apply reaches_refl.
  - destruct (rest st) as [|c s'] eqn:E; [destruct H|].
    destruct (p c) eqn:Ep; [|destruct H]. destruct H as [<-|[]].
    exists [c]. simpl. rewrite E. repeat split; auto.
    intros P HP. simpl in HP. rewrite (HP c Ep). reflexivity.
  - apply in_flat_map in H as (x & Hx & H).
    apply (reaches_step r1 r2 (Seq r1 r2) st x st'); auto.
    simpl. intros Hg. now apply orb_false_iff in Hg.
  - apply in_app_or in H as [H|H].
    + destruct (IH1 _ _ H) as (w & E & Pv & G & C).
      exists w. repeat split; auto.
      * simpl. intros Hg. apply orb_false_iff in Hg. tauto.
      * intros P HP. apply C, HP.
    + destruct (IH2 _ _ H) as (w & E & Pv & G & C).
      exists w. repeat split; auto.
      * simpl. intros Hg. apply orb_false_iff in Hg. tauto.
      * intros P HP. apply C, HP.
  - refine (rep_ms_inv (ms r0) (reaches (Rep r0 lo hi)) _ _ _ hi lo st st' H).
    + apply reaches_refl.
    + intros a b c. apply reaches_step; auto.
    + intros a b Hab. destruct (IH _ _ Hab) as (w & E & Pv & G & C).
      exists w. repeat split; auto.
  - destruct (star_inv _ _ _ _ _ H) as (w & E & Pv & G & Hw).
    exists w. repeat split; auto.
    intros P HP. simpl in HP. rewrite forallb_forall in *. auto.
  - apply in_map_iff in H as (x & <- & Hx).
    destruct (IH _ _ Hx) as (w & E & Pv & G & C).
    exists w. simpl. repeat split; auto. discriminate.
  - destruct (at_boundary st); [|destruct H]. destruct H as [<-|[]].
    apply reaches_refl.
Qed.

(** ** [parse_hashtags] *)

Lemma take_drop_while (p : char -> bool) (s : str) :
  take_while p s ++ drop_while p s = s.
Proof.
  induction s as [|c s IH]; simpl; [reflexivity|].
  destruct (p c); simpl; [now rewrite IH|reflexivity].
Qed.

Lemma take_while_all (p : char -> bool) (s : str) : forallb p (take_while p s) = true.
Proof.
  induction s as [|c s IH]; simpl; [reflexivity|].
  destruct (p c) eqn:E; simpl; [now rewrite E|reflexivity].
Qed.

Lemma take_while_ext (p q : char -> bool) (s : str) :
  (forall c, p c = q c) -> take_while p s = take_while q s.
Proof.
  intros H. induction s as [|c s IH]; simpl; [reflexivity|].
  rewrite H, IH. reflexivity.
Qed.

Lemma firstn_consumed (w r : str) : firstn (length (w ++ r) - length r) (w ++ r) = w.
Proof.
  rewrite length_app, Nat.add_sub, firstn_app, Nat.sub_diag, firstn_all. simpl.
  apply app_nil_r.
Qed.

Lemma star_hd (p : char -> bool) (s : str) (pv : option char) (g : option str) :
  exists tl,
    star p pv s g = MState (after pv (take_while p s)) (drop_while p s) g :: tl.
Proof.
  revert pv. induction s as [|c s IH]; intros pv; simpl.
  - now exists [].
  - destruct (p c).
    + destruct (IH (Some c)) as (tl & ->). simpl. eauto.
    + now exists [].
Qed.

Lemma ms_lit (a : char) (pv : option char) (c : char) (s : str) (g : option str) :
  ms (lit a) (MState pv (c :: s) g)
  = if (a =? c)%N then [MState (Some c) s g] else [].
Proof. reflexivity. Qed.

Lemma ms_tag_nil (pv : option char) : ms tag_pat (MState pv [] None) = [].
Proof. reflexivity. Qed.

Lemma ms_tag_other (pv : option char) (c : char) (s : str) :
  (c =? HASH)%N = false -> ms tag_pat (MState pv (c :: s) None) = [].
Proof.
  intros H. unfold tag_pat. cbn [ms]. rewrite ms_lit, N.eqb_sym, H. reflexivity.
Qed.

Lemma ms_tag_hash (pv : option char) (s : str) :
  ms tag_pat (MState pv (HASH :: s) None)
  = map (fun st' => MState (prev st') (rest st')
                      (Some (consumed (MState (Some HASH) s None) st')))
        (match s with
         | c :: s' => if tag_ch c then star tag_ch (Some c) s' None else []
         | [] => []
         end).
Proof.
  unfold tag_pat. cbn [ms]. rewrite ms_lit, N.eqb_refl.
  cbn [flat_map]. rewrite app_nil_r. unfold Plus. cbn [ms rest prev grp].
  f_equal. destruct s as [|c s']; [reflexivity|].
  destruct (tag_ch c); [|reflexivity].
  cbn [flat_map ms rest prev grp]. apply app_nil_r.
Qed.

Lemma ms_tag_bare (pv : option char) (s : str) :
  take_while tag_ch s = [] -> ms tag_pat (MState pv (HASH :: s) None) = [].
Proof.
  intros H. rewrite ms_tag_hash. destruct s as [|c s]; [reflexivity|].
  simpl in H. destruct (tag_ch c); [discriminate|reflexivity].
Qed.

Lemma ms_tag_found (pv : option char) (s : str) :
  take_while tag_ch s <> [] ->
  exists m tl,
    ms tag_pat (MState pv (HASH :: s) None) = m :: tl
    /\ grp m = Some (take_while tag_ch s)
    /\ rest m = drop_while tag_ch s.
Proof.
  intros H. rewrite ms_tag_hash. destruct s as [|c s]; [now destruct H|].
  cbn [take_while drop_while] in *. destruct (tag_ch c) eqn:E; [|now destruct H].
  destruct (star_hd tag_ch s (Some c) None) as (tl & ->).
  cbn [map]. eexists _, _. split; [reflexivity|]. split; [|reflexivity].
  unfold consumed. cbn [rest grp]. f_equal.
  pose proof (firstn_consumed (c :: take_while tag_ch s) (drop_while tag_ch s)) as F.
  cbn [app] in F. rewrite take_drop_while in F. exact F.
Qed.

Lemma findall_skip (r : regex) (w s : str) (pv : option char) :
  findall_from r pv (w ++ s) (length w) = findall_from r (after pv w) s 0.
Proof.
  revert pv. induction w as [|c w IH]; intros pv; simpl.
  - destruct s; reflexivity.
  - apply IH.
Qed.

Lemma tag_ch_not_hash (c : char) : tag_ch c = true -> (c =? HASH)%N = false.
Proof.
  intros H. destruct (c =? HASH)%N eqn:E; [|reflexivity].
  apply N.eqb_eq in E. subst c. vm_compute in H. discriminate.
Qed.

Lemma hashtags_spec_skip (w r : str) :
  forallb tag_ch w = true -> hashtags_spec (w ++ r) = hashtags_spec r.
Proof.
  induction w as [|c w IH]; simpl; intros H; [reflexivity|].
  apply andb_true_iff in H as [Hc Hw].
  rewrite (tag_ch_not_hash c Hc). auto.
Qed.

Lemma findall_tags (n : nat) : forall (s : str) (pv : option char),
  (length s <= n)%nat -> findall_from tag_pat pv s 0 = hashtags_spec s.
Proof.
  induction n as [|n IH]; intros s pv Hlen.
  - destruct s; [reflexivity|simpl in Hlen; lia].
  - destruct s as [|c s]; [reflexivity|].
    simpl in Hlen. cbn [findall_from hashtags_spec].
    rewrite (take_while_ext isword tag_ch s) by (intros; symmetry; apply tag_ch_isword).
    destruct (c =? HASH)%N eqn:E.
    + apply N.eqb_eq in E. subst c.
      destruct (take_while tag_ch s) as [|a w] eqn:T.
      * rewrite (ms_tag_bare pv s T). apply IH. lia.
      * assert (Hne : take_while tag_ch s <> []) by (rewrite T; discriminate).
        destruct (ms_tag_found pv s Hne) as (m & tl & -> & G & R).
        rewrite G, R, T. f_equal.
        pose proof (take_drop_while tag_ch s) as TD. rewrite T in TD.
        pose proof (f_equal (@List.length char) TD) as Ls.
        rewrite length_app in Ls.
        assert (L : pred (length (HASH :: s) - length (drop_while tag_ch s))
                    = length (a :: w)) by (cbn [length] in *; lia).
        rewrite L.
        replace (findall_from tag_pat (Some HASH) s (length (a :: w)))
          with (findall_from tag_pat (Some HASH)
                  ((a :: w) ++ drop_while tag_ch s) (length (a :: w)))
          by (now rewrite TD).
        rewrite findall_skip, IH by lia.
        rewrite <- TD at 2. symmetry. apply hashtags_spec_skip.
        rewrite <- T. apply take_while_all.
    + rewrite (ms_tag_other pv c s E). apply IH. lia.
Qed.

Lemma lstrip_id (t : str) : forallb (fun c => negb (isspace c)) t = true -> lstrip t = t.
Proof.
  destruct t as [|c t]; simpl; [reflexivity|].
  intros H. apply andb_true_iff in H as [H _].
  apply negb_true_iff in H. now rewrite H.
Qed.

Lemma strip_id (t : str) : forallb (fun c => negb (isspace c)) t = true -> strip t = t.
Proof.
  intros H. unfold strip, rstrip. rewrite (lstrip_id t H).
  rewrite lstrip_id; [apply rev_involutive|].
  rewrite forallb_forall in *. intros c Hc. apply H. now apply in_rev.
Qed.

Lemma word_not_space (c : char) : isword c = true -> negb (isspace c) = true.
Proof.
  intros H. destruct (isspace c) eqn:E; [|reflexivity].
  rewrite (space_not_word c E) in H. discriminate.
Qed.

(** Every tag is a non-empty run of word characters. *)
Lemma hashtags_spec_words (s : str) :
  Forall (fun t => t <> [] /\ forallb isword t = true) (hashtags_spec s).
Proof.
  induction s as [|c s IH]; simpl; [constructor|].
  destruct (c =? HASH)%N; [|exact IH].
  destruct (take_while isword s) as [|a w] eqn:T; [exact IH|].
  constructor; [|exact IH]. split; [discriminate|].
  rewrite <- T. apply take_while_all.
Qed.

Lemma strip_tags (l : list str) :
  Forall (fun t => t <> [] /\ forallb isword t = true) l ->
  map strip (filter (fun t => negb (is_empty (strip t))) l) = l.
Proof.
  induction 1 as [|t l [Hne Hw] _ IH]; simpl; [reflexivity|].
  assert (S : strip t = t).
  { apply strip_id. rewrite forallb_forall in *.
    intros c Hc. apply word_not_space. auto. }
  rewrite S. destruct t; [congruence|]. simpl. rewrite S, IH. reflexivity.
Qed.

(** C8. For every text, [parse_hashtags] returns the [#]-prefixed runs of
    word characters in the order in which they occur, repeated tags
    included; on "#Shoes #Shoes #Nike" that is Shoes, Shoes, Nike. *)
Theorem parse_hashtags_all_tags :
  (forall text, parse_hashtags text = hashtags_spec text)
  /\ parse_hashtags (u "#Shoes #Shoes #Nike") = [u "Shoes"; u "Shoes"; u "Nike"].
Proof.
  split; [|vm_compute; reflexivity].
  intros text. unfold parse_hashtags.
  destruct text as [|c s]; [reflexivity|]. cbn [is_empty].
  unfold re_findall. rewrite (findall_tags (length (c :: s))) by lia.
  apply strip_tags, hashtags_spec_words.
Qed.

(** ** [parse_price] *)

Lemma ci_cases (a c : char) :
  ci a c = true ->
  c = a \/ c = (a - 32)%N \/ (a = 115%N /\ c = 383%N)
  \/ (a = 105%N /\ (c = 304%N \/ c = 305%N)).
Proof.
  unfold ci. intros H.
  apply orb_true_iff in H as [H|H4].
  1: apply orb_true_iff in H as [H|H3].
  1: apply orb_true_iff in H as [H1|H2].
  - apply N.eqb_eq in H1. tauto.
  - apply N.eqb_eq in H2. tauto.
  - destruct (a =? 115)%N eqn:E; [|discriminate].
    apply N.eqb_eq in E, H3. tauto.
  - destruct (a =? 105)%N eqn:E; [|discriminate].
    apply N.eqb_eq in E.
    apply orb_true_iff in H4 as [H|H]; apply N.eqb_eq in H; tauto.
Qed.

Lemma currency_start_cases (c : char) :
  currency_start c = true -> c = 8381%N \/ c = 1088%N \/ c = 1056%N.
Proof.
  unfold currency_start. intros H. apply orb_true_iff in H as [H|H].
  - apply N.eqb_eq in H. auto.
  - apply ci_cases in H as [H|[H|[[H _]|[H _]]]]; try discriminate; auto.
Qed.

Lemma currency_start_not_amount (c : char) :
  currency_start c = true -> amount_ch c = false.
Proof.
  intros H. apply currency_start_cases in H as [-> | [-> | ->]]; vm_compute; reflexivity.
Qed.

Lemma space_is_amount (c : char) : isspace c = true -> amount_ch c = true.
Proof. intros H. unfold amount_ch. rewrite H. now rewrite orb_true_r. Qed.

Lemma decimal_is_amount (c : char) : isdecimal c = true -> amount_ch c = true.
Proof. intros H. unfold amount_ch. now rewrite H. Qed.

(** *** What a match of the bounded class repetition reads *)

Lemma rep_cls_inv (p : char -> bool) (hi : nat) : forall (lo : nat) (st st' : mstate),
  In st' (rep_ms (ms (Cls p)) hi lo st) ->
  exists w, rest st = w ++ rest st'
            /\ forallb p w = true
            /\ (lo <= length w <= hi)%nat
            /\ prev st' = after (prev st) w
            /\ grp st' = grp st.
Proof.
  induction hi as [|hi IH]; intros lo st st' H; simpl in H.
  - destruct lo; [|destruct H]. destruct H as [<-|[]].
    exists []. simpl. repeat split; auto.
  - apply in_app_or in H as [H|H].
    + apply in_flat_map in H as (x & Hx & H).
      destruct (rest st) as [|c s] eqn:E; [destruct Hx|].
      destruct (p c) eqn:Ep; [|destruct Hx]. destruct Hx as [<-|[]].
      destruct (IH _ _ _ H) as (w & Ew & Pw & Lw & Pv & G).
      cbn [rest prev grp] in *.
      exists (c :: w). simpl. rewrite Ew, Ep, Pw. repeat split; auto; lia.
    + destruct lo; [|destruct H]. destruct H as [<-|[]].
      exists []. simpl. repeat split; auto. lia.
Qed.

Lemma rep_cls_intro (p : char -> bool) (hi : nat) :
  forall (lo : nat) (w s : str) (pv : option char) (g : option str),
  forallb p w = true -> (lo <= length w <= hi)%nat ->
  In (MState (after pv w) s g) (rep_ms (ms (Cls p)) hi lo (MState pv (w ++ s) g)).
Proof.
  induction hi as [|hi IH]; intros lo w s pv g Hp Hl.
  - destruct w; [|simpl in Hl; lia]. destruct lo; [|simpl in Hl; lia].
    simpl. auto.
  - destruct w as [|c w].
    + destruct lo; [|simpl in Hl; lia]. cbn [rep_ms]. apply in_or_app. right.
      simpl. auto.
    + simpl in Hp. apply andb_true_iff in Hp as [Hc Hw].
      cbn [rep_ms]. apply in_or_app. left. apply in_flat_map.
      exists (MState (Some c) (w ++ s) g). split.
      * simpl. rewrite Hc. simpl. auto.
      * apply (IH (pred lo) w s (Some c) g Hw). simpl in Hl. lia.
Qed.

(** *** The amount and the currency *)

Lemma word_ci_rub : word_ci (u "руб")
  = Seq (Cls (ci 1088%N)) (Seq (Cls (ci 1091%N)) (Seq (Cls (ci 1073%N)) Eps)).
Proof. reflexivity. Qed.

Lemma word_ci_r : word_ci (u "р") = Seq (Cls (ci 1088%N)) Eps.
Proof. reflexivity. Qed.

Lemma ms_cls_inv (p : char -> bool) (st st' : mstate) :
  In st' (ms (Cls p) st) ->
  exists c, rest st = c :: rest st' /\ p c = true
            /\ prev st' = Some c /\ grp st' = grp st.
Proof.
  simpl. destruct (rest st) as [|c s]; [intros []|].
  destruct (p c) eqn:E; [|intros []]. intros [<-|[]]. exists c. auto.
Qed.

Lemma ms_seq_inv (a b : regex) (st x : mstate) :
  In x (ms (Seq a b) st) -> exists y, In y (ms a st) /\ In x (ms b y).
Proof.
  change (ms (Seq a b) st) with (flat_map (ms b) (ms a st)).
  intros H. apply in_flat_map in H. exact H.
Qed.

Lemma ms_seq_intro (a b : regex) (st y x : mstate) :
  In y (ms a st) -> In x (ms b y) -> In x (ms (Seq a b) st).
Proof.
  intros Hy Hx. change (ms (Seq a b) st) with (flat_map (ms b) (ms a st)).
  apply in_flat_map. eauto.
Qed.

Lemma ms_alt_inv (a b : regex) (st x : mstate) :
  In x (ms (Alt a b) st) -> In x (ms a st) \/ In x (ms b st).
Proof.
  change (ms (Alt a b) st) with (ms a st ++ ms b st). apply in_app_or.
Qed.

Lemma seq_cls_inv (q : char -> bool) (r : regex) (st x : mstate) :
  In x (ms (Seq (Cls q) r) st) -> exists c s, rest st = c :: s /\ q c = true.
Proof.
  intros H. apply ms_seq_inv in H as (y & Hy & _).
  apply ms_cls_inv in Hy as (c & E & Hc & _). eauto.
Qed.

Lemma currency_inv (st st' : mstate) :
  In st' (ms currency st) ->
  exists c s, rest st = c :: s /\ currency_start c = true.
Proof.
  unfold currency, lit. rewrite word_ci_rub, word_ci_r. intros H.
  unfold currency_start.
  apply ms_alt_inv in H as [H|H]; [|apply ms_alt_inv in H as [H|H];
                                    [|apply ms_alt_inv in H as [H|H]]].
  - apply ms_cls_inv in H as (c & E & Hc & _). exists c, (rest st').
    split; [exact E|]. apply N.eqb_eq in Hc. subst c. reflexivity.
  - apply seq_cls_inv in H as (c & s & E & Hc). exists c, s.
    rewrite Hc, orb_true_r. auto.
  - apply ms_seq_inv in H as (y & Hy & _).
    apply seq_cls_inv in Hy as (c & s & E & Hc). exists c, s.
    rewrite Hc, orb_true_r. auto.
  - apply seq_cls_inv in H as (c & s & E & Hc). exists c, s.
    rewrite Hc, orb_true_r. auto.
Qed.

Lemma opt_space_inv (st st' : mstate) :
  In st' (ms (Opt (Cls isspace)) st) ->
  grp st' = grp st
  /\ (rest st = rest st'
      \/ exists x, rest st = x :: rest st' /\ isspace x = true).
Proof.
  intros H. apply rep_cls_inv in H as (w & E & Pw & Lw & _ & G).
  split; [exact G|].
  destruct w as [|x [|y w]]; [left; exact E| |simpl in Lw; lia].
  right. exists x. simpl in Pw. apply andb_true_iff in Pw as [Px _]. auto.
Qed.

(** What a match of the amount and the currency tail has read. *)
Lemma amount_tail_inv (st m : mstate) :
  In m (ms (Seq amount currency_tail) st) ->
  exists d body sp c post,
    rest st = d :: body ++ sp ++ c :: post
    /\ isdecimal d = true
    /\ forallb amount_ch body = true
    /\ (1 <= length body <= 12)%nat
    /\ forallb isspace sp = true
    /\ currency_start c = true
    /\ grp m = Some (d :: body).
Proof.
  intros H. apply ms_seq_inv in H as (st2 & H2 & H).
  unfold amount in H2.
  change (In st2 (map (fun st' => MState (prev st') (rest st') (Some (consumed st st')))
                      (ms (Seq (Cls isdecimal) (Rep (Cls amount_ch) 1 12)) st))) in H2.
  apply in_map_iff in H2 as (st1 & <- & H1).
  apply ms_seq_inv in H1 as (st0 & H0 & H1).
  apply ms_cls_inv in H0 as (d & Ed & Hd & _).
  apply rep_cls_inv in H1 as (body & Eb & Pb & Lb & _).
  unfold currency_tail in H.
  apply ms_seq_inv in H as (st3 & H3 & H).
  apply opt_space_inv in H3 as (G3 & Hsp). cbn [rest grp] in *.
  apply ms_seq_inv in H as (st4 & H4 & H).
  destruct (ms_reaches currency _ _ H4) as (_ & _ & _ & G4 & _).
  destruct (ms_reaches Bnd _ _ H) as (_ & _ & _ & G5 & _).
  apply currency_inv in H4 as (c & post & Ec & Hc).
  assert (Hg : grp m = Some (d :: body)).
  { rewrite (G5 eq_refl), (G4 eq_refl), G3. f_equal.
    unfold consumed. cbn [rest]. rewrite Ed, Eb.
    apply (firstn_consumed (d :: body) (rest st1)). }
  destruct Hsp as [E3|(x & E3 & Hx)].
  - exists d, body, [], c, post. rewrite Ed, Eb, E3, Ec. repeat split; auto; lia.
  - exists d, body, [x], c, post. rewrite Ed, Eb, E3, Ec. simpl.
    rewrite Hx. repeat split; auto; lia.
Qed.

(** *** No-break spaces *)

Ltac nbsp_case c :=
  unfold nbsp_to_space;
  let E := fresh "E" in
  destruct (c =? NBSP)%N eqn:E;
  [apply N.eqb_eq in E; subst c; vm_compute; reflexivity | reflexivity].

Lemma nbsp_decimal (c : char) : isdecimal (nbsp_to_space c) = isdecimal c.
Proof. nbsp_case c. Qed.

Lemma nbsp_amount (c : char) : amount_ch (nbsp_to_space c) = amount_ch c.
Proof. nbsp_case c. Qed.

Lemma nbsp_space (c : char) : isspace (nbsp_to_space c) = isspace c.
Proof. nbsp_case c. Qed.

Lemma nbsp_linebreak (c : char) : islinebreak (nbsp_to_space c) = islinebreak c.
Proof. nbsp_case c. Qed.

Lemma nbsp_word (c : char) : isword (nbsp_to_space c) = isword c.
Proof. nbsp_case c. Qed.

Lemma nbsp_currency_start (c : char) :
  currency_start (nbsp_to_space c) = currency_start c.
Proof. nbsp_case c. Qed.

Lemma nbsp_ci (a c : char) :
  In a [1088; 1091; 1073]%N -> ci a (nbsp_to_space c) = ci a c.
Proof.
  intros H. unfold nbsp_to_space. destruct (c =? NBSP)%N eqn:E; [|reflexivity].
  apply N.eqb_eq in E. subst c.
  destruct H as [<-|[<-|[<-|[]]]]; vm_compute; reflexivity.
Qed.

Lemma nbsp_cr (c : char) : (nbsp_to_space c =? 13)%N = (c =? 13)%N.
Proof. nbsp_case c. Qed.

Lemma nbsp_lf (c : char) : (nbsp_to_space c =? 10)%N = (c =? 10)%N.
Proof. nbsp_case c. Qed.

Lemma forallb_map_same (p : char -> bool) (f : char -> char) (l : str) :
  (forall c, p (f c) = p c) -> forallb p (map f l) = forallb p l.
Proof. intros H. induction l as [|c l IH]; simpl; [reflexivity|]. now rewrite H, IH. Qed.

Lemma existsb_map_same (p : char -> bool) (f : char -> char) (l : str) :
  (forall c, p (f c) = p c) -> existsb p (map f l) = existsb p l.
Proof. intros H. induction l as [|c l IH]; simpl; [reflexivity|]. now rewrite H, IH. Qed.

Lemma filter_map_same (p : char -> bool) (f : char -> char) (l : str) :
  (forall c, p (f c) = p c) -> (forall c, p c = true -> f c = c) ->
  filter p (map f l) = filter p l.
Proof.
  intros H K. induction l as [|c l IH]; simpl; [reflexivity|].
  rewrite H. destruct (p c) eqn:E; rewrite IH; [now rewrite K|reflexivity].
Qed.

Lemma nbsp_fix_decimal (c : char) : isdecimal c = true -> nbsp_to_space c = c.
Proof.
  intros H. unfold nbsp_to_space. destruct (c =? NBSP)%N eqn:E; [|reflexivity].
  apply N.eqb_eq in E. subst c. vm_compute in H. discriminate.
Qed.

Lemma lstrip_map (s : str) : lstrip (replace_nbsp s) = replace_nbsp (lstrip s).
Proof.
  unfold replace_nbsp. induction s as [|c s IH]; simpl; [reflexivity|].
  rewrite nbsp_space. destruct (isspace c); [exact IH|reflexivity].
Qed.

Lemma strip_map (s : str) : strip (replace_nbsp s) = replace_nbsp (strip s).
Proof.
  unfold strip, rstrip. rewrite lstrip_map. unfold replace_nbsp at 1.
  rewrite <- map_rev. fold (replace_nbsp (rev (lstrip s))).
  rewrite lstrip_map. unfold replace_nbsp. now rewrite map_rev.
Qed.

Lemma splitlines_aux_map (n : nat) : forall (s cur : str),
  (length s <= n)%nat ->
  splitlines_aux (replace_nbsp cur) (replace_nbsp s)
  = map replace_nbsp (splitlines_aux cur s).
Proof.
  unfold replace_nbsp.
  assert (Hnil : forall cur,
             splitlines_aux (map nbsp_to_space cur) []
             = map (map nbsp_to_space) (splitlines_aux cur [])).
  { intros [|x cur]; [reflexivity|].
    cbn [splitlines_aux map]. now rewrite map_rev. }
  induction n as [|n IH]; intros s cur Hn.
  - destruct s; [|simpl in Hn; lia]. apply Hnil.
  - destruct s as [|c s]; [apply Hnil|].
    cbn [length] in Hn. cbn [splitlines_aux map].
    rewrite nbsp_linebreak. destruct (islinebreak c).
    + destruct s as [|d s]; cbn [map].
      * now rewrite map_rev.
      * rewrite nbsp_cr, nbsp_lf. cbn [length] in Hn.
        destruct ((c =? 13)%N && (d =? 10)%N); cbn [map]; rewrite map_rev; f_equal.
        -- apply (IH s []). lia.
        -- apply (IH (d :: s) []). cbn [length]. lia.
    + apply (IH s (c :: cur)). lia.
Qed.

Lemma splitlines_map (s : str) :
  splitlines (replace_nbsp s) = map replace_nbsp (splitlines s).
Proof. apply (splitlines_aux_map (length s) s []). lia. Qed.

Lemma number_like_map (l : str) : number_like (replace_nbsp l) = number_like l.
Proof.
  unfold number_like, replace_nbsp.
  rewrite (forallb_map_same amount_ch _ l nbsp_amount).
  rewrite (existsb_map_same isdecimal _ l nbsp_decimal). reflexivity.
Qed.

(** *** Texts without a price *)

Lemma search_from_inv (r : regex) (s : str) : forall (pv : option char) (m : mstate),
  search_from r pv s = Some m ->
  exists pre pv' s', s = pre ++ s' /\ In m (ms r (MState pv' s' None)).
Proof.
  induction s as [|c s IH]; intros pv m H; simpl in H.
  - destruct (ms r (MState pv [] None)) as [|x l] eqn:E; [discriminate|].
    injection H as <-. exists [], pv, []. rewrite E. simpl. auto.
  - destruct (ms r (MState pv (c :: s) None)) as [|x l] eqn:E.
    + destruct (IH _ _ H) as (pre & pv' & s' & -> & Hin).
      exists (c :: pre), pv', s'. auto.
    + injection H as <-. exists [], pv, (c :: s). rewrite E. simpl. auto.
Qed.

Lemma ci_letter_facts (a c : char) :
  In a [1094; 1077; 1085; 1072; 1088; 1091; 1073]%N -> ci a c = true ->
  isdecimal c = false /\ isword c = true.
Proof.
  intros Ha H. apply ci_cases in H.
  repeat (destruct Ha as [<-|Ha]; [
    destruct H as [->|[->|[[H _]|[H _]]]]; try discriminate;
    split; vm_compute; reflexivity |]).
  destruct Ha.
Qed.

(** *** Currency-marked numbers *)

Lemma nbsp_ruble (c : char) :
  (nbsp_to_space c =? RUBLE_SIGN)%N = (c =? RUBLE_SIGN)%N.
Proof. nbsp_case c. Qed.

Lemma ends_word_nbsp (Q : str) : ends_word (map nbsp_to_space Q) = ends_word Q.
Proof. destruct Q as [|c Q]; simpl; [reflexivity|]. now rewrite nbsp_word. Qed.

Lemma token_here_map (s : str) : token_here (replace_nbsp s) = token_here s.
Proof.
  unfold replace_nbsp. destruct s as [|c r]; [reflexivity|].
  cbn [map token_here]. rewrite nbsp_ruble, ends_word_nbsp.
  rewrite (nbsp_ci 1088%N c) by (simpl; tauto).
  destruct r as [|b [|c3 r']]; try reflexivity.
  cbn [map]. rewrite ends_word_nbsp.
  rewrite (nbsp_ci 1091%N b), (nbsp_ci 1073%N c3) by (simpl; tauto).
  reflexivity.
Qed.

Lemma token_after_run_map (s : str) :
  token_after_run (replace_nbsp s) = token_after_run s.
Proof.
  induction s as [|c s IH].
  - reflexivity.
  - change (replace_nbsp (c :: s)) with (nbsp_to_space c :: replace_nbsp s).
    cbn [token_after_run].
    change (nbsp_to_space c :: replace_nbsp s) with (replace_nbsp (c :: s)).
    now rewrite token_here_map, nbsp_amount, IH.
Qed.

Lemma marked_within_map (n : nat) : forall t,
  marked_within n (replace_nbsp t) = marked_within n t.
Proof.
  induction n as [|n IH]; intros [|c s]; try reflexivity.
  change (replace_nbsp (c :: s)) with (nbsp_to_space c :: replace_nbsp s).
  cbn [marked_within]. now rewrite nbsp_decimal, token_after_run_map, IH.
Qed.

Lemma price_marked_map (t : str) : price_marked (replace_nbsp t) = price_marked t.
Proof.
  unfold price_marked. rewrite marked_within_map. unfold replace_nbsp.
  now rewrite length_map.
Qed.

Lemma run_token (run s : str) :
  forallb amount_ch run = true -> token_here s = true ->
  token_after_run (run ++ s) = true.
Proof.
  induction run as [|c run IH]; intros Hr Hs.
  - destruct s as [|x s]; [discriminate|].
    cbn [app token_after_run]. now rewrite Hs.
  - cbn [forallb] in Hr. apply andb_true_iff in Hr as [Hc Hr].
    cbn [app token_after_run]. rewrite Hc, (IH Hr Hs). apply orb_true_r.
Qed.

Lemma marked_intro (pre : str) : forall (n : nat) (d : char) (s : str),
  (length pre < n)%nat -> isdecimal d = true -> token_after_run s = true ->
  marked_within n (pre ++ d :: s) = true.
Proof.
  induction pre as [|x pre IH]; intros n d s Hn Hd Hs.
  - destruct n as [|n]; [lia|]. cbn [app marked_within]. now rewrite Hd, Hs.
  - destruct n as [|n]; [simpl in Hn; lia|]. cbn [app marked_within].
    rewrite (IH n d s); [apply orb_true_r| |exact Hd|exact Hs].
    simpl in Hn. lia.
Qed.

(** A match of the currency and the word boundary starts at a token. *)
Lemma currency_bnd_token (st m : mstate) :
  In m (ms (Seq currency Bnd) st) -> token_here (rest st) = true.
Proof.
  intros H. apply ms_seq_inv in H as (y & Hy & H).
  assert (B : forall c, prev y = Some c -> isword c = true ->
                        ends_word (rest y) = true).
  { intros c Pv W. cbn [ms] in H. unfold at_boundary, word_before in H.
    rewrite Pv, W in H. unfold word_after in H.
    destruct (rest y) as [|x r]; [reflexivity|]. cbn [ends_word].
    destruct (isword x); [destruct H|reflexivity]. }
  unfold currency, lit in Hy. rewrite word_ci_rub, word_ci_r in Hy.
  apply ms_alt_inv in Hy as [Hy|Hy]; [|apply ms_alt_inv in Hy as [Hy|Hy];
                                        [|apply ms_alt_inv in Hy as [Hy|Hy]]].
  - apply ms_cls_inv in Hy as (c & E & Hc & _).
    rewrite E. cbn [token_here]. rewrite N.eqb_sym, Hc. reflexivity.
  - apply ms_seq_inv in Hy as (y1 & H1 & Hy).
    apply ms_seq_inv in Hy as (y2 & H2 & Hy).
    apply ms_seq_inv in Hy as (y3 & H3 & Hy).
    cbn [ms] in Hy. destruct Hy as [<-|[]].
    apply ms_cls_inv in H1 as (a & E1 & Ha & _).
    apply ms_cls_inv in H2 as (b & E2 & Hb & _).
    apply ms_cls_inv in H3 as (c & E3 & Hc & Pv & _).
    rewrite E1, E2, E3. cbn [token_here]. rewrite Ha, Hb, Hc.
    rewrite (B c Pv); [now rewrite !orb_true_r|].
    apply (ci_letter_facts 1073%N c); [simpl; tauto|exact Hc].
  - apply ms_seq_inv in Hy as (z & Hz & Hdot).
    apply ms_seq_inv in Hz as (y1 & H1 & Hz).
    apply ms_seq_inv in Hz as (y2 & H2 & Hz).
    apply ms_seq_inv in Hz as (y3 & H3 & Hz).
    cbn [ms] in Hz. destruct Hz as [<-|[]].
    apply ms_cls_inv in H1 as (a & E1 & Ha & _).
    apply ms_cls_inv in H2 as (b & E2 & Hb & _).
    apply ms_cls_inv in H3 as (c & E3 & Hc & _).
    apply ms_cls_inv in Hdot as (x & E4 & Hx & _).
    apply N.eqb_eq in Hx. subst x.
    rewrite E1, E2, E3, E4. cbn [token_here ends_word]. rewrite Ha, Hb, Hc.
    change (isword 46%N) with false. now rewrite !orb_true_r.
  - apply ms_seq_inv in Hy as (y1 & H1 & Hy).
    cbn [ms] in Hy. destruct Hy as [<-|[]].
    apply ms_cls_inv in H1 as (a & E1 & Ha & Pv & _).
    rewrite E1. cbn [token_here]. rewrite Ha.
    rewrite (B a Pv); [now rewrite orb_true_r|].
    apply (ci_letter_facts 1088%N a); [simpl; tauto|exact Ha].
Qed.

(** A match of the amount and the currency tail starts at a marked number:
    the run between the digit and the token is the amount and at most one
    more blank. *)
Lemma amount_tail_token (st m : mstate) :
  In m (ms (Seq amount currency_tail) st) ->
  exists d run s,
    rest st = d :: run ++ s
    /\ isdecimal d = true /\ forallb amount_ch run = true
    /\ token_here s = true.
Proof.
  intros H. apply ms_seq_inv in H as (st2 & H2 & H).
  unfold amount in H2.
  change (In st2 (map (fun st' => MState (prev st') (rest st') (Some (consumed st st')))
                      (ms (Seq (Cls isdecimal) (Rep (Cls amount_ch) 1 12)) st))) in H2.
  apply in_map_iff in H2 as (st1 & <- & H1).
  apply ms_seq_inv in H1 as (st0 & H0 & H1).
  apply ms_cls_inv in H0 as (d & Ed & Hd & _).
  apply rep_cls_inv in H1 as (body & Eb & Pb & _).
  unfold currency_tail in H.
  apply ms_seq_inv in H as (st3 & H3 & H).
  apply opt_space_inv in H3 as (_ & Hsp). cbn [rest] in *.
  apply currency_bnd_token in H.
  destruct Hsp as [E3|(x & E3 & Hx)].
  - exists d, body, (rest st3). rewrite Ed, Eb, E3. auto.
  - exists d, (body ++ [x]), (rest st3). rewrite Ed, Eb, E3, <- app_assoc.
    repeat split; auto. rewrite forallb_app, Pb. cbn [forallb].
    now rewrite (space_is_amount x Hx).
Qed.

Lemma price_pat_marked (r : regex) (st m : mstate) (pre : str) :
  r = price_pat1 \/ r = price_pat2 ->
  In m (ms r st) -> price_marked (pre ++ rest st) = true.
Proof.
  intros Hr H.
  assert (K : exists st1, reaches (match r with Seq a _ => a | _ => Eps end) st st1
                          /\ In m (ms (Seq amount currency_tail) st1)).
  { destruct Hr as [-> | ->]; apply ms_seq_inv in H as (st1 & H1 & H);
      exists st1; split; auto; apply ms_reaches, H1. }
  destruct K as (st1 & (w & E & _) & K).
  apply amount_tail_token in K as (d & run & s & E1 & Hd & Hrun & Hs).
  rewrite E, E1, app_assoc. unfold price_marked.
  apply marked_intro; [|exact Hd|apply run_token; assumption].
  rewrite !length_app. cbn [length]. lia.
Qed.

Lemma search_unmarked (r : regex) (t : str) :
  r = price_pat1 \/ r = price_pat2 ->
  price_marked t = false -> re_search r t = None.
Proof.
  intros Hr Hn. unfold re_search.
  destruct (search_from r None t) as [m|] eqn:E; [|reflexivity].
  apply search_from_inv in E as (pre & pv & s & -> & H).
  pose proof (price_pat_marked r _ m pre Hr H) as K. cbn [rest] in K.
  congruence.
Qed.

(** *** Number lines *)

Lemma ms_star_inv (p : char -> bool) (st st' : mstate) :
  In st' (ms (Star p) st) ->
  exists w, rest st = w ++ rest st' /\ forallb p w = true.
Proof.
  intros H. change (In st' (star p (prev st) (rest st) (grp st))) in H.
  apply star_inv in H as (w & E & _ & _ & Hw). eauto.
Qed.

Lemma lstrip_spaces (w s : str) : forallb isspace w = true -> lstrip (w ++ s) = lstrip s.
Proof.
  induction w as [|c w IH]; intros H; [reflexivity|].
  cbn [forallb] in H. apply andb_true_iff in H as [Hc Hw].
  cbn [app lstrip]. rewrite Hc. auto.
Qed.

Lemma lstrip_length (s : str) : (length (lstrip s) <= length s)%nat.
Proof.
  induction s as [|c s IH]; [reflexivity|]. cbn [lstrip].
  destruct (isspace c); simpl in *; lia.
Qed.

Lemma rstrip_map (s : str) : rstrip (replace_nbsp s) = replace_nbsp (rstrip s).
Proof.
  unfold rstrip. unfold replace_nbsp at 1.
  rewrite <- map_rev. fold (replace_nbsp (rev s)).
  rewrite lstrip_map. unfold replace_nbsp. now rewrite map_rev.
Qed.

Lemma number_line_map (l : str) : number_line (replace_nbsp l) = number_line l.
Proof.
  unfold number_line. rewrite lstrip_map.
  destruct (lstrip l) as [|d rest]; [reflexivity|].
  unfold replace_nbsp at 1. cbn [map]. fold (replace_nbsp rest).
  rewrite nbsp_decimal, rstrip_map. unfold replace_nbsp.
  rewrite (forallb_map_same amount_ch _ rest nbsp_amount), length_map.
  destruct rest; reflexivity.
Qed.

Lemma fullmatch_number_line (l : str) (m : mstate) :
  re_fullmatch price_line_pat l = Some m -> number_line l = true.
Proof.
  unfold re_fullmatch. intros H. apply find_some in H as [H R].
  destruct (rest m) eqn:Rm; [|discriminate].
  unfold price_line_pat in H.
  apply ms_seq_inv in H as (s1 & H1 & H).
  apply ms_seq_inv in H as (s2 & H2 & H).
  apply ms_seq_inv in H as (s3 & H3 & H).
  apply ms_star_inv in H1 as (w0 & E0 & W0).
  apply ms_cls_inv in H2 as (d & Ed & Hd & _).
  apply rep_cls_inv in H3 as (body & Eb & Pb & Lb & _).
  apply ms_star_inv in H as (w2 & E2 & W2).
  cbn [rest] in E0. rewrite Rm, app_nil_r in E2.
  unfold number_line. rewrite E0, Ed, Eb, E2, (lstrip_spaces w0 _ W0).
  assert (Sd : isspace d = false).
  { destruct (isspace d) eqn:S; [|reflexivity].
    rewrite (space_not_decimal d S) in Hd. discriminate. }
  cbn [lstrip]. rewrite Sd, Hd.
  assert (A : forallb amount_ch (body ++ w2) = true).
  { rewrite forallb_app, Pb. cbn [andb]. apply forallb_forall.
    intros x Hx. apply space_is_amount.
    rewrite forallb_forall in W2. auto. }
  rewrite A.
  assert (N : is_empty (body ++ w2) = false).
  { destruct body; [simpl in Lb; lia|reflexivity]. }
  rewrite N. cbn [andb negb]. apply Nat.leb_le.
  unfold rstrip. rewrite rev_app_distr, length_rev.
  rewrite lstrip_spaces.
  - pose proof (lstrip_length (rev body)) as L. rewrite length_rev in L. lia.
  - rewrite forallb_forall in *. intros x Hx. apply W2. now apply in_rev.
Qed.

Lemma price_lines_none (lines : list str) :
  existsb (fun line => number_line (strip line)) lines = false ->
  price_by_lines (map replace_nbsp lines) = Ok None.
Proof.
  induction lines as [|l lines IH]; simpl; intros H; [reflexivity|].
  apply orb_false_iff in H as [Hl H].
  destruct (re_fullmatch price_line_pat (strip (replace_nbsp l))) as [m|] eqn:E.
  - apply fullmatch_number_line in E.
    rewrite strip_map, number_line_map in E. congruence.
  - auto.
Qed.

Lemma fullmatch_number_like (l : str) (m : mstate) :
  re_fullmatch price_line_pat l = Some m -> number_like l = true.
Proof.
  unfold re_fullmatch. intros H. apply find_some in H as [H R].
  destruct (rest m) eqn:Rm; [|discriminate].
  unfold number_like. apply andb_true_iff. split.
  - destruct (ms_reaches _ _ _ H) as (w & E & _ & _ & C).
    cbn [rest] in E. rewrite Rm, app_nil_r in E. subst w.
    apply C. simpl. repeat split; intros c Hc;
      auto using space_is_amount, decimal_is_amount.
  - unfold price_line_pat in H. apply ms_seq_inv in H as (st1 & H1 & H).
    destruct (ms_reaches _ _ _ H1) as (w & E & _).
    apply seq_cls_inv in H as (d & s & Ed & Hd).
    cbn [rest] in E. rewrite E, Ed, existsb_app. simpl.
    rewrite Hd. now rewrite orb_true_r.
Qed.

Lemma price_by_lines_none (lines : list str) :
  existsb (fun line => number_like (strip line)) lines = false ->
  price_by_lines (map replace_nbsp lines) = Ok None.
Proof.
  induction lines as [|l lines IH]; simpl; intros H; [reflexivity|].
  apply orb_false_iff in H as [Hl H].
  destruct (re_fullmatch price_line_pat (strip (replace_nbsp l))) as [m|] eqn:E.
  - apply fullmatch_number_like in E.
    rewrite strip_map, number_like_map in E. congruence.
  - auto.
Qed.

Lemma parse_price_unmarked (text : str) :
  price_marked text = false -> has_price_line text = false ->
  parse_price text = Ok None.
Proof.
  intros Hm Hl. unfold parse_price. destruct (is_empty text); [reflexivity|].
  assert (Hm' : price_marked (replace_nbsp text) = false)
    by now rewrite price_marked_map.
  cbn [price_by_patterns].
  rewrite (search_unmarked price_pat1 _ (or_introl eq_refl) Hm').
  rewrite (search_unmarked price_pat2 _ (or_intror eq_refl) Hm').
  cbn [bind]. rewrite splitlines_map. apply price_lines_none, Hl.
Qed.

(** *** Texts with a price in rubles *)

Lemma split_first (q : char -> bool) (l1 : str) : forall (l2 r1 r2 : str) (x y : char),
  l1 ++ x :: r1 = l2 ++ y :: r2 ->
  existsb q l1 = false -> existsb q l2 = false ->
  q x = true -> q y = true ->
  l1 = l2 /\ x = y /\ r1 = r2.
Proof.
  induction l1 as [|a l1 IH]; intros l2 r1 r2 x y E H1 H2 Hx Hy.
  - destruct l2 as [|b l2]; simpl in E.
    + injection E as -> ->. auto.
    + injection E as -> _. simpl in H2. rewrite Hx in H2. discriminate.
  - destruct l2 as [|b l2]; simpl in E.
    + injection E as -> _. simpl in H1. rewrite Hy in H1. discriminate.
    + injection E as -> E. simpl in H1, H2.
      apply orb_false_iff in H1 as [_ H1]. apply orb_false_iff in H2 as [_ H2].
      destruct (IH _ _ _ _ _ E H1 H2 Hx Hy) as (-> & -> & ->). auto.
Qed.

Lemma forallb_existsb_neg (p : char -> bool) (l : str) :
  forallb p l = true -> existsb (fun c => negb (p c)) l = false.
Proof.
  induction l as [|c l IH]; simpl; [reflexivity|]. intros H.
  apply andb_true_iff in H as [Hc Hl]. now rewrite Hc, IH.
Qed.

Lemma existsb_forallb_neg (p : char -> bool) (l : str) :
  forallb (fun c => negb (p c)) l = true -> existsb p l = false.
Proof.
  induction l as [|c l IH]; simpl; [reflexivity|]. intros H.
  apply andb_true_iff in H as [Hc Hl]. apply negb_true_iff in Hc.
  now rewrite Hc, IH.
Qed.

Lemma word_ci_cena : word_ci (u "цена")
  = Seq (Cls (ci 1094%N)) (Seq (Cls (ci 1077%N))
      (Seq (Cls (ci 1085%N)) (Seq (Cls (ci 1072%N)) Eps))).
Proof. reflexivity. Qed.

(** The optional prefix reads no digit. *)
Lemma price_prefix_inv (st st1 : mstate) :
  In st1 (ms (Opt (Seq (word_ci (u "цена")) (Star colon_or_space))) st) ->
  exists w, rest st = w ++ rest st1 /\ existsb isdecimal w = false.
Proof.
  intros H. destruct (ms_reaches _ _ _ H) as (w & E & _ & _ & C).
  exists w. split; [exact E|]. apply existsb_forallb_neg, C.
  rewrite word_ci_cena. simpl.
  assert (L : forall a, In a [1094; 1077; 1085; 1072]%N ->
                        forall c, ci a c = true -> negb (isdecimal c) = true).
  { intros a Ha c Hc. apply negb_true_iff.
    apply (ci_letter_facts a c); [|exact Hc]. simpl in *. tauto. }
  repeat split; try (apply L; simpl; tauto).
  intros c Hc. apply negb_true_iff. unfold colon_or_space in Hc.
  apply orb_true_iff in Hc as [Hc|Hc].
  - apply N.eqb_eq in Hc. subst c. vm_compute. reflexivity.
  - apply space_not_decimal, Hc.
Qed.

(** Whatever way the first pattern matches at or before the amount, the
    digits of group 1 are the digits of the amount. *)
Lemma pat1_group (st m : mstate) (P body C Q : str) (d c0 : char) :
  rest st = P ++ d :: body ++ (c0 :: C) ++ Q ->
  existsb isdecimal P = false -> isdecimal d = true ->
  forallb amount_ch body = true -> currency_start c0 = true ->
  In m (ms price_pat1 st) ->
  exists g, grp m = Some g /\ sub_nondigits g = sub_nondigits (d :: body).
Proof.
  intros E HP Hd Hb Hc0 H. unfold price_pat1 in H.
  apply ms_seq_inv in H as (st1 & H1 & H).
  apply price_prefix_inv in H1 as (w & Ew & Hw).
  apply amount_tail_inv in H
    as (d' & body' & sp & c & post & E1 & Hd' & Hb' & _ & Hsp & Hc & G).
  rewrite E1, E in Ew.
  destruct (split_first isdecimal _ _ _ _ _ _ Ew HP Hw Hd Hd') as (_ & <- & Eb).
  assert (Hsp' : forallb amount_ch sp = true).
  { rewrite forallb_forall in *. intros x Hx. apply space_is_amount. auto. }
  simpl in Eb. rewrite app_assoc in Eb.
  apply (split_first (fun x => negb (amount_ch x))) in Eb as (-> & _ & _).
  - exists (d :: body'). split; [exact G|].
    unfold sub_nondigits. simpl. rewrite Hd. f_equal.
    rewrite filter_app.
    assert (F : filter isdecimal sp = []).
    { apply filter_none. rewrite forallb_forall in Hsp.
      intros x Hx. apply space_not_decimal. auto. }
    rewrite F. now rewrite app_nil_r.
  - now apply forallb_existsb_neg.
  - apply forallb_existsb_neg. now rewrite forallb_app, Hb', Hsp'.
  - now rewrite (currency_start_not_amount c0 Hc0).
  - now rewrite (currency_start_not_amount c Hc).
Qed.

Lemma first_digit (P : str) :
  existsb isdecimal P = false
  \/ exists w x P2,
       P = w ++ x :: P2 /\ existsb isdecimal w = false /\ isdecimal x = true.
Proof.
  induction P as [|c P IH]; [now left|].
  destruct (isdecimal c) eqn:E.
  - right. exists [], c, P. auto.
  - destruct IH as [H|(w & x & P2 & -> & Hw & Hx)].
    + left. simpl. now rewrite E.
    + right. exists (c :: w), x, P2. simpl. rewrite E. auto.
Qed.

(** The same when digits stand before the amount, as long as no
    currency-marked number starts there. *)
Lemma pat1_group_far (st m : mstate) (P body C Q : str) (d c0 : char) :
  rest st = P ++ d :: body ++ (c0 :: C) ++ Q ->
  marked_within (length P) (P ++ d :: body ++ (c0 :: C) ++ Q) = false ->
  isdecimal d = true ->
  forallb amount_ch body = true -> currency_start c0 = true ->
  In m (ms price_pat1 st) ->
  exists g, grp m = Some g /\ sub_nondigits g = sub_nondigits (d :: body).
Proof.
  intros E HP Hd Hb Hc0 H.
  destruct (first_digit P) as [Hn|(w' & x & P2 & -> & Hw' & Hx)].
  - apply (pat1_group st m P body C Q d c0 E Hn Hd Hb Hc0 H).
  - exfalso. unfold price_pat1 in H.
    apply ms_seq_inv in H as (st1 & H1 & H).
    apply price_prefix_inv in H1 as (w & Ew & Hw).
    apply amount_tail_token in H as (d' & run & s & E1 & Hd' & Hrun & Hs).
    rewrite E1, E, <- app_assoc in Ew. cbn [app] in Ew.
    apply (split_first isdecimal) in Ew as (_ & _ & Er); [|assumption..].
    assert (T : token_after_run (run ++ s) = true)
      by (apply run_token; assumption).
    rewrite <- Er in T.
    rewrite <- app_assoc in HP. cbn [app] in HP.
    rewrite (marked_intro w' (length (w' ++ x :: P2)) x _) in HP;
      [discriminate| |exact Hx|exact T].
    rewrite length_app. simpl. lia.
Qed.

Lemma opt_skip (r : regex) (st : mstate) : In st (ms (Opt r) st).
Proof.
  unfold Opt. change (ms (Rep r 0 1) st) with (rep_ms (ms r) 1 0 st).
  cbn [rep_ms]. apply in_or_app. right. simpl. auto.
Qed.

Lemma ms_alt_l (a b : regex) (st x : mstate) :
  In x (ms a st) -> In x (ms (Alt a b) st).
Proof. intros H. change (ms (Alt a b) st) with (ms a st ++ ms b st). apply in_or_app. auto. Qed.

Lemma ms_alt_r (a b : regex) (st x : mstate) :
  In x (ms b st) -> In x (ms (Alt a b) st).
Proof. intros H. change (ms (Alt a b) st) with (ms a st ++ ms b st). apply in_or_app. auto. Qed.

Lemma ms_cls_intro (p : char -> bool) (pv : option char) (c : char) (s : str)
      (g : option str) :
  p c = true -> In (MState (Some c) s g) (ms (Cls p) (MState pv (c :: s) g)).
Proof. intros H. simpl. rewrite H. simpl. auto. Qed.

(** A token [руб] or [р] that ends a word is matched by the currency and
    the word boundary. *)
Lemma currency_bnd_intro (pv : option char) (C Q : str) (g : option str) :
  rub_token C = true -> ends_word Q = true ->
  exists m, In m (ms (Seq currency Bnd) (MState pv (C ++ Q) g)).
Proof.
  intros HC HQ.
  assert (B : forall x, isword x = true ->
                        In (MState (Some x) Q g) (ms Bnd (MState (Some x) Q g))).
  { intros x Hx. simpl. unfold at_boundary, word_before, word_after. cbn [prev rest].
    rewrite Hx. destruct Q as [|y Q]; simpl; [auto|].
    simpl in HQ. apply negb_true_iff in HQ. rewrite HQ. simpl. auto. }
  destruct C as [|a [|b [|c [|? ?]]]]; simpl in HC; try discriminate.
  - exists (MState (Some a) Q g).
    apply (ms_seq_intro currency Bnd _ (MState (Some a) Q g)).
    + unfold currency. apply ms_alt_r, ms_alt_r, ms_alt_r. rewrite word_ci_r.
      apply (ms_seq_intro _ Eps _ (MState (Some a) Q g)).
      * apply ms_cls_intro, HC.
      * simpl. auto.
    + apply B. apply (ci_letter_facts 1088%N a); [simpl; tauto|exact HC].
  - apply andb_true_iff in HC as [HC Hc]. apply andb_true_iff in HC as [Ha Hb].
    exists (MState (Some c) Q g).
    apply (ms_seq_intro currency Bnd _ (MState (Some c) Q g)).
    + unfold currency. apply ms_alt_r, ms_alt_l. rewrite word_ci_rub.
      apply (ms_seq_intro _ _ _ (MState (Some a) (b :: c :: Q) g));
        [apply ms_cls_intro, Ha|].
      apply (ms_seq_intro _ _ _ (MState (Some b) (c :: Q) g));
        [apply ms_cls_intro, Hb|].
      apply (ms_seq_intro _ _ _ (MState (Some c) Q g));
        [apply ms_cls_intro, Hc|].
      simpl. auto.
    + apply B. apply (ci_letter_facts 1073%N c); [simpl; tauto|exact Hc].
Qed.

Lemma pat1_intro (pv : option char) (body C Q : str) (d : char) :
  isdecimal d = true -> forallb amount_ch body = true ->
  (1 <= length body <= 12)%nat ->
  rub_token C = true -> ends_word Q = true ->
  exists m, In m (ms price_pat1 (MState pv (d :: body ++ C ++ Q) None)).
Proof.
  intros Hd Hb Hl HC HQ.
  set (st := MState pv (d :: body ++ C ++ Q) None).
  set (st1 := MState (after (Some d) body) (C ++ Q) None).
  set (st2 := MState (prev st1) (rest st1) (Some (consumed st st1))).
  destruct (currency_bnd_intro (prev st1) C Q (Some (consumed st st1)) HC HQ)
    as (m & Hm).
  exists m. unfold price_pat1.
  apply (ms_seq_intro _ _ _ st); [apply opt_skip|].
  apply (ms_seq_intro _ _ _ st2).
  - unfold amount.
    change (In st2 (map (fun st' => MState (prev st') (rest st') (Some (consumed st st')))
                        (ms (Seq (Cls isdecimal) (Rep (Cls amount_ch) 1 12)) st))).
    apply (in_map (fun st' => MState (prev st') (rest st') (Some (consumed st st')))
                  _ st1).
    apply (ms_seq_intro _ _ _ (MState (Some d) (body ++ C ++ Q) None)).
    + apply ms_cls_intro, Hd.
    + apply (rep_cls_intro amount_ch 12 1 body (C ++ Q) (Some d) None Hb Hl).
  - unfold currency_tail.
    apply (ms_seq_intro _ _ _ st2); [apply opt_skip|exact Hm].
Qed.

Lemma rub_token_start (C : str) :
  rub_token C = true -> exists c0 C', C = c0 :: C' /\ currency_start c0 = true.
Proof.
  unfold currency_start.
  destruct C as [|a [|b [|c [|? ?]]]]; simpl; intros H; try discriminate.
  - exists a, []. rewrite H, orb_true_r. auto.
  - apply andb_true_iff in H as [H _]. apply andb_true_iff in H as [H _].
    exists a, [b; c]. rewrite H, orb_true_r. auto.
Qed.

Lemma search_hit (r : regex) (pv : option char) (s : str) (m0 : mstate) :
  In m0 (ms r (MState pv s None)) ->
  exists m, search_from r pv s = Some m /\ In m (ms r (MState pv s None)).
Proof.
  intros H. destruct s as [|x s]; cbn [search_from];
    (destruct (ms r _) as [|m l]; [now simpl in H|]);
    exists m; simpl; auto.
Qed.

Lemma search_cons (r : regex) (pv : option char) (x : char) (s : str) :
  search_from r pv (x :: s) = search_from r (Some x) s
  \/ exists m, search_from r pv (x :: s) = Some m
               /\ In m (ms r (MState pv (x :: s) None)).
Proof.
  cbn [search_from]. destruct (ms r _) as [|m l]; [left; reflexivity|].
  right. exists m. simpl. auto.
Qed.

Lemma search_pat1 (P : str) : forall (pv : option char) (body C Q : str) (d : char),
  marked_within (length P) (P ++ d :: body ++ C ++ Q) = false ->
  isdecimal d = true ->
  forallb amount_ch body = true -> (1 <= length body <= 12)%nat ->
  rub_token C = true -> ends_word Q = true ->
  exists m g,
    search_from price_pat1 pv (P ++ d :: body ++ C ++ Q) = Some m
    /\ grp m = Some g /\ sub_nondigits g = sub_nondigits (d :: body).
Proof.
  induction P as [|x P IH]; intros pv body C Q d HP Hd Hb Hl HC HQ.
  - destruct (pat1_intro pv body C Q d Hd Hb Hl HC HQ) as (m0 & H0).
    destruct (search_hit _ _ _ _ H0) as (m & S & Hin).
    destruct (rub_token_start C HC) as (c0 & C' & -> & Hc0).
    destruct (pat1_group (MState pv (d :: body ++ (c0 :: C') ++ Q) None)
                m [] body C' Q d c0 eq_refl eq_refl Hd Hb Hc0 Hin) as (g & G & D).
    exists m, g. auto.
  - destruct (search_cons price_pat1 pv x (P ++ d :: body ++ C ++ Q))
      as [E|(m & S & Hin)].
    + cbn [length app marked_within] in HP. apply orb_false_iff in HP as [_ HP].
      destruct (IH (Some x) body C Q d HP Hd Hb Hl HC HQ) as (m & g & S & G).
      exists m, g. cbn [app]. rewrite E. auto.
    + destruct (rub_token_start C HC) as (c0 & C' & -> & Hc0).
      destruct (pat1_group_far (MState pv (x :: P ++ d :: body ++ (c0 :: C') ++ Q) None)
                  m (x :: P) body C' Q d c0 eq_refl HP Hd Hb Hc0 Hin)
        as (g & G & D).
      exists m, g. auto.
Qed.

Lemma py_int_digits (g : str) :
  sub_nondigits g <> [] ->
  str_isdigit (sub_nondigits g) = true
  /\ py_int (sub_nondigits g) = Ok (digits_value (sub_nondigits g)).
Proof.
  intros Hne.
  assert (A : forallb isdecimal (sub_nondigits g) = true).
  { apply forallb_forall. intros c Hc. unfold sub_nondigits in Hc.
    now apply filter_In in Hc. }
  unfold str_isdigit, py_int.
  destruct (sub_nondigits g) as [|c l] eqn:E; [congruence|].
  rewrite A. split; [|reflexivity].
  rewrite forallb_forall in *. intros x Hx. apply decimal_is_digit. auto.
Qed.

Lemma rub_token_map (C : str) : rub_token (replace_nbsp C) = rub_token C.
Proof.
  unfold replace_nbsp.
  destruct C as [|a [|b [|c [|? ?]]]]; simpl; try reflexivity.
  - apply nbsp_ci. simpl. tauto.
  - rewrite !nbsp_ci by (simpl; tauto). reflexivity.
Qed.

Lemma ends_word_map (Q : str) : ends_word (replace_nbsp Q) = ends_word Q.
Proof. destruct Q as [|c Q]; simpl; [reflexivity|]. now rewrite nbsp_word. Qed.

Lemma parse_price_rub (pre body cur post : str) (d : char) :
  marked_within (length pre) (pre ++ (d :: body) ++ cur ++ post) = false ->
  isdecimal d = true ->
  forallb amount_ch body = true -> (1 <= length body <= 12)%nat ->
  rub_token cur = true -> ends_word post = true ->
  parse_price (pre ++ (d :: body) ++ cur ++ post)
  = Ok (Some (digits_value (sub_nondigits (d :: body)) * 100)%Z).
Proof.
  intros HP Hd Hb Hl HC HQ. unfold parse_price.
  assert (Hne : is_empty (pre ++ (d :: body) ++ cur ++ post) = false)
    by (destruct pre; reflexivity).
  rewrite Hne.
  assert (HP' : marked_within (length (replace_nbsp pre))
                  (replace_nbsp (pre ++ (d :: body) ++ cur ++ post)) = false).
  { rewrite marked_within_map. unfold replace_nbsp. now rewrite length_map. }
  revert HP'. unfold replace_nbsp.
  rewrite !map_app. cbn [map app].
  fold (replace_nbsp pre) (replace_nbsp body) (replace_nbsp cur) (replace_nbsp post).
  intros HP'.
  destruct (search_pat1 (replace_nbsp pre) None (replace_nbsp body)
              (replace_nbsp cur) (replace_nbsp post) (nbsp_to_space d))
    as (m & g & S & G & D).
  - exact HP'.
  - now rewrite nbsp_decimal.
  - unfold replace_nbsp. now rewrite (forallb_map_same amount_ch _ body nbsp_amount).
  - unfold replace_nbsp. now rewrite length_map.
  - now rewrite rub_token_map.
  - now rewrite ends_word_map.
  - cbn [price_by_patterns]. unfold re_search. rewrite S.
    unfold group1. rewrite G. cbn [bind].
    assert (D' : sub_nondigits g = sub_nondigits (d :: body)).
    { rewrite D. change (nbsp_to_space d :: replace_nbsp body)
        with (replace_nbsp (d :: body)).
      unfold sub_nondigits, replace_nbsp.
      apply filter_map_same; [apply nbsp_decimal|apply nbsp_fix_decimal]. }
    assert (Hg : sub_nondigits g <> []).
    { rewrite D'. unfold sub_nondigits. simpl. rewrite Hd. discriminate. }
    destruct (py_int_digits g Hg) as [I1 I2].
    rewrite I1, I2. cbn [bind]. now rewrite D'.
Qed.

(** C5, amended.  A currency-marked number is a decimal digit followed,
    over digits, blanks and dots only, by a currency token: the ruble
    sign, or [руб] or [р] in either letter case ending a word.
    (1) When no currency-marked number starts before it, an amount (a
    digit, then 1 to 12 digits, blanks or dots) that runs up to a token
    [руб] or [р] ending a word makes [parse_price] return 100 times the
    number written by the digits of the amount.  (2) When a text holds no
    currency-marked number and no line that, blanks around it apart, is a
    digit followed by 1 to 12 digits, blanks or dots, [parse_price] returns
    None. *)
Theorem parse_price_amounts :
  (forall (pre body cur post : str) (d : char),
      marked_within (length pre) (pre ++ (d :: body) ++ cur ++ post) = false ->
      isdecimal d = true ->
      forallb amount_ch body = true -> (1 <= length body <= 12)%nat ->
      rub_token cur = true -> ends_word post = true ->
      parse_price (pre ++ (d :: body) ++ cur ++ post)
      = Ok (Some (digits_value (sub_nondigits (d :: body)) * 100)%Z))
  /\ (forall text : str,
         price_marked text = false -> has_price_line text = false ->
         parse_price text = Ok None).
Proof.
  split.
  - intros. now apply parse_price_rub.
  - intros. now apply parse_price_unmarked.
Qed.

Lemma parse_price_amounts_witness :
  parse_price (u "Nike Air Max 90
Цена: 4990 руб") = Ok (Some 499000%Z)
  /\ parse_price (u "2 рубашки") = Ok None.
Proof.
  split.
  - apply (proj1 parse_price_amounts (u "Nike Air Max 90
Цена: ") (u "990 ") (u "руб") [] 52%N).
    + vm_compute. reflexivity.
    + reflexivity.
    + reflexivity.
    + simpl. lia.
    + reflexivity.
    + reflexivity.
  - apply (proj2 parse_price_amounts (u "2 рубашки")).
    + vm_compute. reflexivity.
    + vm_compute. reflexivity.
Defined.

(** Counterexamples to C5 as stated: an amount directly followed by the
    ruble sign at the end of the text, a one-digit amount directly followed
    by [руб], an amount of fourteen digits, an amount that comes after
    another marked one, and an amount followed by [руб] inside a longer
    word. *)
Lemma parse_price_currency_counterexample :
  parse_price (u "4990₽") = Ok None
  /\ parse_price (u "4990₽") <> Ok (Some 499000%Z)
  /\ parse_price (u "5руб") = Ok None
  /\ parse_price (u "12345678901234 руб") = Ok (Some 234567890123400%Z)
  /\ parse_price (u "10 р. скидка, 4990 руб") = Ok (Some 1000%Z)
  /\ parse_price (u "4990 рублей") = Ok None.
Proof.
  repeat split; try (vm_compute; reflexivity).
  vm_compute. discriminate.
Qed.

(** ** The scenario of the specification *)

(** C6, amended.  The post of the scenario is normalized to a product of
    category Jackets, brand Nike and sizes "S, M, L", whose title is the
    first line of the text, "#Jackets #Nike". *)
Theorem scenario_product :
  exists p,
    product_from_forward scenario_msg = Ok p
    /\ category p = u "Jackets"
    /\ brand p = u "Nike"
    /\ title p = u "#Jackets #Nike"
    /\ sizes p = Some (u "S, M, L").
Proof.
  eexists. split; [vm_compute; reflexivity|].
  repeat split; vm_compute; reflexivity.
Qed.

(** Counterexample to C6 as stated: the product is not the one the
    scenario names (title "Winter Jacket", price 499000). *)
Lemma scenario_product_counterexample :
  ~ exists p,
      product_from_forward scenario_msg = Ok p
      /\ category p = u "Jackets"
      /\ brand p = u "Nike"
      /\ title p = u "Winter Jacket"
      /\ price p = 499000%Z
      /\ sizes p = Some (u "S, M, L").
Proof.
  intros (p & H & _ & _ & T & _).
  vm_compute in H. injection H as <-. vm_compute in T. discriminate T.
Qed.

(** On the text of the scenario the price pattern finds nothing: the ruble
    sign is followed by a line break, where [\b] does not hold. *)
Lemma scenario_price : parse_price scenario_text = Ok None.
Proof. vm_compute. reflexivity. Qed.

(** ** Totality of the extractors *)

Lemma grp_kept (r : regex) : forall st st',
  In st' (ms r st) -> grp st <> None -> grp st' <> None.
Proof.
  induction r as [|p|r1 IH1 r2 IH2|r1 IH1 r2 IH2|r0 IH lo hi|p|r0 IH|];
    intros st st' H Hg.
  - destruct H as [<-|[]]. exact Hg.
  - apply ms_cls_inv in H as (_ & _ & _ & _ & ->). exact Hg.
  - apply ms_seq_inv in H as (y & Hy & H). eauto.
  - apply ms_alt_inv in H as [H|H]; eauto.
  - revert Hg.
    refine (rep_ms_inv (ms r0) (fun a b => grp a <> None -> grp b <> None)
              _ _ _ hi lo st st' H); auto.
  - apply star_inv in H as (_ & _ & _ & -> & _). exact Hg.
  - change (In st' (map (fun x => MState (prev x) (rest x) (Some (consumed st x)))
                        (ms r0 st))) in H.
    apply in_map_iff in H as (x & <- & _). discriminate.
  - simpl in H. destruct (at_boundary st); [|destruct H].
    destruct H as [<-|[]]. exact Hg.
Qed.

Lemma grp_set (r : regex) : forall st st',
  sets_grp r = true -> In st' (ms r st) -> grp st' <> None.
Proof.
  induction r as [|p|r1 IH1 r2 IH2|r1 IH1 r2 IH2|r0 IH lo hi|p|r0 IH|];
    intros st st' Hs H; simpl in Hs; try discriminate.
  - apply ms_seq_inv in H as (y & Hy & H).
    destruct (sets_grp r1) eqn:E1.
    + eapply grp_kept; [exact H|]. eapply IH1; eauto.
    + eapply IH2; eauto.
  - apply andb_true_iff in Hs as [H1 H2].
    apply ms_alt_inv in H as [H|H]; eauto.
  - change (In st' (map (fun x => MState (prev x) (rest x) (Some (consumed st x)))
                        (ms r0 st))) in H.
    apply in_map_iff in H as (x & <- & _). discriminate.
Qed.

Lemma search_group (r : regex) (t : str) (m : mstate) :
  sets_grp r = true -> re_search r t = Some m -> exists g, group1 m = Ok g.
Proof.
  intros Hs H. apply search_from_inv in H as (_ & pv & s & _ & H).
  apply (grp_set r _ _ Hs) in H. unfold group1.
  destruct (grp m) as [g|]; [eauto|congruence].
Qed.

Lemma digits_then_int (g : str) :
  exists r : option Z,
    (if str_isdigit (sub_nondigits g)
     then n <- py_int (sub_nondigits g) ;; Ok (Some (n * 100)%Z)
     else Ok None) = Ok r.
Proof.
  destruct (str_isdigit (sub_nondigits g)) eqn:E; [|eauto].
  assert (Hne : sub_nondigits g <> []).
  { intros N. rewrite N in E. discriminate. }
  destruct (py_int_digits g Hne) as [_ ->]. simpl. eauto.
Qed.

Lemma price_by_patterns_total (pats : list regex) (t : str) :
  forallb sets_grp pats = true -> exists r, price_by_patterns pats t = Ok r.
Proof.
  induction pats as [|pat pats IH]; simpl; intros H; [eauto|].
  apply andb_true_iff in H as [Hp H]. specialize (IH H).
  destruct (re_search pat t) as [m|] eqn:E; [|exact IH].
  destruct (search_group pat t m Hp E) as (g & ->). cbn [bind].
  destruct (digits_then_int g) as (r & Hr).
  destruct (str_isdigit (sub_nondigits g)); [eauto|exact IH].
Qed.

Lemma price_by_lines_total (lines : list str) :
  exists r, price_by_lines lines = Ok r.
Proof.
  induction lines as [|l lines IH]; simpl; [eauto|].
  destruct (re_fullmatch price_line_pat (strip l)); [|exact IH].
  destruct (digits_then_int l) as (r & Hr).
  destruct (str_isdigit (sub_nondigits l)); [eauto|exact IH].
Qed.

(** [parse_price] never raises. *)
Lemma parse_price_total (text : str) : exists r, parse_price text = Ok r.
Proof.
  unfold parse_price. destruct (is_empty text); [eauto|].
  destruct (price_by_patterns_total [price_pat1; price_pat2] (replace_nbsp text))
    as (r & ->); [reflexivity|].
  cbn [bind]. destruct r; [eauto|apply price_by_lines_total].
Qed.

(** [parse_sizes] never raises. *)
Lemma parse_sizes_total (text : str) : exists r, parse_sizes text = Ok r.
Proof.
  unfold parse_sizes. destruct (is_empty text); [eauto|].
  destruct (re_search sizes_pat (replace_nbsp text)) as [m|] eqn:E; [|eauto].
  destruct (search_group sizes_pat _ m eq_refl E) as (g & ->). simpl. eauto.
Qed.

Lemma lstrip_blank (s : str) : forallb isspace s = true -> lstrip s = [].
Proof.
  induction s as [|c s IH]; simpl; [reflexivity|]. intros H.
  apply andb_true_iff in H as [Hc Hs]. rewrite Hc. auto.
Qed.

(** [first_line] raises on every non-empty text of whitespace only. *)
Lemma first_line_blank (text : str) :
  text <> [] -> forallb isspace text = true -> first_line text = Raise IndexError.
Proof.
  intros Hne Hb. unfold first_line. destruct text as [|c s]; [congruence|].
  cbn [is_empty]. unfold strip. rewrite (lstrip_blank _ Hb). reflexivity.
Qed.

Lemma lstrip_keeps (s : str) :
  existsb (fun c => negb (isspace c)) s = true ->
  existsb (fun c => negb (isspace c)) (lstrip s) = true.
Proof.
  induction s as [|c s IH]; simpl; [discriminate|].
  destruct (isspace c) eqn:E; simpl; [exact IH|]. now rewrite E.
Qed.

Lemma existsb_rev_char (p : char -> bool) (s : str) : existsb p (rev s) = existsb p s.
Proof.
  induction s as [|c s IH]; simpl; [reflexivity|].
  rewrite existsb_app, IH. simpl. rewrite orb_false_r. apply orb_comm.
Qed.

Lemma splitlines_aux_nonempty (n : nat) : forall (s cur : str),
  (length s <= n)%nat -> s <> [] \/ cur <> [] -> splitlines_aux cur s <> [].
Proof.
  induction n as [|n IH]; intros s cur Hn H.
  - destruct s; [|simpl in Hn; lia]. destruct H as [H|H]; [congruence|].
    simpl. destruct cur; [congruence|discriminate].
  - destruct s as [|c s].
    + destruct H as [H|H]; [congruence|]. simpl. destruct cur; [congruence|discriminate].
    + cbn [splitlines_aux length] in *. destruct (islinebreak c).
      * destruct s as [|d s]; [discriminate|].
        destruct ((c =? 13)%N && (d =? 10)%N); discriminate.
      * apply IH; [lia|]. right. discriminate.
Qed.

(** On every other text [first_line] returns. *)
Lemma first_line_returns (text : str) :
  text = [] \/ existsb (fun c => negb (isspace c)) text = true ->
  exists l, first_line text = Ok l.
Proof.
  intros [->|H]; [exists (u "Товар"); reflexivity|]. unfold first_line.
  destruct text as [|c s]; [simpl in H; discriminate|]. cbn [is_empty].
  assert (Hs : strip (c :: s) <> []).
  { unfold strip, rstrip. apply lstrip_keeps in H.
    rewrite <- existsb_rev_char in H. apply lstrip_keeps in H.
    rewrite <- existsb_rev_char in H.
    intros N. rewrite N in H. discriminate. }
  pose proof (splitlines_aux_nonempty (length (strip (c :: s))) (strip (c :: s)) []
                (le_n _) (or_introl Hs)) as Hl.
  unfold splitlines. destruct (splitlines_aux [] (strip (c :: s))); [congruence|eauto].
Qed.

(** C7, on the code: [first_line] raises IndexError on a text that is a
    single blank, and on one that is a single line feed, where
    [parse_price] and [parse_sizes] return None and [parse_hashtags]
    returns no tag. *)
Theorem first_line_blank_raises :
  first_line [SPACE] = Raise IndexError
  /\ first_line [LF] = Raise IndexError
  /\ parse_price [SPACE] = Ok None
  /\ parse_sizes [SPACE] = Ok None
  /\ parse_hashtags [SPACE] = [].
Proof. repeat split; vm_compute; reflexivity. Qed.

(** * Further properties of the code *)

(** ** Invariants of the store *)

Lemma run_ops_ind (P : db -> Prop) :
  P empty_db -> (forall d o, P d -> P (apply_op d o)) ->
  forall ops, P (run_ops ops empty_db).
Proof.
  intros H0 Hs ops. unfold run_ops.
  assert (G : forall d, P d -> P (fold_left apply_op ops d)).
  { induction ops as [|o ops IH]; intros d Hd; simpl; auto. }
  apply G, H0.
Qed.

Lemma add_product_products (d : db) (p : Product) :
  products (fst (add_product d p))
  = if existsb (source_conflict p) (products d) then products d
    else products d ++ [with_id p (next_rowid (products_seq d) (map id (products d)))].
Proof.
  unfold add_product.
  destruct (existsb (source_conflict p) (products d)); simpl.
  - destruct (find _ _); reflexivity.
  - destruct (negb _); [reflexivity|]. destruct (find _ _); reflexivity.
Qed.

Lemma add_product_seq (d : db) (p : Product) :
  products_seq (fst (add_product d p))
  = next_rowid (products_seq d) (map id (products d)).
Proof.
  unfold add_product.
  destruct (existsb (source_conflict p) (products d)); simpl.
  - destruct (find _ _); reflexivity.
  - destruct (negb _); [reflexivity|]. destruct (find _ _); reflexivity.
Qed.

Lemma add_product_frame (d : db) (p : Product) :
  cart (fst (add_product d p)) = cart d
  /\ orders (fst (add_product d p)) = orders d
  /\ orders_seq (fst (add_product d p)) = orders_seq d
  /\ order_items (fst (add_product d p)) = order_items d.
Proof.
  unfold add_product.
  destruct (existsb (source_conflict p) (products d)); simpl.
  - destruct (find _ _); auto.
  - destruct (negb _); [auto|]. destruct (find _ _); auto.
Qed.

Lemma create_order_frame (d : db) (user : Z) :
  products (fst (create_order d user)) = products d
  /\ products_seq (fst (create_order d user)) = products_seq d.
Proof.
  destruct (create_order_store d user) as [-> | ->]; simpl; auto.
Qed.

Lemma insert_order_frame (d : db) (u : Z) (items : list cart_line) (t : Z) :
  products (fst (insert_order d u items t)) = products d
  /\ products_seq (fst (insert_order d u items t)) = products_seq d
  /\ cart (fst (insert_order d u items t)) = cart d.
Proof.
  destruct (insert_order_store d u items t) as [-> | ->]; simpl; auto.
Qed.

Lemma apply_op_products (d : db) (o : op) :
  (forall p, o <> AddProduct p) ->
  products (apply_op d o) = products d
  /\ products_seq (apply_op d o) = products_seq d.
Proof.
  intros H. destruct o as [p|u pid|u|u|u items]; simpl.
  - now destruct (H p).
  - unfold add_to_cart. destruct (existsb _ _); simpl; auto.
  - simpl. auto.
  - apply create_order_frame.
  - destruct (insert_order_frame d u items (cart_total items)) as (A & B & _).
    auto.
Qed.

Lemma catalog_ok_step (d : db) (o : op) : catalog_ok d -> catalog_ok (apply_op d o).
Proof.
  intros (Hnd & Hid & Hsrc).
  assert (Hother : (forall p, o <> AddProduct p) -> catalog_ok (apply_op d o)).
  { intros H. destruct (apply_op_products d o H) as [E1 E2].
    unfold catalog_ok. rewrite E1, E2. auto. }
  destruct o as [p|u pid|u|u|u items]; try (apply Hother; discriminate).
  simpl.
  pose proof (next_rowid_pos (products_seq d) (map id (products d))) as Hpos.
  assert (Hge : (products_seq d < next_rowid (products_seq d) (map id (products d)))%Z)
    by (unfold next_rowid; lia).
  split; [apply add_product_keeps_ids, Hnd|].
  split; [|apply add_product_keeps_unique, Hsrc].
  rewrite add_product_seq, add_product_products. intros q Hq.
  destruct (existsb (source_conflict p) (products d)).
  - specialize (Hid q Hq). lia.
  - apply in_app_or in Hq as [Hq|[<-|[]]].
    + specialize (Hid q Hq). lia.
    + simpl. lia.
Qed.

(** X1. Whatever sequence of writes has been applied to the empty store,
    product ids are distinct and at least 1, and no two rows carry the same
    non-null source pair. *)
Theorem catalog_always_ok (ops : list op) : catalog_ok (run_ops ops empty_db).
Proof.
  apply run_ops_ind.
  - split; [constructor|]. split; [intros p []|]. intros c m. simpl. lia.
  - intros d o. apply catalog_ok_step.
Qed.

Lemma NoDup_map_filter_gen {A B} (f : A -> B) (g : A -> bool) (l : list A) :
  NoDup (map f l) -> NoDup (map f (filter g l)).
Proof.
  induction l as [|a l IH]; simpl; intros H; [constructor|].
  inversion H as [|? ? Hn Hnd]; subst.
  destruct (g a); simpl; [|auto].
  constructor; [|auto].
  intros Hin. apply Hn. apply in_map_iff in Hin as (x & Hx & Hin).
  apply filter_In in Hin as [Hin _]. rewrite <- Hx. now apply in_map.
Qed.

Lemma same_key_cart_key (u pid : Z) (c : Cart.row) :
  same_key u pid c = true <-> cart_key c = (u, pid).
Proof.
  unfold same_key, cart_key. rewrite andb_true_iff, !Z.eqb_eq.
  split; [intros [-> ->]; reflexivity|intros H; injection H; auto].
Qed.

Lemma add_to_cart_cart (d : db) (u pid : Z) :
  cart (add_to_cart d u pid)
  = if existsb (same_key u pid) (cart d) then
      map (fun c => if same_key u pid c
                    then {| Cart.user_id := u; Cart.product_id := pid;
                            Cart.qty := (Cart.qty c + 1)%Z |}
                    else c) (cart d)
    else cart d ++ [{| Cart.user_id := u; Cart.product_id := pid; Cart.qty := 1 |}].
Proof. unfold add_to_cart. destruct (existsb _ _); reflexivity. Qed.

Lemma cart_ok_add (d : db) (u pid : Z) : cart_ok d -> cart_ok (add_to_cart d u pid).
Proof.
  intros [Hnd Hq]. unfold cart_ok. rewrite add_to_cart_cart.
  destruct (existsb (same_key u pid) (cart d)) eqn:E.
  - split.
    + rewrite map_map.
      erewrite map_ext; [exact Hnd|]. intros c. simpl.
      destruct (same_key u pid c) eqn:K; [|reflexivity].
      apply same_key_cart_key in K. now rewrite K.
    + intros c Hc. apply in_map_iff in Hc as (c0 & <- & Hc0).
      specialize (Hq c0 Hc0). destruct (same_key u pid c0); simpl; lia.
  - split.
    + rewrite map_app. simpl. apply NoDup_app; [exact Hnd|repeat constructor; auto|].
      intros k Hk [<-|[]]. apply in_map_iff in Hk as (c & Hc & Hin).
      apply same_key_cart_key in Hc.
      assert (X : existsb (same_key u pid) (cart d) = true)
        by (apply existsb_exists; eauto).
      congruence.
    + intros c Hc. apply in_app_or in Hc as [Hc|[<-|[]]]; [auto|simpl; lia].
Qed.

Lemma cart_ok_clear (d : db) (u : Z) : cart_ok d -> cart_ok (clear_cart d u).
Proof.
  intros [Hnd Hq]. unfold cart_ok, clear_cart. simpl. split.
  - now apply NoDup_map_filter_gen.
  - intros c Hc. apply filter_In in Hc as [Hc _]. auto.
Qed.

Lemma cart_ok_same_cart (d d' : db) : cart d' = cart d -> cart_ok d -> cart_ok d'.
Proof. unfold cart_ok. intros ->. auto. Qed.

Lemma cart_ok_step (d : db) (o : op) : cart_ok d -> cart_ok (apply_op d o).
Proof.
  intros H. destruct o as [p|u pid|u|u|u items]; simpl.
  - apply (cart_ok_same_cart d); [apply add_product_frame|exact H].
  - now apply cart_ok_add.
  - now apply cart_ok_clear.
  - destruct (create_order_store d u) as [-> | ->]; [exact H|].
    apply cart_ok_clear. apply (cart_ok_same_cart d); [reflexivity|exact H].
  - apply (cart_ok_same_cart d); [apply insert_order_frame|exact H].
Qed.

(** X2. Whatever sequence of writes has been applied to the empty store,
    the cart holds at most one row per (user, product) and every quantity
    is at least 1. *)
Theorem cart_always_ok (ops : list op) : cart_ok (run_ops ops empty_db).
Proof.
  apply run_ops_ind.
  - split; [constructor|intros c []].
  - intros d o. apply cart_ok_step.
Qed.

Lemma items_sum_same (d d' : db) (oid : Z) :
  order_items d' = order_items d -> items_sum d' oid = items_sum d oid.
Proof. unfold items_sum, items_of_order. now intros ->. Qed.

Lemma orders_ok_same (d d' : db) :
  orders d' = orders d -> orders_seq d' = orders_seq d ->
  order_items d' = order_items d -> orders_ok d -> orders_ok d'.
Proof.
  intros E1 E2 E3 (A & B & C & D). unfold orders_ok. rewrite E1, E2, E3.
  split; [exact A|]. split; [exact B|]. split; [exact C|].
  intros x Hx. rewrite (items_sum_same d d' _ E3). auto.
Qed.

Lemma orders_ok_rows (d : db) (u : Z) (items : list cart_line) :
  orders_ok d -> orders_ok (fst (insert_rows d u items (cart_total items))).
Proof.
  intros (A & B & C & D).
  assert (Hb : items_bounded d).
  { intros r Hr. specialize (C r Hr). lia. }
  pose proof (insert_rows_items_sum d u items (cart_total items) Hb) as Hsum.
  unfold insert_rows in *. cbn [fst snd] in *.
  set (oid := next_rowid (orders_seq d) (map Orders.id (orders d))) in *.
  assert (Hgt : (orders_seq d < oid)%Z) by (unfold oid, next_rowid; lia).
  unfold orders_ok. cbn [orders orders_seq order_items].
  split; [|split; [|split]].
  - rewrite map_app. simpl. apply NoDup_app; [exact A|repeat constructor; auto|].
    intros x Hx [<-|[]]. apply in_map_iff in Hx as (o & Ho & Hin).
    specialize (B o Hin). lia.
  - intros o Ho. apply in_app_or in Ho as [Ho|[<-|[]]].
    + specialize (B o Ho). lia.
    + simpl. pose proof (next_rowid_pos (orders_seq d) (map Orders.id (orders d))).
      fold oid in H. lia.
  - intros r Hr. apply in_app_or in Hr as [Hr|Hr].
    + specialize (C r Hr). lia.
    + apply in_map_iff in Hr as (x & <- & _). destruct x as [[[? ?] ?] ?]. simpl. lia.
  - intros o Ho. apply in_app_or in Ho as [Ho|[<-|[]]].
    + rewrite <- (D o Ho). unfold items_sum, items_of_order. cbn [order_items].
      rewrite filter_app. rewrite (@filter_none _ _ (map (item_row oid) items)).
      * now rewrite app_nil_r.
      * intros r Hr. apply in_map_iff in Hr as (x & <- & _).
        destruct x as [[[? ?] ?] ?]. simpl. apply Z.eqb_neq.
        specialize (B o Ho). lia.
    + exact Hsum.
Qed.

Lemma orders_ok_insert (d : db) (u : Z) (items : list cart_line) :
  orders_ok d -> orders_ok (fst (insert_order d u items (cart_total items))).
Proof.
  intros H.
  destruct (insert_order_store d u items (cart_total items)) as [-> | ->];
    [exact H|now apply orders_ok_rows].
Qed.

Lemma orders_ok_step (d : db) (o : op) : orders_ok d -> orders_ok (apply_op d o).
Proof.
  intros H. destruct o as [p|u pid|u|u|u items]; simpl.
  - destruct (add_product_frame d p) as (_ & E1 & E2 & E3).
    now apply (orders_ok_same d).
  - apply (orders_ok_same d); try exact H;
      unfold add_to_cart; destruct (existsb _ _); reflexivity.
  - now apply (orders_ok_same d).
  - destruct (create_order_store d u) as [-> | ->]; [exact H|].
    pose proof (orders_ok_rows d u (get_cart d u) H) as K.
    now apply (orders_ok_same (fst (insert_rows d u (get_cart d u)
                                               (cart_total (get_cart d u))))).
  - now apply orders_ok_insert.
Qed.

(** X3. Whatever sequence of writes has been applied to the empty store,
    also when the committed write of a checkout uses a snapshot read
    earlier, order ids are distinct and the order_items rows of every order
    sum (price times qty) to that order's total_price. *)
Theorem orders_always_ok (ops : list op) : orders_ok (run_ops ops empty_db).
Proof.
  apply run_ops_ind.
  - split; [constructor|]. split; [intros o []|]. split; [intros r []|intros o []].
  - intros d o. apply orders_ok_step.
Qed.

(** ** Catalog: insert and lookup *)

Lemma find_by_id (l : list Product) (row : Product) :
  NoDup (map id l) -> In row l ->
  find (fun p => (id p =? id row)%Z) l = Some row.
Proof.
  induction l as [|a l IH]; simpl; intros Hnd Hin; [destruct Hin|].
  inversion Hnd as [|? ? Hn Hnd']; subst.
  destruct Hin as [->|Hin].
  - now rewrite Z.eqb_refl.
  - destruct (id a =? id row)%Z eqn:E; [|auto].
    apply Z.eqb_eq in E. exfalso. apply Hn. rewrite E. now apply in_map.
Qed.

Lemma find_app_none {A} (f : A -> bool) (l1 l2 : list A) :
  (forall a, In a l1 -> f a = false) -> find f (l1 ++ l2) = find f l2.
Proof.
  induction l1 as [|a l1 IH]; simpl; intros H; [reflexivity|].
  rewrite (H a) by auto. auto.
Qed.

Lemma source_conflict_is (p q : Product) :
  source_conflict p q = true ->
  source_is (source_chat_id p) (source_msg_id p) q = true.
Proof.
  unfold source_conflict, source_is, opt_Z_eqb.
  destruct (source_chat_id p), (source_msg_id p),
    (source_chat_id q), (source_msg_id q); try discriminate.
  intros H. apply andb_true_iff in H as [H1 H2].
  rewrite Z.eqb_sym, H1, Z.eqb_sym, H2. reflexivity.
Qed.

Lemma is_source_conflict (p q : Product) :
  source_chat_id p <> None -> source_msg_id p <> None ->
  source_is (source_chat_id p) (source_msg_id p) q = true ->
  source_conflict p q = true.
Proof.
  unfold source_conflict, source_is, opt_Z_eqb.
  destruct (source_chat_id p), (source_msg_id p); try congruence.
  destruct (source_chat_id q), (source_msg_id q); simpl; intros _ _ H;
    rewrite ?andb_false_r in H; try discriminate.
  apply andb_true_iff in H as [H1 H2].
  rewrite Z.eqb_sym, H1, Z.eqb_sym, H2. reflexivity.
Qed.

Lemma source_conflict_sourced (p q : Product) :
  source_conflict p q = true ->
  source_chat_id p <> None /\ source_msg_id p <> None.
Proof.
  unfold source_conflict.
  destruct (source_chat_id p), (source_msg_id p); try discriminate.
  split; discriminate.
Qed.

(** X4. On a store that satisfies the catalog invariant, [add_product]
    returns an id of at least 1 under which [get_product_by_id] finds a row
    afterwards: the product just stored (with that id) when no row had its
    source pair, and otherwise the row that already had the pair. *)
Theorem add_product_then_get (d : db) (p : Product) :
  catalog_ok d ->
  exists row,
    get_product_by_id (fst (add_product d p)) (snd (add_product d p)) = Some row
    /\ id row = snd (add_product d p)
    /\ (1 <= snd (add_product d p))%Z
    /\ (existsb (source_conflict p) (products d) = false ->
        row = with_id p (snd (add_product d p)))
    /\ (existsb (source_conflict p) (products d) = true ->
        In row (products d) /\ source_conflict p row = true).
Proof.
  intros (Hnd & Hid & Hsrc). unfold get_product_by_id.
  rewrite add_product_products. unfold add_product.
  set (n := next_rowid (products_seq d) (map id (products d))).
  destruct (existsb (source_conflict p) (products d)) eqn:E; cbn [negb Z.eqb].
  - cbn [fst snd].
    apply existsb_exists in E as (q & Hq & Hc).
    destruct (find (source_is (source_chat_id p) (source_msg_id p)) (products d))
      as [row|] eqn:F.
    + apply find_some in F as [Hin Hs]. cbn [snd].
      exists row. rewrite (find_by_id _ row Hnd Hin).
      destruct (source_conflict_sourced p q Hc) as [H1 H2].
      split; [reflexivity|]. split; [reflexivity|].
      split; [specialize (Hid row Hin); lia|].
      split; [discriminate|]. intros _. split; [exact Hin|].
      apply is_source_conflict; auto.
    + exfalso. pose proof (find_none _ _ F q Hq) as N.
      rewrite (source_conflict_is p q Hc) in N. discriminate.
  - pose proof (next_rowid_pos (products_seq d) (map id (products d))) as Hpos.
    fold n in Hpos.
    assert (Hz : (n =? 0)%Z = false) by (apply Z.eqb_neq; lia).
    rewrite Hz. cbn [negb fst snd].
    exists (with_id p n). rewrite find_app_none.
    + split; [cbn [find id with_id]; now rewrite Z.eqb_refl|].
      split; [reflexivity|]. split; [exact Hpos|].
      split; [reflexivity|discriminate].
    + intros a Ha. apply Z.eqb_neq.
      pose proof (next_rowid_fresh (products_seq d) (map id (products d)) (id a)
                    (in_map _ _ _ Ha)). fold n in H. lia.
Qed.

Lemma add_product_then_get_witness :
  exists row,
    get_product_by_id (fst (add_product shop_db (sample_product 7 43)))
                      (snd (add_product shop_db (sample_product 7 43))) = Some row
    /\ id row = snd (add_product shop_db (sample_product 7 43))
    /\ (1 <= snd (add_product shop_db (sample_product 7 43)))%Z
    /\ (existsb (source_conflict (sample_product 7 43)) (products shop_db) = false ->
        row = with_id (sample_product 7 43) (snd (add_product shop_db (sample_product 7 43))))
    /\ (existsb (source_conflict (sample_product 7 43)) (products shop_db) = true ->
        In row (products shop_db) /\ source_conflict (sample_product 7 43) row = true).
Proof.
  apply (add_product_then_get shop_db (sample_product 7 43)).
  split; [|split].
  - simpl. repeat constructor; simpl; intuition discriminate.
  - intros p H. simpl in H. destruct H as [H|[H|H]]; [rewrite <- H; simpl; lia ..|destruct H].
  - intros c m. simpl. destruct (has_source c m _); simpl; lia.
Defined.

(** X5. A product whose source pair is incomplete (either field NULL) is
    never taken for a duplicate: [add_product] appends it as a new row and
    returns its id, which is larger than every id in the table before. *)
Theorem add_product_null_source (d : db) (p : Product) :
  source_chat_id p = None \/ source_msg_id p = None ->
  products (fst (add_product d p))
  = products d ++ [with_id p (snd (add_product d p))]
  /\ forall q, In q (products d) -> (id q < snd (add_product d p))%Z.
Proof.
  intros H.
  assert (E : existsb (source_conflict p) (products d) = false).
  { destruct (existsb (source_conflict p) (products d)) eqn:E; [|reflexivity].
    apply existsb_exists in E as (q & _ & Hc).
    destruct (source_conflict_sourced p q Hc). tauto. }
  rewrite add_product_products, E. unfold add_product. rewrite E.
  set (n := next_rowid (products_seq d) (map id (products d))).
  pose proof (next_rowid_pos (products_seq d) (map id (products d))) as Hpos.
  fold n in Hpos.
  assert (Hz : (n =? 0)%Z = false) by (apply Z.eqb_neq; lia).
  rewrite Hz. cbn [negb fst snd]. split; [reflexivity|].
  intros q Hq.
  apply (next_rowid_fresh (products_seq d) (map id (products d)) (id q)).
  now apply in_map.
Qed.

Lemma add_product_null_source_witness :
  products (fst (add_product shop_db cap))
  = products shop_db ++ [with_id cap (snd (add_product shop_db cap))]
  /\ forall q, In q (products shop_db) -> (id q < snd (add_product shop_db cap))%Z.
Proof.
  apply (add_product_null_source shop_db cap). left. reflexivity.
Defined.

(** ** Cart: [add_to_cart], [clear_cart] *)

Lemma find_upd_same (u pid : Z) (l : list Cart.row) :
  existsb (same_key u pid) l = true ->
  find (same_key u pid)
       (map (fun c => if same_key u pid c
                      then {| Cart.user_id := u; Cart.product_id := pid;
                              Cart.qty := (Cart.qty c + 1)%Z |}
                      else c) l)
  = match find (same_key u pid) l with
    | Some c => Some {| Cart.user_id := u; Cart.product_id := pid;
                        Cart.qty := (Cart.qty c + 1)%Z |}
    | None => None
    end.
Proof.
  induction l as [|c l IH]; simpl; [discriminate|].
  destruct (same_key u pid c) eqn:K; simpl.
  - intros _. unfold same_key at 1. simpl. now rewrite !Z.eqb_refl.
  - intros H. rewrite K. auto.
Qed.

Lemma same_key_other (u pid u' pid' : Z) (c : Cart.row) :
  (u' =? u)%Z && (pid' =? pid)%Z = false ->
  same_key u pid c = true -> same_key u' pid' c = false.
Proof.
  unfold same_key. intros H K. apply andb_true_iff in K as [K1 K2].
  apply Z.eqb_eq in K1, K2. rewrite K1, K2.
  now rewrite (Z.eqb_sym u u'), (Z.eqb_sym pid pid').
Qed.

Lemma find_upd_other (u pid u' pid' : Z) (l : list Cart.row) :
  (u' =? u)%Z && (pid' =? pid)%Z = false ->
  find (same_key u' pid')
       (map (fun c => if same_key u pid c
                      then {| Cart.user_id := u; Cart.product_id := pid;
                              Cart.qty := (Cart.qty c + 1)%Z |}
                      else c) l)
  = find (same_key u' pid') l.
Proof.
  intros H. induction l as [|c l IH]; simpl; [reflexivity|].
  destruct (same_key u pid c) eqn:K.
  - rewrite (same_key_other u pid u' pid' c H K).
    assert (K' : same_key u' pid'
                   {| Cart.user_id := u; Cart.product_id := pid;
                      Cart.qty := (Cart.qty c + 1)%Z |} = false).
    { unfold same_key. simpl. now rewrite (Z.eqb_sym u u'), (Z.eqb_sym pid pid'). }
    rewrite K'. exact IH.
  - destruct (same_key u' pid' c); [reflexivity|exact IH].
Qed.

Lemma find_existsb_false {A} (f : A -> bool) (l : list A) :
  existsb f l = false -> find f l = None.
Proof.
  induction l as [|a l IH]; simpl; [reflexivity|].
  destruct (f a); simpl; [discriminate|auto].
Qed.

Lemma find_app {A} (f : A -> bool) (l1 l2 : list A) :
  find f (l1 ++ l2) = match find f l1 with Some a => Some a | None => find f l2 end.
Proof.
  induction l1 as [|a l1 IH]; simpl; [reflexivity|].
  destruct (f a); auto.
Qed.

Lemma cart_qty_add (d : db) (u pid u' pid' : Z) :
  cart_qty (add_to_cart d u pid) u' pid'
  = if (u' =? u)%Z && (pid' =? pid)%Z
    then (cart_qty d u pid + 1)%Z
    else cart_qty d u' pid'.
Proof.
  unfold cart_qty. rewrite add_to_cart_cart.
  destruct ((u' =? u)%Z && (pid' =? pid)%Z) eqn:K.
  - apply andb_true_iff in K as [K1 K2]. apply Z.eqb_eq in K1, K2. subst u' pid'.
    destruct (existsb (same_key u pid) (cart d)) eqn:E.
    + rewrite (find_upd_same u pid (cart d) E).
      destruct (find (same_key u pid) (cart d)) as [c|] eqn:F; [reflexivity|].
      apply existsb_exists in E as (c & Hc & Hk).
      rewrite (find_none _ _ F c Hc) in Hk. discriminate.
    + rewrite find_app, (find_existsb_false _ _ E). simpl.
      unfold same_key. simpl. now rewrite !Z.eqb_refl.
  - destruct (existsb (same_key u pid) (cart d)) eqn:E.
    + now rewrite (find_upd_other u pid u' pid' (cart d) K).
    + rewrite find_app. destruct (find (same_key u' pid') (cart d)); [reflexivity|].
      simpl. unfold same_key. simpl.
      now rewrite (Z.eqb_sym u u'), (Z.eqb_sym pid pid'), K.
Qed.

(** X6. [add_to_cart] raises the quantity held under the key
    (user, product) by one, starting from 1 when there was no row, and
    leaves the quantity under every other key as it was. *)
Theorem add_to_cart_qty (d : db) (u pid u' pid' : Z) :
  cart_qty (add_to_cart d u pid) u' pid'
  = if (u' =? u)%Z && (pid' =? pid)%Z
    then (cart_qty d u pid + 1)%Z
    else cart_qty d u' pid'.
Proof. exact (cart_qty_add d u pid u' pid'). Qed.

Lemma cart_join_rows (d : db) (user : Z) :
  cart_join d user = flat_map (row_lines d user) (cart d).
Proof. reflexivity. Qed.

Lemma row_lines_set_cart (d : db) (rows : list Cart.row) (user : Z) (c : Cart.row) :
  row_lines (set_cart d rows) user c = row_lines d user c.
Proof. reflexivity. Qed.

Lemma cart_join_set_cart (d : db) (rows : list Cart.row) (user : Z) :
  cart_join (set_cart d rows) user = flat_map (row_lines d user) rows.
Proof. reflexivity. Qed.

Lemma lines_total_app (a b : list cart_line) :
  lines_total (a ++ b) = (lines_total a + lines_total b)%Z.
Proof.
  unfold lines_total. induction a as [|x a IH]; simpl; [reflexivity|].
  rewrite IH. lia.
Qed.

Lemma filter_by_id (l : list Product) (p : Product) :
  NoDup (map id l) -> In p l -> filter (fun q => (id q =? id p)%Z) l = [p].
Proof.
  induction l as [|a l IH]; simpl; intros Hnd Hin; [destruct Hin|].
  inversion Hnd as [|? ? Hn Hnd']; subst.
  destruct Hin as [->|Hin].
  - rewrite Z.eqb_refl. f_equal. apply filter_none.
    intros q Hq. apply Z.eqb_neq. intros E. apply Hn. rewrite <- E. now apply in_map.
  - destruct (id a =? id p)%Z eqn:E; [|auto].
    apply Z.eqb_eq in E. exfalso. apply Hn. rewrite E. now apply in_map.
Qed.

Lemma row_lines_key (d : db) (u : Z) (p : Product) (c : Cart.row) :
  NoDup (map id (products d)) -> In p (products d) ->
  Cart.user_id c = u -> Cart.product_id c = id p ->
  row_lines d u c = [(id p, title p, price p, Cart.qty c)].
Proof.
  intros Hnd Hin Hu Hp. unfold row_lines.
  rewrite Hu, Z.eqb_refl, Hp, (filter_by_id _ p Hnd Hin). reflexivity.
Qed.

Lemma sum_bump (d : db) (u : Z) (p : Product) (l : list Cart.row) :
  NoDup (map id (products d)) -> In p (products d) ->
  NoDup (map cart_key l) ->
  lines_total (flat_map (row_lines d u) (map (bump u (id p)) l))
  = (lines_total (flat_map (row_lines d u) l)
     + if existsb (same_key u (id p)) l then price p else 0)%Z.
Proof.
  intros Hnd Hin. induction l as [|c l IH]; simpl; intros Hk; [reflexivity|].
  inversion Hk as [|? ? Hn Hk']; subst.
  rewrite !lines_total_app, (IH Hk'). unfold bump at 1.
  destruct (same_key u (id p) c) eqn:K; simpl.
  - assert (E : existsb (same_key u (id p)) l = false).
    { destruct (existsb (same_key u (id p)) l) eqn:E; [|reflexivity].
      apply existsb_exists in E as (c' & Hc' & K').
      apply same_key_cart_key in K, K'. exfalso. apply Hn.
      rewrite K, <- K'. now apply in_map. }
    rewrite E.
    apply andb_true_iff in K as [K1 K2]. apply Z.eqb_eq in K1, K2.
    rewrite (row_lines_key d u p c Hnd Hin K1 K2).
    rewrite (row_lines_key d u p
               {| Cart.user_id := u; Cart.product_id := id p;
                  Cart.qty := (Cart.qty c + 1)%Z |} Hnd Hin eq_refl eq_refl).
    unfold lines_total. simpl. lia.
  - lia.
Qed.

(** X7. When the product is in the catalog, product ids are distinct and
    the cart has one row per key, [add_to_cart] raises the total of the
    user's snapshot by the price of the product, and leaves the snapshot of
    every other user as it was. *)
Theorem add_to_cart_total (d : db) (u : Z) (p : Product) :
  NoDup (map id (products d)) -> NoDup (map cart_key (cart d)) ->
  In p (products d) ->
  cart_total (get_cart (add_to_cart d u (id p)) u)
  = (cart_total (get_cart d u) + price p)%Z
  /\ forall u', u' <> u -> get_cart (add_to_cart d u (id p)) u' = get_cart d u'.
Proof.
  intros Hnd Hk Hin. split.
  - rewrite !cart_total_sum. unfold get_cart. rewrite !by_product_sum.
    fold (lines_total (cart_join d u)).
    fold (lines_total (cart_join (add_to_cart d u (id p)) u)).
    unfold add_to_cart.
    destruct (existsb (same_key u (id p)) (cart d)) eqn:E; rewrite cart_join_set_cart.
    + change (map _ (cart d)) with (map (bump u (id p)) (cart d)).
      rewrite (sum_bump d u p (cart d) Hnd Hin Hk), E. reflexivity.
    + rewrite flat_map_app, lines_total_app. simpl. rewrite app_nil_r.
      rewrite (row_lines_key d u p
                 {| Cart.user_id := u; Cart.product_id := id p; Cart.qty := 1 |}
                 Hnd Hin eq_refl eq_refl).
      unfold lines_total at 2. simpl. rewrite cart_join_rows. lia.
  - intros u' Hu. unfold get_cart. f_equal. unfold add_to_cart.
    assert (Hb : forall c, row_lines d u' (bump u (id p) c) = row_lines d u' c).
    { intros c. unfold bump. destruct (same_key u (id p) c) eqn:K; [|reflexivity].
      apply andb_true_iff in K as [K1 _]. apply Z.eqb_eq in K1.
      unfold row_lines. simpl. rewrite K1.
      assert (N : (u =? u')%Z = false) by (apply Z.eqb_neq; congruence).
      now rewrite N. }
    destruct (existsb (same_key u (id p)) (cart d)); rewrite cart_join_set_cart.
    + change (map _ (cart d)) with (map (bump u (id p)) (cart d)).
      rewrite cart_join_rows. clear Hk.
      induction (cart d) as [|c l IH]; simpl; [reflexivity|].
      now rewrite Hb, IH.
    + rewrite flat_map_app. simpl. unfold row_lines at 2. simpl.
      assert (N : (u =? u')%Z = false) by (apply Z.eqb_neq; congruence).
      rewrite N. simpl. now rewrite app_nil_r.
Qed.

Lemma add_to_cart_total_witness :
  cart_total (get_cart (add_to_cart shop_db 10 (id cap)) 10)
  = (cart_total (get_cart shop_db 10) + price cap)%Z
  /\ forall u', u' <> 10%Z ->
                get_cart (add_to_cart shop_db 10 (id cap)) u' = get_cart shop_db u'.
Proof.
  apply (add_to_cart_total shop_db 10 cap).
  - simpl. repeat constructor; simpl; intuition discriminate.
  - simpl. repeat constructor; simpl; intuition discriminate.
  - simpl. auto.
Defined.

(** X8. [add_to_cart] does not look the product up: for an id that no
    product has, the row is stored all the same (the quantity under the key
    goes up by one) while every user's snapshot stays as it was. *)
Theorem add_to_cart_unknown_product (d : db) (u pid : Z) :
  (forall q, In q (products d) -> id q <> pid) ->
  cart_qty (add_to_cart d u pid) u pid = (cart_qty d u pid + 1)%Z
  /\ forall u', get_cart (add_to_cart d u pid) u' = get_cart d u'.
Proof.
  intros Hno. split.
  - rewrite cart_qty_add, !Z.eqb_refl. reflexivity.
  - intros u'.
    assert (Hnone : forall c, Cart.product_id c = pid -> row_lines d u' c = []).
    { intros c Hc. unfold row_lines. destruct (Cart.user_id c =? u')%Z; [|reflexivity].
      rewrite filter_none; [reflexivity|].
      intros q Hq. apply Z.eqb_neq. rewrite Hc. auto. }
    unfold get_cart. f_equal. unfold add_to_cart.
    destruct (existsb (same_key u pid) (cart d));
      rewrite cart_join_set_cart, cart_join_rows.
    + induction (cart d) as [|c l IH]; simpl; [reflexivity|]. rewrite IH. f_equal.
      destruct (same_key u pid c) eqn:K; [|reflexivity].
      apply andb_true_iff in K as [_ K2]. apply Z.eqb_eq in K2.
      rewrite (Hnone c K2). now apply Hnone.
    + rewrite flat_map_app. simpl.
      rewrite (Hnone {| Cart.user_id := u; Cart.product_id := pid; Cart.qty := 1 |}
                     eq_refl).
      now rewrite !app_nil_r.
Qed.

Lemma add_to_cart_unknown_product_witness :
  cart_qty (add_to_cart shop_db 20 99) 20 99 = (cart_qty shop_db 20 99 + 1)%Z
  /\ forall u', get_cart (add_to_cart shop_db 20 99) u' = get_cart shop_db u'.
Proof.
  apply (add_to_cart_unknown_product shop_db 20 99).
  intros q H. simpl in H. destruct H as [H|[H|H]]; [rewrite <- H; simpl; lia ..|destruct H].
Defined.

(** X9. [clear_cart] and an uninterrupted [create_order] for one user touch
    no other user's cart: their rows and snapshots are as before; the
    products are as before too, and the orders table only grows at its
    end, by at most one row. *)
Theorem checkout_leaves_others (d : db) (u u' : Z) :
  u' <> u ->
  user_cart (clear_cart d u) u' = user_cart d u'
  /\ get_cart (clear_cart d u) u' = get_cart d u'
  /\ user_cart (fst (create_order d u)) u' = user_cart d u'
  /\ get_cart (fst (create_order d u)) u' = get_cart d u'
  /\ products (fst (create_order d u)) = products d
  /\ exists new, orders (fst (create_order d u)) = orders d ++ new
                 /\ (length new <= 1)%nat.
Proof.
  intros Hne.
  assert (N : forall c, (Cart.user_id c =? u')%Z = true ->
                        negb (Cart.user_id c =? u)%Z = true).
  { intros c Hc. apply Z.eqb_eq in Hc. apply negb_true_iff, Z.eqb_neq. congruence. }
  assert (A : forall rows, filter (fun c => (Cart.user_id c =? u')%Z)
                             (filter (fun c => negb (Cart.user_id c =? u)%Z) rows)
                           = filter (fun c => (Cart.user_id c =? u')%Z) rows).
  { induction rows as [|c l IH]; simpl; [reflexivity|].
    destruct (Cart.user_id c =? u')%Z eqn:E.
    - rewrite (N c E). simpl. now rewrite E, IH.
    - destruct (negb _); simpl; [now rewrite E|exact IH]. }
  assert (B : forall d0, flat_map (row_lines d0 u')
                           (filter (fun c => negb (Cart.user_id c =? u)%Z) (cart d))
                         = flat_map (row_lines d0 u') (cart d)).
  { intros d0. induction (cart d) as [|c l IH]; simpl; [reflexivity|].
    destruct (negb (Cart.user_id c =? u)%Z) eqn:E; simpl; [now rewrite IH|].
    rewrite IH. unfold row_lines at 2.
    destruct (Cart.user_id c =? u')%Z eqn:E'; [|reflexivity].
    rewrite (N c E') in E. discriminate. }
  split; [apply A|]. split; [unfold get_cart; f_equal; apply (B d)|].
  destruct (create_order_store d u) as [-> | ->].
  - repeat split; auto. exists []. rewrite app_nil_r. auto.
  - unfold insert_rows. simpl. split; [apply A|].
    split; [unfold get_cart; f_equal; apply (B d)|].
    split; [reflexivity|]. eexists. split; [reflexivity|]. simpl. lia.
Qed.

Lemma checkout_leaves_others_witness :
  user_cart (clear_cart shop_db 10) 30 = user_cart shop_db 30
  /\ get_cart (clear_cart shop_db 10) 30 = get_cart shop_db 30
  /\ user_cart (fst (create_order shop_db 10)) 30 = user_cart shop_db 30
  /\ get_cart (fst (create_order shop_db 10)) 30 = get_cart shop_db 30
  /\ products (fst (create_order shop_db 10)) = products shop_db
  /\ exists new, orders (fst (create_order shop_db 10)) = orders shop_db ++ new
                 /\ (length new <= 1)%nat.
Proof. apply (checkout_leaves_others shop_db 10 30). lia. Defined.

(** ** Wardrobe *)

(** X10. [add_to_wardrobe] is idempotent: the entry is present after the
    first call, the second call changes nothing, entries already there are
    kept in place, and the table keeps one row per (user, product). *)
Theorem add_to_wardrobe_idempotent (w : list Wardrobe.row) (u pid : Z) :
  existsb (wardrobe_key u pid) (add_to_wardrobe w u pid) = true
  /\ add_to_wardrobe (add_to_wardrobe w u pid) u pid = add_to_wardrobe w u pid
  /\ (exists new, add_to_wardrobe w u pid = w ++ new)
  /\ (NoDup (map (fun r => (Wardrobe.user_id r, Wardrobe.product_id r)) w) ->
      NoDup (map (fun r => (Wardrobe.user_id r, Wardrobe.product_id r))
                 (add_to_wardrobe w u pid))).
Proof.
  assert (P : existsb (wardrobe_key u pid) (add_to_wardrobe w u pid) = true).
  { unfold add_to_wardrobe. destruct (existsb (wardrobe_key u pid) w) eqn:E; [exact E|].
    rewrite existsb_app. simpl. unfold wardrobe_key at 2. simpl.
    rewrite !Z.eqb_refl. simpl. now rewrite orb_true_r. }
  split; [exact P|]. split; [|split].
  - unfold add_to_wardrobe at 1. now rewrite P.
  - unfold add_to_wardrobe. destruct (existsb _ w); [exists []; now rewrite app_nil_r|eauto].
  - intros Hnd. unfold add_to_wardrobe.
    destruct (existsb (wardrobe_key u pid) w) eqn:E; [exact Hnd|].
    rewrite map_app. simpl. apply NoDup_app; [exact Hnd|repeat constructor; auto|].
    intros k Hk [<-|[]]. apply in_map_iff in Hk as (r & Hr & Hin).
    injection Hr as H1 H2.
    assert (X : existsb (wardrobe_key u pid) w = true).
    { apply existsb_exists. exists r. split; [exact Hin|].
      unfold wardrobe_key. now rewrite H1, H2, !Z.eqb_refl. }
    congruence.
Qed.

Lemma add_to_wardrobe_idempotent_witness :
  existsb (wardrobe_key 10 1) (add_to_wardrobe [] 10 1) = true
  /\ add_to_wardrobe (add_to_wardrobe [] 10 1) 10 1 = add_to_wardrobe [] 10 1
  /\ (exists new, add_to_wardrobe [] 10 1 = [] ++ new)
  /\ NoDup (map (fun r => (Wardrobe.user_id r, Wardrobe.product_id r))
                (add_to_wardrobe [] 10 1)).
Proof.
  destruct (add_to_wardrobe_idempotent [] 10 1) as (A & B & C & D).
  split; [exact A|]. split; [exact B|]. split; [exact C|].
  apply D. constructor.
Defined.

(** ** Listing: pages and the size filter *)




Lemma in_firstn_gen {A} (n : nat) (l : list A) (x : A) : In x (firstn n l) -> In x l.
Proof.
  intros H. rewrite <- (firstn_skipn n l). apply in_or_app. now left.
Qed.













(** ** What the extractors return *)

Lemma digit_value_in_range (t : list (N * N)) (c : char) :
  (0 <= digit_value_in t c <= 9)%Z.
Proof.
  induction t as [|[lo hi] t IH]; simpl; [lia|].
  destruct ((lo <=? c)%N && (c <=? hi)%N); [|exact IH].
  assert (H : ((c - lo) mod 10 < 10)%N) by (apply N.mod_lt; discriminate).
  set (r := ((c - lo) mod 10)%N) in *. clearbody r. lia.
Qed.

Lemma digits_fold_bound (l : str) : forall (acc : Z) (k : nat),
  (0 <= acc < 10 ^ Z.of_nat k)%Z ->
  (0 <= fold_left (fun a c => a * 10 + digit_value c) l acc
   < 10 ^ Z.of_nat (k + length l))%Z.
Proof.
  induction l as [|c l IH]; intros acc k H; simpl.
  - now rewrite Nat.add_0_r.
  - replace (k + S (length l))%nat with (S k + length l)%nat by lia.
    apply IH. pose proof (digit_value_in_range decimal_ranges c) as D.
    unfold digit_value. rewrite Nat2Z.inj_succ, Z.pow_succ_r by lia. lia.
Qed.

Lemma digits_value_bound (l : str) :
  (0 <= digits_value l < 10 ^ Z.of_nat (length l))%Z.
Proof. apply (digits_fold_bound l 0 0). simpl. lia. Qed.

Lemma digits_result_range (g : str) (K : py (option Z)) (v : Z) :
  (length (sub_nondigits g) <= 13)%nat ->
  (forall w, K = Ok (Some w) -> (0 <= w < 10 ^ 15)%Z /\ (w mod 100 = 0)%Z) ->
  (if str_isdigit (sub_nondigits g)
   then n <- py_int (sub_nondigits g) ;; Ok (Some (n * 100)%Z)
   else K) = Ok (Some v) ->
  (0 <= v < 10 ^ 15)%Z /\ (v mod 100 = 0)%Z.
Proof.
  intros Hl HK. destruct (str_isdigit (sub_nondigits g)) eqn:E; [|apply HK].
  assert (Hne : sub_nondigits g <> []).
  { intros N. rewrite N in E. discriminate. }
  destruct (py_int_digits g Hne) as [_ ->]. simpl. intros H. injection H as <-.
  pose proof (digits_value_bound (sub_nondigits g)) as B.
  assert (P : (10 ^ Z.of_nat (length (sub_nondigits g)) <= 10 ^ 13)%Z)
    by (apply Z.pow_le_mono_r; lia).
  split; [|apply Z.mod_mul; lia].
  change (10 ^ 15)%Z with (10 ^ 13 * 100)%Z. lia.
Qed.

Lemma filter_length_le {A} (f : A -> bool) (l : list A) :
  (length (filter f l) <= length l)%nat.
Proof. induction l as [|a l IH]; simpl; [lia|]. destruct (f a); simpl; lia. Qed.

Lemma amount_group_short (st m : mstate) :
  In m (ms (Seq amount currency_tail) st) ->
  exists g, grp m = Some g /\ (length g <= 13)%nat.
Proof.
  intros H. apply amount_tail_inv in H
    as (d & body & _ & _ & _ & _ & _ & _ & Hl & _ & _ & G).
  exists (d :: body). split; [exact G|]. simpl. lia.
Qed.

Lemma search_price_group (pat : regex) (t : str) (m : mstate) :
  pat = price_pat1 \/ pat = price_pat2 ->
  re_search pat t = Some m -> exists g, grp m = Some g /\ (length g <= 13)%nat.
Proof.
  intros Hp H. apply search_from_inv in H as (_ & pv & s & _ & H).
  destruct Hp as [-> | ->]; apply ms_seq_inv in H as (y & _ & H);
    eapply amount_group_short, H.
Qed.

Lemma price_by_patterns_range (pats : list regex) (t : str) :
  (forall pat, In pat pats -> pat = price_pat1 \/ pat = price_pat2) ->
  forall v, price_by_patterns pats t = Ok (Some v) ->
            (0 <= v < 10 ^ 15)%Z /\ (v mod 100 = 0)%Z.
Proof.
  induction pats as [|pat pats IH]; simpl; intros Hp v H; [discriminate|].
  assert (IH' : forall w, price_by_patterns pats t = Ok (Some w) ->
                          (0 <= w < 10 ^ 15)%Z /\ (w mod 100 = 0)%Z).
  { intros w Hw. apply IH; auto. }
  destruct (re_search pat t) as [m|] eqn:E; [|auto].
  destruct (search_price_group pat t m (Hp pat (or_introl eq_refl)) E) as (g & G & L).
  unfold group1 in H. rewrite G in H. cbn [bind] in H.
  apply (digits_result_range g _ v) in H; auto.
  pose proof (filter_length_le isdecimal g). unfold sub_nondigits. lia.
Qed.

Lemma filter_lstrip (l : str) : filter isdecimal (lstrip l) = filter isdecimal l.
Proof.
  induction l as [|c l IH]; simpl; [reflexivity|].
  destruct (isspace c) eqn:E; [|reflexivity].
  now rewrite (space_not_decimal c E).
Qed.

Lemma filter_rev_char (f : char -> bool) (l : str) : filter f (rev l) = rev (filter f l).
Proof.
  induction l as [|c l IH]; simpl; [reflexivity|].
  rewrite filter_app, IH. simpl. destruct (f c); simpl; [reflexivity|apply app_nil_r].
Qed.

Lemma filter_strip (l : str) : filter isdecimal (strip l) = filter isdecimal l.
Proof.
  unfold strip, rstrip.
  rewrite filter_rev_char, filter_lstrip, filter_rev_char, rev_involutive.
  apply filter_lstrip.
Qed.

Lemma spaces_no_digits (w : str) : forallb isspace w = true -> filter isdecimal w = [].
Proof.
  intros H. apply filter_none. rewrite forallb_forall in H.
  intros c Hc. apply space_not_decimal. auto.
Qed.

Lemma number_line_digits (line : str) (m : mstate) :
  re_fullmatch price_line_pat (strip line) = Some m ->
  (length (sub_nondigits line) <= 13)%nat.
Proof.
  unfold re_fullmatch. intros H. apply find_some in H as [H R].
  destruct (rest m) eqn:Rm; [|discriminate].
  unfold price_line_pat in H.
  apply ms_seq_inv in H as (s1 & H1 & H).
  apply ms_seq_inv in H as (s2 & H2 & H).
  apply ms_seq_inv in H as (s3 & H3 & H).
  apply ms_star_inv in H1 as (w0 & E0 & W0).
  apply ms_cls_inv in H2 as (d & Ed & _).
  apply rep_cls_inv in H3 as (body & Eb & _ & Lb & _).
  apply ms_star_inv in H as (w2 & E2 & W2).
  cbn [rest] in E0. rewrite Rm, app_nil_r in E2.
  unfold sub_nondigits. rewrite <- filter_strip, E0, Ed, Eb, E2.
  rewrite filter_app, (spaces_no_digits w0 W0). simpl.
  assert (F : (length (filter isdecimal (body ++ w2)) <= 12)%nat).
  { rewrite filter_app, (spaces_no_digits w2 W2), app_nil_r.
    pose proof (filter_length_le isdecimal body). lia. }
  destruct (isdecimal d); simpl; lia.
Qed.

Lemma price_by_lines_range (lines : list str) :
  forall v, price_by_lines lines = Ok (Some v) ->
            (0 <= v < 10 ^ 15)%Z /\ (v mod 100 = 0)%Z.
Proof.
  induction lines as [|l lines IH]; simpl; intros v; [discriminate|].
  destruct (re_fullmatch price_line_pat (strip l)) as [m|] eqn:E; [|apply IH].
  apply digits_result_range; [|exact IH].
  eapply number_line_digits, E.
Qed.

Lemma parse_price_bounds (text : str) (v : Z) :
  parse_price text = Ok (Some v) ->
  (0 <= v < 10 ^ 15)%Z /\ (v mod 100 = 0)%Z.
Proof.
  unfold parse_price. destruct (is_empty text); [discriminate|].
  destruct (price_by_patterns [price_pat1; price_pat2] (replace_nbsp text))
    as [[w|]|e] eqn:E; cbn [bind]; try discriminate.
  - intros H. injection H as <-.
    apply (price_by_patterns_range [price_pat1; price_pat2] (replace_nbsp text));
      [|exact E].
    intros pat [<-|[<-|[]]]; auto.
  - apply price_by_lines_range.
Qed.

(** X14. Whatever the text, a price returned by [parse_price] is a whole
    number of rubles in kopecks: a multiple of 100, not negative, and below
    10^15 (an amount has at most 13 digits). *)
Theorem parse_price_range (text : str) (v : Z) :
  parse_price text = Ok (Some v) ->
  (0 <= v < 10 ^ 15)%Z /\ (v mod 100 = 0)%Z.
Proof. exact (parse_price_bounds text v). Qed.

Lemma parse_price_range_witness :
  (0 <= 499000 < 10 ^ 15)%Z /\ (499000 mod 100 = 0)%Z.
Proof.
  apply (parse_price_range (u "Цена: 4 990 руб.") 499000). vm_compute. reflexivity.
Defined.

(** *** [first_line] *)

Lemma linebreak_is_space (c : char) : islinebreak c = true -> isspace c = true.
Proof. apply (ranges_all linebreak_ranges isspace). vm_compute. reflexivity. Qed.

Lemma splitlines_aux_head (s : str) : forall (cur l : str) (ls : list str),
  splitlines_aux cur s = l :: ls ->
  l = rev cur ++ take_while (fun c => negb (islinebreak c)) s.
Proof.
  induction s as [|c s IH]; intros cur l ls H; simpl in H |- *.
  - destruct cur; [discriminate|]. injection H as <- _. now rewrite app_nil_r.
  - destruct (islinebreak c) eqn:E; simpl.
    + rewrite app_nil_r. destruct s as [|d s]; [now injection H as <- _|].
      destruct ((c =? 13)%N && (d =? 10)%N); now injection H as <- _.
    + rewrite (IH _ _ _ H). simpl. now rewrite <- app_assoc.
Qed.

Lemma lstrip_head (s : str) (c : char) (r : str) :
  lstrip s = c :: r -> isspace c = false.
Proof.
  induction s as [|a s IH]; simpl; [discriminate|].
  destruct (isspace a) eqn:E; [exact IH|]. intros H. injection H as <- _. exact E.
Qed.

Lemma lstrip_suffix (s : str) : exists w, s = w ++ lstrip s.
Proof.
  induction s as [|a s IH]; simpl; [now exists []|].
  destruct (isspace a); [|now exists []].
  destruct IH as (w & E). exists (a :: w). simpl. now f_equal.
Qed.

Lemma rstrip_prefix (s : str) : exists w, s = rstrip s ++ w.
Proof.
  unfold rstrip. destruct (lstrip_suffix (rev s)) as (w & E).
  exists (rev w). rewrite <- rev_app_distr, <- E. symmetry. apply rev_involutive.
Qed.

Lemma rstrip_nonempty (c : char) (r : str) :
  isspace c = false -> exists r', rstrip (c :: r) = c :: r'.
Proof.
  intros Hc. destruct (rstrip_prefix (c :: r)) as (w & E).
  destruct (rstrip (c :: r)) as [|x r'] eqn:R.
  - exfalso. unfold rstrip in R.
    assert (K : existsb (fun c => negb (isspace c)) (rev (c :: r)) = true).
    { rewrite existsb_rev_char. simpl. now rewrite Hc. }
    apply lstrip_keeps in K. apply (f_equal (@rev char)) in R.
    rewrite rev_involutive in R. change (rev []) with (@nil char) in R.
    rewrite R in K. discriminate.
  - simpl in E. injection E as -> _. eauto.
Qed.

Lemma strip_head (text : str) (c : char) (r : str) :
  strip text = c :: r -> isspace c = false.
Proof.
  unfold strip. intros H. destruct (lstrip text) as [|a s] eqn:L.
  - discriminate.
  - pose proof (lstrip_head text a s L) as Ha.
    destruct (rstrip_nonempty a s Ha) as (r' & R). rewrite R in H.
    injection H as <- _. exact Ha.
Qed.

Lemma forallb_firstn (p : char -> bool) (n : nat) (s : str) :
  forallb p s = true -> forallb p (firstn n s) = true.
Proof.
  intros H. rewrite forallb_forall in *. intros c Hc. apply H.
  eapply in_firstn_gen, Hc.
Qed.

Lemma first_line_shape (text l : str) :
  first_line text = Ok l ->
  l <> [] /\ (length l <= 128)%nat
  /\ forallb (fun c => negb (islinebreak c)) l = true.
Proof.
  unfold first_line. destruct (is_empty text).
  - intros H. injection H as <-. repeat split; [discriminate|simpl; lia].
  - destruct (splitlines (strip text)) as [|x ls] eqn:S; [discriminate|].
    intros H. assert (El : l = firstn 128 x) by congruence. clear H. subst l.
    unfold splitlines in S.
    pose proof (splitlines_aux_head _ _ _ _ S) as Hx. simpl in Hx.
    split; [|split].
    + destruct (strip text) as [|c r] eqn:T; [discriminate|].
      pose proof (strip_head text c r T) as Hc.
      assert (Hb : islinebreak c = false).
      { destruct (islinebreak c) eqn:B; [|reflexivity].
        rewrite (linebreak_is_space c B) in Hc. discriminate. }
      rewrite Hx. cbn [take_while]. rewrite Hb. cbn [negb]. discriminate.
    + apply firstn_le_length.
    + apply forallb_firstn. rewrite Hx. apply take_while_all.
Qed.

(** X15. Whenever [first_line] returns, the title is not empty, has at
    most 128 characters and contains no line break. *)
Theorem first_line_title (text l : str) :
  first_line text = Ok l ->
  l <> [] /\ (length l <= 128)%nat
  /\ forallb (fun c => negb (islinebreak c)) l = true.
Proof. exact (first_line_shape text l). Qed.

Lemma first_line_title_witness :
  u "#Jackets #Nike" <> [] /\ (length (u "#Jackets #Nike") <= 128)%nat
  /\ forallb (fun c => negb (islinebreak c)) (u "#Jackets #Nike") = true.
Proof.
  apply (first_line_title scenario_text (u "#Jackets #Nike")). vm_compute. reflexivity.
Defined.

(** ** The import handlers *)

Lemma parse_hashtags_scan (text : str) : parse_hashtags text = hashtags_spec text.
Proof.
  unfold parse_hashtags. destruct text as [|c s]; [reflexivity|]. cbn [is_empty].
  unfold re_findall. rewrite (findall_tags (length (c :: s))) by lia.
  apply strip_tags, hashtags_spec_words.
Qed.

Lemma nth_tag_nonempty (tags : list str) (n : nat) (dflt : str) :
  Forall (fun t => t <> [] /\ forallb isword t = true) tags ->
  dflt <> [] -> nth n tags dflt <> [].
Proof.
  intros H Hd. revert n. induction H as [|t l [Ht _] _ IH]; intros [|n]; simpl; auto.
Qed.

Lemma parse_sizes_short (text s : str) :
  parse_sizes text = Ok (Some s) -> (length s <= 120)%nat.
Proof.
  unfold parse_sizes. destruct (is_empty text); [discriminate|].
  destruct (re_search sizes_pat (replace_nbsp text)) as [m|].
  - destruct (group1 m) as [g|e]; cbn [bind]; [|discriminate].
    intros H. assert (E : s = firstn 120 (collapse_ws (strip g))) by congruence.
    rewrite E. apply firstn_le_length.
  - intros H. assert (E : sizes_by_lines (splitlines (replace_nbsp text)) = Some s)
      by congruence.
    clear H. induction (splitlines (replace_nbsp text)) as [|l ls IH]; [discriminate|].
    cbn [sizes_by_lines] in E. destruct (re_fullmatch sizes_line_pat (strip l)); [|auto].
    assert (E' : s = firstn 120 (strip l)) by congruence.
    rewrite E'. apply firstn_le_length.
Qed.

Lemma truthy_id_nonzero (o : option Z) (n : Z) : truthy_id o = Some n -> n <> 0%Z.
Proof.
  unfold truthy_id. destruct o as [k|]; [|discriminate].
  destruct (k =? 0)%Z eqn:E; [discriminate|]. intros H. injection H as <-.
  now apply Z.eqb_neq.
Qed.

(** X16. Every product that [import_from_forward] builds has a non-empty
    category, brand and title, a title of at most 128 characters, a price
    that is a non-negative multiple of 100 below 10^15, sizes of at most
    120 characters, and either no source message id or a full source pair
    of two non-zero ids. *)
Theorem product_from_forward_fields (msg : Message) (p : Product) :
  product_from_forward msg = Ok p ->
  category p <> [] /\ brand p <> [] /\ title p <> []
  /\ (length (title p) <= 128)%nat
  /\ (0 <= price p < 10 ^ 15)%Z /\ (price p mod 100 = 0)%Z
  /\ (forall s, sizes p = Some s -> (length s <= 120)%nat)
  /\ (forall m, source_msg_id p = Some m ->
                m <> 0%Z /\ exists c, source_chat_id p = Some c /\ c <> 0%Z).
Proof.
  unfold product_from_forward.
  set (cap := str_or (caption msg) (str_or (text msg) [])).
  destruct (first_line cap) as [t|e] eqn:T; cbn [bind]; [|discriminate].
  destruct (parse_price cap) as [pr|e] eqn:P; cbn [bind]; [|discriminate].
  destruct (parse_sizes cap) as [sz|e] eqn:S; cbn [bind]; [|discriminate].
  intros H. injection H as <-. cbn [category brand title price sizes
                                     source_chat_id source_msg_id].
  pose proof (hashtags_spec_words cap) as Hw. rewrite <- parse_hashtags_scan in Hw.
  destruct (first_line_shape cap t T) as (T1 & T2 & _).
  split; [apply nth_tag_nonempty; [exact Hw|discriminate]|].
  split; [apply nth_tag_nonempty; [exact Hw|discriminate]|].
  split; [exact T1|]. split; [exact T2|].
  assert (Hp : (0 <= match pr with Some v => v | None => 0 end < 10 ^ 15)%Z
               /\ (match pr with Some v => v | None => 0 end mod 100 = 0)%Z).
  { destruct pr as [v|]; [apply (parse_price_bounds cap v P)|]. split; [lia|reflexivity]. }
  destruct Hp as [Hp1 Hp2]. split; [exact Hp1|]. split; [exact Hp2|].
  split.
  - intros s Hs. subst sz. apply (parse_sizes_short cap s S).
  - intros m Hm. destruct (truthy_id (forward_from_chat msg)) as [c|] eqn:C;
      [|discriminate].
    split; [apply (truthy_id_nonzero _ _ Hm)|].
    exists c. split; [reflexivity|apply (truthy_id_nonzero _ _ C)].
Qed.

Lemma product_from_forward_fields_witness :
  exists p,
    product_from_forward scenario_msg = Ok p
    /\ category p <> [] /\ brand p <> [] /\ title p <> []
    /\ (length (title p) <= 128)%nat
    /\ (0 <= price p < 10 ^ 15)%Z /\ (price p mod 100 = 0)%Z
    /\ (forall s, sizes p = Some s -> (length s <= 120)%nat)
    /\ (forall m, source_msg_id p = Some m ->
                  m <> 0%Z /\ exists c, source_chat_id p = Some c /\ c <> 0%Z).
Proof.
  destruct (product_from_forward scenario_msg) as [p|e] eqn:E.
  - exists p. split; [reflexivity|].
    apply (product_from_forward_fields scenario_msg p). exact E.
  - vm_compute in E. discriminate E.
Defined.

Lemma add_product_again (d : db) (p q : Product) (c m : Z) :
  source_unique (products d) ->
  source_chat_id p = Some c -> source_msg_id p = Some m ->
  source_chat_id q = Some c -> source_msg_id q = Some m ->
  let d1 := fst (add_product d p) in
  snd (add_product d1 q) = snd (add_product d p)
  /\ products (fst (add_product d1 q)) = products d1.
Proof.
  intros Hu Hpc Hpm Hqc Hqm d1.
  destruct (add_product_sourced d p c m Hu Hpc Hpm) as (row & F & I & _).
  fold d1 in F.
  pose proof (add_product_keeps_unique d p Hu) as Hu1. fold d1 in Hu1.
  destruct (add_product_sourced d1 q c m Hu1 Hqc Hqm) as (row' & F' & I' & K).
  assert (E : existsb (has_source c m) (products d1) = true).
  { destruct (existsb (has_source c m) (products d1)) eqn:E; [reflexivity|].
    rewrite (existsb_false_filter _ _ E) in F. discriminate. }
  specialize (K E). split; [|exact K].
  rewrite K, F in F'. congruence.
Qed.

Lemma truthy_id_some (n : Z) : n <> 0%Z -> truthy_id (Some n) = Some n.
Proof. intros H. unfold truthy_id. apply Z.eqb_neq in H. now rewrite H. Qed.

(** X17. A channel post that [on_channel_post] has stored is not stored a
    second time when the same post is later forwarded to the bot:
    [import_from_forward] reports the id of the existing row and leaves
    the products table as it was. *)
Theorem forwarded_post_not_duplicated
    (d : db) (post : ChannelPost) (msg : Message) (d1 : db) (pid : Z) :
  source_unique (products d) ->
  caption msg = cp_caption post -> text msg = cp_text post ->
  forward_from_chat msg = Some (chat_id post) ->
  forward_from_message_id msg = Some (message_id post) ->
  chat_id post <> 0%Z -> message_id post <> 0%Z ->
  on_channel_post d (Some post) = Ok (d1, Some pid) ->
  exists d2,
    import_from_forward d1 true msg = Ok (d2, Some pid)
    /\ products d2 = products d1.
Proof.
  intros Hu Hcap Htxt Hfc Hfm Hc Hm.
  unfold on_channel_post, import_from_forward, product_from_channel_post,
    product_from_forward.
  rewrite Hcap, Htxt, Hfc, Hfm, (truthy_id_some _ Hc), (truthy_id_some _ Hm).
  set (cap := str_or (cp_caption post) (str_or (cp_text post) [])).
  destruct (is_empty cap && _); [discriminate|].
  destruct (first_line cap) as [t|e]; cbn [bind]; [|discriminate].
  destruct (parse_price cap) as [pr|e]; cbn [bind]; [|discriminate].
  destruct (parse_sizes cap) as [sz|e]; cbn [bind]; [|discriminate].
  cbn [negb].
  match goal with
  | |- (let (_, _) := add_product d ?p in _) = _ ->
       exists _, (let (_, _) := add_product d1 ?q in _) = _ /\ _ =>
    set (p1 := p); set (p2 := q)
  end.
  pose proof (add_product_again d p1 p2 (chat_id post) (message_id post) Hu
                eq_refl eq_refl eq_refl eq_refl) as [A B].
  destruct (add_product d p1) as [d1' pid'] eqn:E1.
  intros H. assert (Ed : d1' = d1) by congruence.
  assert (Ep : pid' = pid) by congruence. subst d1' pid'.
  cbn [fst snd] in A, B.
  destruct (add_product d1 p2) as [d2 pid2] eqn:E2. cbn [fst snd] in A, B.
  exists d2. split; [now rewrite A|exact B].
Qed.

Lemma forwarded_post_not_duplicated_witness :
  exists d1 pid d2,
    on_channel_post shop_db
      (Some {| cp_caption := Some scenario_text; cp_text := None; cp_photo := [];
               chat_id := -1001; message_id := 7 |}) = Ok (d1, Some pid)
    /\ import_from_forward d1 true
         {| caption := Some scenario_text; text := None; photo := [];
            forward_from_chat := Some (-1001)%Z;
            forward_from_message_id := Some 7%Z |} = Ok (d2, Some pid)
    /\ products d2 = products d1.
Proof.
  set (post := {| cp_caption := Some scenario_text; cp_text := None; cp_photo := [];
                  chat_id := -1001; message_id := 7 |}).
  set (msg := {| caption := Some scenario_text; text := None; photo := [];
                 forward_from_chat := Some (-1001)%Z;
                 forward_from_message_id := Some 7%Z |}).
  destruct (on_channel_post shop_db (Some post)) as [[d1 [pid|]]|e] eqn:E.
  - exists d1, pid.
    assert (Hu : source_unique (products shop_db)).
    { intros c m. simpl. destruct (has_source c m _); simpl; lia. }
    destruct (forwarded_post_not_duplicated shop_db post msg d1 pid Hu
                eq_refl eq_refl eq_refl eq_refl
                ltac:(discriminate) ltac:(discriminate) E) as (d2 & H1 & H2).
    exists d2. auto.
  - vm_compute in E. discriminate E.
  - vm_compute in E. discriminate E.
Defined.

(** ** Integers as text *)

Lemma ascii_digit_cases (c : char) :
  ascii_digit c = true ->
  isdecimal c = true /\ digit_value c = (Z.of_N c - 48)%Z.
Proof.
  unfold ascii_digit. intros H. apply andb_true_iff in H as [H1 H2].
  apply N.leb_le in H1, H2.
  assert (E : (c = 48 \/ c = 49 \/ c = 50 \/ c = 51 \/ c = 52 \/ c = 53 \/ c = 54
               \/ c = 55 \/ c = 56 \/ c = 57)%N) by lia.
  repeat (destruct E as [E|E]; [subst c; split; vm_compute; reflexivity|]).
  subst c; split; vm_compute; reflexivity.
Qed.

Lemma ascii_digit_mod (n : N) : ascii_digit (48 + n mod 10)%N = true.
Proof.
  assert (H : (n mod 10 < 10)%N) by (apply N.mod_lt; discriminate).
  unfold ascii_digit. set (r := (n mod 10)%N) in *. clearbody r.
  apply andb_true_iff. split; apply N.leb_le; lia.
Qed.

Lemma dec_digits_app (fuel : nat) : forall (n : N) (acc : str),
  dec_digits fuel n acc = dec_digits fuel n [] ++ acc.
Proof.
  induction fuel as [|f IH]; intros n acc; cbn [dec_digits]; [reflexivity|].
  destruct (n <? 10)%N; [reflexivity|].
  rewrite (IH _ ((48 + n mod 10)%N :: acc)), (IH _ [(48 + n mod 10)%N]).
  now rewrite <- app_assoc.
Qed.

Lemma dec_digits_all (fuel : nat) : forall (n : N),
  forallb ascii_digit (dec_digits fuel n []) = true.
Proof.
  induction fuel as [|f IH]; intros n; cbn [dec_digits]; [reflexivity|].
  destruct (n <? 10)%N.
  - cbn [forallb]. now rewrite ascii_digit_mod.
  - rewrite dec_digits_app, forallb_app, IH. cbn [forallb].
    now rewrite ascii_digit_mod.
Qed.

Lemma dec_digits_length (fuel : nat) : forall (n : N),
  (1 <= length (dec_digits (S fuel) n []) <= S fuel)%nat.
Proof.
  induction fuel as [|f IH]; intros n.
  - cbn [dec_digits]. destruct (n <? 10)%N; simpl; lia.
  - change (dec_digits (S (S f)) n [])
      with (if (n <? 10)%N then [(48 + n mod 10)%N]
            else dec_digits (S f) (n / 10) [(48 + n mod 10)%N]).
    destruct (n <? 10)%N; [simpl; lia|].
    rewrite dec_digits_app, length_app. specialize (IH (n / 10)%N).
    change (length [(48 + n mod 10)%N]) with 1%nat. lia.
Qed.

Lemma digits_value_snoc (l : str) (c : char) :
  digits_value (l ++ [c]) = (digits_value l * 10 + digit_value c)%Z.
Proof. unfold digits_value. now rewrite fold_left_app. Qed.

Lemma dec_digits_value (fuel : nat) : forall (n : N),
  (n < 10 ^ N.of_nat fuel)%N ->
  digits_value (dec_digits fuel n []) = Z.of_N n.
Proof.
  induction fuel as [|f IH]; intros n H.
  - simpl in H. assert (n = 0%N) by lia. subst n. reflexivity.
  - cbn [dec_digits].
    pose proof (ascii_digit_cases _ (ascii_digit_mod n)) as [_ D].
    pose proof (N.div_mod n 10 ltac:(discriminate)) as E.
    assert (M : (n mod 10 < 10)%N) by (apply N.mod_lt; discriminate).
    destruct (n <? 10)%N eqn:L.
    + apply N.ltb_lt in L. rewrite (N.mod_small n 10 L) in *.
      unfold digits_value. cbn [fold_left]. rewrite D. lia.
    + rewrite dec_digits_app, digits_value_snoc, D, IH.
      * set (q := (n / 10)%N) in *. set (r := (n mod 10)%N) in *.
        clearbody q r. lia.
      * rewrite Nat2N.inj_succ, N.pow_succ_r' in H.
        apply N.Div0.div_lt_upper_bound. exact H.
Qed.

Lemma str_of_N_value (n : N) : digits_value (str_of_N n) = Z.of_N n.
Proof.
  unfold str_of_N. apply dec_digits_value.
  rewrite Nat2N.inj_succ, N2Nat.id.
  destruct n as [|p]; [reflexivity|].
  pose proof (N.log2_spec (N.pos p) ltac:(reflexivity)) as [_ H].
  eapply N.lt_le_trans; [exact H|].
  apply N.pow_le_mono_l. lia.
Qed.

Lemma str_of_N_digits (n : N) : forallb ascii_digit (str_of_N n) = true.
Proof. apply dec_digits_all. Qed.

Lemma str_of_N_length (n : N) :
  (1 <= length (str_of_N n) <= S (N.to_nat (N.log2 n)))%nat.
Proof. apply dec_digits_length. Qed.

Lemma drop_while_none (p : char -> bool) (s : str) :
  (forall c, In c s -> p c = false) -> drop_while p s = s.
Proof.
  destruct s as [|c s]; [reflexivity|]. intros H. cbn [drop_while].
  now rewrite (H c (or_introl eq_refl)).
Qed.

Lemma int_space_not_decimal (c : char) : isdecimal c = true -> int_space c = false.
Proof.
  intros H. unfold int_space. destruct (isspace c) eqn:S; [|reflexivity].
  rewrite (space_not_decimal c S) in H. discriminate.
Qed.

Lemma int_body_decimal (s : str) : forall b,
  forallb isdecimal s = true -> s <> [] -> int_body_ok b s = true.
Proof.
  induction s as [|c s IH]; intros b H Hne; [congruence|].
  cbn [forallb] in H. apply andb_true_iff in H as [Hc Hs].
  cbn [int_body_ok]. rewrite Hc. destruct s as [|c' s]; [reflexivity|].
  apply IH; [exact Hs|discriminate].
Qed.

Lemma trim_none (s : str) :
  (forall c, In c s -> int_space c = false) ->
  rev (drop_while int_space (rev (drop_while int_space s))) = s.
Proof.
  intros H. rewrite (drop_while_none _ s H), drop_while_none.
  - apply rev_involutive.
  - intros c Hc. apply H. now apply in_rev.
Qed.

Lemma int_sign_plain (c : char) (r : str) :
  (c =? 45)%N = false -> (c =? 43)%N = false -> int_sign (c :: r) = (false, c :: r).
Proof. intros H1 H2. unfold int_sign. now rewrite H1, H2. Qed.

Lemma decimal_no_sign (c : char) :
  isdigit c = true -> (c =? 45)%N = false /\ (c =? 43)%N = false /\ (c =? 95)%N = false.
Proof.
  intros H. repeat split; apply N.eqb_neq; intros ->; vm_compute in H; discriminate.
Qed.

(** [int] on a string of decimal digits, with or without a minus sign. *)
Lemma int_of_decimal (s : str) :
  forallb isdecimal s = true -> s <> [] -> (length s <= max_str_digits)%nat ->
  int_of_str s = Ok (digits_value s)
  /\ int_of_str (45%N :: s) = Ok (- digits_value s)%Z.
Proof.
  intros H Hne Hl.
  assert (Hs : forall c, In c s -> int_space c = false).
  { intros c Hc. apply int_space_not_decimal.
    rewrite forallb_forall in H. now apply H. }
  assert (F : filter isdecimal s = s).
  { apply filter_all. now rewrite forallb_forall in H. }
  apply Nat.leb_le in Hl.
  split; unfold int_of_str.
  - rewrite (trim_none s Hs).
    destruct s as [|c r]; [congruence|].
    assert (Hc : isdecimal c = true).
    { cbn [forallb] in H. now apply andb_true_iff in H as [H _]. }
    destruct (decimal_no_sign c (decimal_is_digit c Hc)) as (N1 & N2 & _).
    rewrite (int_sign_plain c r N1 N2). cbn [fst snd].
    now rewrite F, (int_body_decimal (c :: r) false H Hne), Hl.
  - rewrite (trim_none (45%N :: s)).
    + change (int_sign (45%N :: s)) with (true, s). cbn [fst snd].
      now rewrite F, (int_body_decimal s false H Hne), Hl.
    + intros c [<-|Hc]; [vm_compute; reflexivity|now apply Hs].
Qed.

Lemma ascii_digits_decimal (s : str) :
  forallb ascii_digit s = true -> forallb isdecimal s = true.
Proof.
  rewrite !forallb_forall. intros H c Hc. now apply ascii_digit_cases, H.
Qed.

Lemma int_of_str_of_int (z : Z) (s : str) :
  str_of_int z = Ok s -> int_of_str s = Ok z.
Proof.
  unfold str_of_int.
  destruct (max_str_digits <? length (str_of_N (Z.abs_N z)))%nat eqn:L; [discriminate|].
  apply Nat.ltb_ge in L.
  pose proof (str_of_N_length (Z.abs_N z)) as [Hl _].
  assert (Hne : str_of_N (Z.abs_N z) <> []).
  { intros E. rewrite E in Hl. simpl in Hl. lia. }
  destruct (int_of_decimal _ (ascii_digits_decimal _ (str_of_N_digits (Z.abs_N z)))
              Hne L) as [P M].
  rewrite str_of_N_value in P, M.
  destruct (z <? 0)%Z eqn:Zn; intros H; injection H as <-.
  - rewrite M. f_equal. apply Z.ltb_lt in Zn. lia.
  - rewrite P. f_equal. apply Z.ltb_ge in Zn. lia.
Qed.

Lemma str_of_int_sqlite (z : Z) :
  sqlite_int z -> exists s, str_of_int z = Ok s.
Proof.
  intros [Lo Hi]. unfold str_of_int.
  pose proof (str_of_N_length (Z.abs_N z)) as [_ Hl].
  assert (B : (N.log2 (Z.abs_N z) < 64)%N).
  { destruct (Z.abs_N z) as [|p] eqn:E; [reflexivity|].
    apply N.log2_lt_pow2; [reflexivity|]. rewrite <- E.
    change (2 ^ 64)%N with (Z.to_N (2 ^ 64)). lia. }
  assert (L : (max_str_digits <? length (str_of_N (Z.abs_N z)))%nat = false).
  { apply Nat.ltb_ge. unfold max_str_digits. lia. }
  rewrite L. eauto.
Qed.

(** ** Callback data *)

Lemma split_aux_run (sep : char) (a : str) : forall (cur s : str),
  ~ In sep a -> split_aux sep cur (a ++ s) = split_aux sep (rev a ++ cur) s.
Proof.
  induction a as [|c a IH]; intros cur s H; [reflexivity|].
  cbn [app split_aux].
  assert (E : (c =? sep)%N = false).
  { apply N.eqb_neq. intros ->. apply H. now left. }
  rewrite E, IH by (intros K; apply H; now right).
  cbn [rev]. now rewrite <- app_assoc.
Qed.

Lemma split_on_cons (sep : char) (a s : str) :
  ~ In sep a -> split_on sep (a ++ sep :: s) = a :: split_on sep s.
Proof.
  intros H. unfold split_on. rewrite (split_aux_run sep a [] _ H).
  cbn [split_aux]. now rewrite N.eqb_refl, app_nil_r, rev_involutive.
Qed.

Lemma split_on_last (sep : char) (a : str) : ~ In sep a -> split_on sep a = [a].
Proof.
  intros H. unfold split_on. rewrite <- (app_nil_r a) at 1.
  rewrite (split_aux_run sep a [] _ H). cbn [split_aux].
  now rewrite app_nil_r, rev_involutive.
Qed.

Lemma startswith_app (p s : str) : startswith p (p ++ s) = true.
Proof. induction p as [|c p IH]; [reflexivity|]. simpl. now rewrite N.eqb_refl. Qed.

Lemma str_of_int_chars (z : Z) (s : str) (c : char) :
  str_of_int z = Ok s -> In c s -> ascii_digit c = true \/ c = 45%N.
Proof.
  unfold str_of_int. destruct (_ <? _)%nat; [discriminate|].
  pose proof (str_of_N_digits (Z.abs_N z)) as D. rewrite forallb_forall in D.
  destruct (z <? 0)%Z; intros H; injection H as <-; intros Hc.
  - destruct Hc as [<-|Hc]; [now right|left; now apply D].
  - left. now apply D.
Qed.

Lemma str_of_int_plain (z : Z) (s : str) (sep : char) :
  str_of_int z = Ok s -> ascii_digit sep = false -> sep <> 45%N -> ~ In sep s.
Proof.
  intros H D N K. destruct (str_of_int_chars z s sep H K) as [E|E]; congruence.
Qed.

Lemma callback_pid_of (prefix s : str) (z : Z) :
  ~ In COLON prefix -> str_of_int z = Ok s ->
  callback_pid (prefix ++ COLON :: s) = Ok z.
Proof.
  intros Hp Hs. unfold callback_pid.
  rewrite (split_on_cons COLON prefix s Hp).
  rewrite (split_on_last COLON s).
  - cbn [nth_error]. apply (int_of_str_of_int z s Hs).
  - apply (str_of_int_plain z s COLON Hs); [reflexivity|discriminate].
Qed.

(** X18. The buttons under a product card act on that product: for an id
    that SQLite can hold, [product_inline_kb] builds its keyboard, and
    [on_cb] answers the data of the first button by adding exactly this
    product to the cart of the user who pressed it, and the data of the
    second by adding it to their wardrobe; the deep link, when the bot
    name is set, carries an argument for which [start] looks up this
    product. *)
Theorem product_buttons_act (s : shop) (user pid : Z) (bot mgr : str) :
  sqlite_int pid ->
  exists l1 buy l2 ward rest,
    product_inline_kb bot mgr pid
    = Ok ([CallbackButton l1 buy; CallbackButton l2 ward] :: rest)
    /\ on_cb s user buy
       = Ok ({| store := add_to_cart (store s) user pid; wardrobe := wardrobe s |}, [])
    /\ on_cb s user ward
       = Ok ({| store := store s;
                wardrobe := add_to_wardrobe (wardrobe s) user pid |}, [])
    /\ (bot <> [] ->
        exists l3 arg,
          last rest [] = [UrlButton l3 (u "https://t.me/" ++ bot ++ u "?start=" ++ arg)]
          /\ start_product (store s) [arg] = get_product_by_id (store s) pid).
Proof.
  intros Hp. destruct (str_of_int_sqlite pid Hp) as [t Ht].
  unfold product_inline_kb. rewrite Ht. cbn [bind].
  exists (u "🛒 Купить"), (u "buy:" ++ t), (u "👗 В гардероб"), (u "wardrobe:" ++ t).
  exists ([UrlButton (u "👤 Написать менеджеру") (u "https://t.me/" ++ mgr)]
          :: match bot with
             | [] => []
             | _ => [[UrlButton (u "🔗 Открыть в боте")
                        (u "https://t.me/" ++ bot ++ u "?start=prd_" ++ t)]]
             end).
  split; [destruct bot; reflexivity|].
  split; [|split].
  - unfold on_cb. rewrite startswith_app.
    change (u "buy:" ++ t) with (u "buy" ++ COLON :: t).
    rewrite (callback_pid_of (u "buy") t pid); [reflexivity| |exact Ht].
    intros K. vm_compute in K. intuition discriminate.
  - unfold on_cb.
    assert (E : startswith (u "buy:") (u "wardrobe:" ++ t) = false) by reflexivity.
    rewrite E, startswith_app.
    change (u "wardrobe:" ++ t) with (u "wardrobe" ++ COLON :: t).
    rewrite (callback_pid_of (u "wardrobe") t pid); [reflexivity| |exact Ht].
    intros K. vm_compute in K. intuition discriminate.
  - intros Hb. exists (u "🔗 Открыть в боте"), (u "prd_" ++ t).
    split.
    + destruct bot as [|c b]; [congruence|]. cbn [app last].
      change (u "?start=prd_") with (u "?start=" ++ u "prd_").
      now rewrite <- !app_assoc.
    + unfold start_product. rewrite startswith_app.
      change (u "prd_" ++ t) with (u "prd" ++ @cons char 95%N t).
      rewrite (split_on_cons 95%N (u "prd") t).
      * rewrite (split_on_last 95%N t).
        -- cbn [nth_error]. now rewrite (int_of_str_of_int pid t Ht).
        -- apply (str_of_int_plain pid t 95%N Ht); [reflexivity|discriminate].
      * intros K. vm_compute in K. intuition discriminate.
Qed.

Lemma product_buttons_act_witness :
  exists l1 buy l2 ward rest,
    product_inline_kb (u "th_shop_bot") (u "Granku56") 2
    = Ok ([CallbackButton l1 buy; CallbackButton l2 ward] :: rest)
    /\ on_cb {| store := shop_db; wardrobe := [] |} 10 buy
       = Ok ({| store := add_to_cart shop_db 10 2; wardrobe := [] |}, [])
    /\ on_cb {| store := shop_db; wardrobe := [] |} 10 ward
       = Ok ({| store := shop_db; wardrobe := add_to_wardrobe [] 10 2 |}, [])
    /\ (u "th_shop_bot" <> [] ->
        exists l3 arg,
          last rest []
          = [UrlButton l3 (u "https://t.me/" ++ u "th_shop_bot" ++ u "?start=" ++ arg)]
          /\ start_product shop_db [arg] = get_product_by_id shop_db 2).
Proof.
  apply (product_buttons_act {| store := shop_db; wardrobe := [] |} 10 2
           (u "th_shop_bot") (u "Granku56")).
  unfold sqlite_int. lia.
Defined.

(** ** The "more" button *)

Lemma morebrand_split (cat brand off : str) :
  ~ In COLON cat -> ~ In COLON brand -> ~ In COLON off ->
  split_on COLON (u "morebrand:" ++ cat ++ [COLON] ++ brand ++ [COLON] ++ off)
  = [u "morebrand"; cat; brand; off].
Proof.
  intros Hc Hb Ho.
  change (u "morebrand:" ++ cat ++ [COLON] ++ brand ++ [COLON] ++ off)
    with (u "morebrand" ++ COLON :: cat ++ COLON :: brand ++ COLON :: off).
  rewrite split_on_cons by (intros K; vm_compute in K; intuition discriminate).
  rewrite (split_on_cons COLON cat _ Hc), (split_on_cons COLON brand _ Hb).
  now rewrite (split_on_last COLON off Ho).
Qed.

(** X19. The data of the "more" button of a page is read back by [on_cb]
    as the same category and brand and the offset of the next page, when
    neither name contains a colon; the page that [on_cb] then shows is
    taken at that offset without the price and size filters of the page
    the button came from. *)
Theorem more_button_next_page
    (s : shop) (user : Z) (cat brand : str) (offset : Z)
    (pf pt : option Z) (sz : option str) (items : list Product) (data : str) :
  no_colon cat -> no_colon brand ->
  show_products_by_brand (store s) cat brand offset pf pt sz = Ok (items, Some data) ->
  morebrand_args data = Ok (cat, brand, (offset + 6)%Z)
  /\ on_cb s user data
     = (r <- show_products_by_brand (store s) cat brand (offset + 6) None None None ;;
        Ok (s, fst r)).
Proof.
  intros Hc Hb. unfold show_products_by_brand.
  set (page := list_products _ _ offset 6). clearbody page.
  assert (K : (off <- str_of_int (offset + 6) ;;
               Ok (page,
                   Some (u "morebrand:" ++ cat ++ [COLON] ++ brand ++ [COLON] ++ off)))
              = Ok (items, Some data) ->
              exists off, str_of_int (offset + 6) = Ok off
                /\ data = u "morebrand:" ++ cat ++ [COLON] ++ brand ++ [COLON] ++ off).
  { destruct (str_of_int (offset + 6)) as [off|e]; cbn [bind]; [|discriminate].
    intros H. exists off. split; [reflexivity|congruence]. }
  intros H.
  assert (H' : exists off, str_of_int (offset + 6) = Ok off
                /\ data = u "morebrand:" ++ cat ++ [COLON] ++ brand ++ [COLON] ++ off).
  { destruct page as [|p page]; [destruct (offset =? 0)%Z; [discriminate|]|];
      apply K, H. }
  clear H K. destruct H' as (off & Ho & ->).
  assert (Hoff : ~ In COLON off).
  { apply (str_of_int_plain _ off COLON Ho); [reflexivity|discriminate]. }
  assert (A : morebrand_args
                (u "morebrand:" ++ cat ++ [COLON] ++ brand ++ [COLON] ++ off)
              = Ok (cat, brand, (offset + 6)%Z)).
  { unfold morebrand_args. rewrite (morebrand_split cat brand off Hc Hb Hoff).
    cbn [nth_error]. now rewrite (int_of_str_of_int _ off Ho). }
  split; [exact A|].
  unfold on_cb.
  assert (E1 : startswith (u "buy:") (u "morebrand:" ++ cat ++ [COLON] ++ brand
                                        ++ [COLON] ++ off) = false) by reflexivity.
  assert (E2 : startswith (u "wardrobe:") (u "morebrand:" ++ cat ++ [COLON] ++ brand
                                             ++ [COLON] ++ off) = false) by reflexivity.
  rewrite E1, E2, startswith_app, A. reflexivity.
Qed.

Lemma more_button_next_page_witness :
  exists items data,
    show_products_by_brand catalog_db (u "Jackets") (u "Nike") 0
      (Some 100000%Z) None None = Ok (items, Some data)
    /\ morebrand_args data = Ok (u "Jackets", u "Nike", 6%Z)
    /\ on_cb {| store := catalog_db; wardrobe := [] |} 10 data
       = (r <- show_products_by_brand catalog_db (u "Jackets") (u "Nike") (0 + 6)
                 None None None ;;
          Ok ({| store := catalog_db; wardrobe := [] |}, fst r)).
Proof.
  destruct (show_products_by_brand catalog_db (u "Jackets") (u "Nike") 0
              (Some 100000%Z) None None) as [[items [data|]]|e] eqn:E.
  - exists items, data. split; [reflexivity|].
    apply (more_button_next_page {| store := catalog_db; wardrobe := [] |} 10
             (u "Jackets") (u "Nike") 0 (Some 100000%Z) None None items data).
    + intros K. vm_compute in K. intuition discriminate.
    + intros K. vm_compute in K. intuition discriminate.
    + exact E.
  - vm_compute in E. discriminate E.
  - vm_compute in E. discriminate E.
Defined.

Lemma first_sep (sep : char) (s : str) :
  In sep s -> exists a r, s = a ++ sep :: r /\ ~ In sep a.
Proof.
  induction s as [|c s IH]; intros H; [destruct H|].
  destruct (N.eq_dec c sep) as [->|N].
  - exists [], s. split; [reflexivity|intros []].
  - destruct H as [H|H]; [congruence|].
    destruct (IH H) as (a & r & -> & Ha).
    exists (c :: a), r. split; [reflexivity|].
    intros [K|K]; [congruence|auto].
Qed.

(** X20. A colon in the category breaks the "more" button: whatever
    [on_cb] reads back from its data, the category is not the one the
    page was shown for. *)
Theorem more_button_colon
    (d : db) (cat brand : str) (offset : Z)
    (pf pt : option Z) (sz : option str) (items : list Product) (data : str)
    (cat' brand' : str) (off' : Z) :
  In COLON cat ->
  show_products_by_brand d cat brand offset pf pt sz = Ok (items, Some data) ->
  morebrand_args data = Ok (cat', brand', off') ->
  cat' <> cat.
Proof.
  intros Hc. unfold show_products_by_brand.
  set (page := list_products _ _ offset 6). clearbody page.
  intros H.
  assert (H' : exists off,
             data = u "morebrand:" ++ cat ++ [COLON] ++ brand ++ [COLON] ++ off).
  { assert (K : (off <- str_of_int (offset + 6) ;;
                 Ok (page,
                     Some (u "morebrand:" ++ cat ++ [COLON] ++ brand ++ [COLON] ++ off)))
                = Ok (items, Some data) ->
                exists off,
                  data = u "morebrand:" ++ cat ++ [COLON] ++ brand ++ [COLON] ++ off).
    { destruct (str_of_int (offset + 6)) as [off|e]; cbn [bind]; [|discriminate].
      intros E. exists off. congruence. }
    destruct page as [|p page]; [destruct (offset =? 0)%Z; [discriminate|]|];
      apply K, H. }
  clear H. destruct H' as (off & ->).
  destruct (first_sep COLON cat Hc) as (a & r & -> & Ha).
  unfold morebrand_args.
  change (u "morebrand:" ++ (a ++ COLON :: r) ++ [COLON] ++ brand ++ [COLON] ++ off)
    with (u "morebrand" ++ COLON :: (a ++ COLON :: r) ++ [COLON] ++ brand ++ [COLON] ++ off).
  rewrite split_on_cons by (intros K; vm_compute in K; intuition discriminate).
  rewrite <- app_assoc. cbn [app].
  rewrite (split_on_cons COLON a _ Ha). cbn [nth_error].
  set (rest := split_on COLON _). clearbody rest.
  destruct rest as [|b [|o rest]]; cbn [nth_error]; try discriminate.
  destruct (int_of_str o); cbn [bind]; [|discriminate].
  intros E. assert (E' : cat' = a) by congruence. subst cat'.
  intros K. apply (f_equal (@length char)) in K.
  rewrite length_app in K. simpl in K. lia.
Qed.

Lemma more_button_colon_witness :
  exists items data,
    show_products_by_brand shop_db (u "Men:Jackets") (u "501") 6 None None None
    = Ok (items, Some data)
    /\ morebrand_args data = Ok (u "Men", u "Jackets", 501%Z)
    /\ u "Men" <> u "Men:Jackets".
Proof.
  destruct (show_products_by_brand shop_db (u "Men:Jackets") (u "501") 6
              None None None) as [[items [data|]]|e] eqn:E.
  - exists items, data.
    assert (M : morebrand_args data = Ok (u "Men", u "Jackets", 501%Z)).
    { vm_compute in E. injection E as <- <-. vm_compute. reflexivity. }
    split; [reflexivity|]. split; [exact M|].
    apply (more_button_colon shop_db (u "Men:Jackets") (u "501") 6 None None None
             items data (u "Men") (u "Jackets") 501%Z); [|exact E|exact M].
    vm_compute. auto 10.
  - vm_compute in E. discriminate E.
  - vm_compute in E. discriminate E.
Defined.

(** ** The [/filter] command *)

Lemma digit_not_space (c : char) : isdigit c = true -> isspace c = false.
Proof.
  intros H. apply negb_true_iff. revert c H.
  apply (ranges_all digit_ranges (fun c => negb (isspace c))).
  vm_compute. reflexivity.
Qed.

Lemma int_body_not_decimal (s : str) : forall b,
  forallb isdigit s = true -> forallb isdecimal s = false -> int_body_ok b s = false.
Proof.
  induction s as [|c s IH]; intros b H D; [discriminate|].
  cbn [forallb] in H, D. apply andb_true_iff in H as [Hc Hs].
  cbn [int_body_ok]. destruct (isdecimal c) eqn:E.
  - apply IH; [exact Hs|exact D].
  - destruct (decimal_no_sign c Hc) as (_ & _ & U). now rewrite U.
Qed.

Lemma int_of_digit_not_decimal (a : str) :
  str_isdigit a = true -> forallb isdecimal a = false ->
  int_of_str a = Raise ValueError.
Proof.
  intros H D. unfold str_isdigit in H. destruct a as [|c r]; [discriminate|].
  assert (Hs : forall x, In x (c :: r) -> int_space x = false).
  { intros x Hx. rewrite forallb_forall in H. unfold int_space.
    now rewrite (digit_not_space x (H x Hx)). }
  unfold int_of_str. rewrite (trim_none (c :: r) Hs).
  assert (Hc : isdigit c = true).
  { cbn [forallb] in H. now apply andb_true_iff in H as [H _]. }
  destruct (decimal_no_sign c Hc) as (N1 & N2 & _).
  rewrite (int_sign_plain c r N1 N2). cbn [fst snd].
  now rewrite (int_body_not_decimal (c :: r) false H D).
Qed.

(** X21. [/filter] with a first bound that [str.isdigit] accepts but that
    does not consist of decimal digits (a superscript digit, say) raises
    ValueError: [int] does not read what [isdigit] let through. *)
Theorem filter_command_raises (txt cmd a : str) (rest : list str) :
  split_ws txt = cmd :: a :: rest ->
  str_isdigit a = true -> forallb isdecimal a = false ->
  filter_command txt = Raise ValueError.
Proof.
  intros S H D. unfold filter_command, filter_bound. rewrite S. cbn [nth_error].
  now rewrite H, (int_of_digit_not_decimal a H D).
Qed.

Lemma filter_command_raises_witness :
  filter_command (u "/filter 10² 5000") = Raise ValueError.
Proof.
  apply (filter_command_raises (u "/filter 10² 5000") (u "/filter") (u "10²")
           [u "5000"]); vm_compute; reflexivity.
Defined.

(** X22. [/filter] with two bounds of decimal digits stores both bounds
    in kopecks, a hundred times the numbers written. *)
Theorem filter_command_bounds (txt cmd a b : str) (rest : list str) :
  split_ws txt = cmd :: a :: b :: rest ->
  a <> [] -> forallb isdecimal a = true -> (length a <= max_str_digits)%nat ->
  b <> [] -> forallb isdecimal b = true -> (length b <= max_str_digits)%nat ->
  filter_command txt
  = Ok (Some (digits_value a * 100)%Z, Some (digits_value b * 100)%Z).
Proof.
  intros S Ha Da La Hb Db Lb. unfold filter_command, filter_bound. rewrite S.
  cbn [nth_error].
  assert (I : forall s, s <> [] -> forallb isdecimal s = true -> str_isdigit s = true).
  { intros s Hs Ds. unfold str_isdigit. destruct s as [|c r]; [congruence|].
    rewrite forallb_forall in *. intros x Hx. apply decimal_is_digit, Ds, Hx. }
  rewrite (I a Ha Da), (I b Hb Db).
  destruct (int_of_decimal a Da Ha La) as [-> _].
  destruct (int_of_decimal b Db Hb Lb) as [-> _].
  reflexivity.
Qed.

Lemma filter_command_bounds_witness :
  filter_command (u "/filter 1000 5000") = Ok (Some 100000%Z, Some 500000%Z).
Proof.
  apply (filter_command_bounds (u "/filter 1000 5000") (u "/filter") (u "1000")
           (u "5000") []);
    try (vm_compute; reflexivity); try discriminate;
    unfold max_str_digits; simpl; lia.
Defined.

(** ** Reply keyboards *)

Lemma rows_of_two_both (l : list str) :
  (concat (rows_of_two l) = l
   /\ Forall (fun row => (1 <= length row <= 2)%nat) (rows_of_two l)
   /\ length (rows_of_two l) = Nat.div2 (S (length l)))
  /\ forall a,
      concat (rows_of_two (a :: l)) = a :: l
      /\ Forall (fun row => (1 <= length row <= 2)%nat) (rows_of_two (a :: l))
      /\ length (rows_of_two (a :: l)) = Nat.div2 (S (S (length l))).
Proof.
  induction l as [|b l [IH1 IH2]].
  - split; [repeat split; constructor|].
    intros a. repeat split. repeat constructor.
  - split; [apply IH2|].
    intros a. destruct IH1 as (C & F & L). cbn [rows_of_two concat app length].
    rewrite C. split; [reflexivity|]. split.
    + constructor; [simpl; lia|exact F].
    + rewrite L. reflexivity.
Qed.

(** Row [i] of the layout holds the categories [2i] and [2i+1], as far as
    they exist. *)
Lemma rows_of_two_nth (l : list str) :
  (forall i, nth_error (rows_of_two l) i
             = match nth_error l (2 * i), nth_error l (2 * i + 1) with
               | Some a, Some b => Some [a; b]
               | Some a, None => Some [a]
               | None, _ => None
               end)
  /\ forall a i, nth_error (rows_of_two (a :: l)) i
                 = match nth_error (a :: l) (2 * i), nth_error (a :: l) (2 * i + 1) with
                   | Some x, Some y => Some [x; y]
                   | Some x, None => Some [x]
                   | None, _ => None
                   end.
Proof.
  induction l as [|b l [IH1 IH2]].
  - split.
    + intros i. cbn [rows_of_two]. now rewrite !nth_error_nil.
    + intros a [|i]; [reflexivity|].
      replace (2 * S i)%nat with (S (S (2 * i))) by lia.
      cbn [rows_of_two nth_error]. now rewrite !nth_error_nil.
  - split; [apply IH2|].
    intros a [|i]; [reflexivity|].
    replace (2 * S i + 1)%nat with (S (S (2 * i + 1))) by lia.
    replace (2 * S i)%nat with (S (S (2 * i))) by lia.
    cbn [rows_of_two nth_error]. apply IH1.
Qed.

(** X23. [build_categories_kb] lays the categories out in their order,
    two to a row: row [i] holds the categories [2i] and [2i+1], the last
    category row holds one category when their number is odd, and the two
    service rows follow at once; no category is lost or repeated.  Without
    categories it shows the four default ones. *)
Theorem build_categories_kb_layout (categories : list str) :
  let shown :=
    match categories with
    | [] => [u "🧥 Куртки"; u "👕 Одежда"; u "👖 Джинсы"; u "👟 Кроссовки"]
    | _ => categories
    end in
  (forall i,
      nth_error (build_categories_kb categories) i
      = match nth_error shown (2 * i), nth_error shown (2 * i + 1) with
        | Some a, Some b => Some [a; b]
        | Some a, None => Some [a]
        | None, _ =>
          nth_error [[BTN_CART; BTN_WARDROBE]; [BTN_ORDERS; BTN_FEEDBACK]]
                    (i - Nat.div2 (S (length shown)))
        end)
  /\ concat (build_categories_kb categories)
     = shown ++ [BTN_CART; BTN_WARDROBE; BTN_ORDERS; BTN_FEEDBACK]
  /\ Forall (fun row => (1 <= length row <= 2)%nat) (build_categories_kb categories)
  /\ length (build_categories_kb categories) = (Nat.div2 (S (length shown)) + 2)%nat.
Proof.
  intros shown. unfold build_categories_kb. fold shown.
  destruct (rows_of_two_both shown) as [(C & F & L) _].
  split.
  - intros i. destruct (rows_of_two_nth shown) as [N _]. specialize (N i).
    destruct (nth_error shown (2 * i)) as [a|] eqn:E.
    + rewrite nth_error_app1; [exact N|].
      apply nth_error_Some. rewrite N.
      destruct (nth_error shown (2 * i + 1)); discriminate.
    + apply nth_error_None in N.
      rewrite nth_error_app2 by exact N. now rewrite L.
  - rewrite concat_app, C, length_app, L. split; [reflexivity|]. split; [|reflexivity].
    apply Forall_app. split; [exact F|]. repeat constructor.
Qed.

(** ** [price_fmt] *)

Lemma filter_comma_to_space (l : str) :
  filter isdecimal (map comma_to_space l) = filter isdecimal l.
Proof.
  induction l as [|c l IH]; [reflexivity|]. cbn [map filter]. rewrite IH.
  unfold comma_to_space. destruct (c =? 44)%N eqn:E; [|reflexivity].
  apply N.eqb_eq in E. subst c. reflexivity.
Qed.

Lemma filter_group_rev (l : str) : forall k,
  forallb isdecimal l = true -> filter isdecimal (group_rev k l) = l.
Proof.
  induction l as [|c l IH]; intros k H; [reflexivity|].
  cbn [forallb] in H. apply andb_true_iff in H as [Hc Hl].
  cbn [group_rev]. destruct l as [|c' l']; [cbn [filter]; now rewrite Hc|].
  destruct (k =? 2)%nat.
  - cbn [filter]. rewrite Hc.
    change (isdecimal 44%N) with false. cbv iota.
    f_equal. apply (IH 0%nat Hl).
  - cbn [filter]. rewrite Hc. f_equal. apply (IH (S k) Hl).
Qed.

Lemma forallb_rev_char (f : char -> bool) (l : str) :
  forallb f l = true -> forallb f (rev l) = true.
Proof.
  rewrite !forallb_forall. intros H c Hc. apply H. now apply in_rev.
Qed.

Lemma two_digits_ok (k : Z) :
  (0 <= k < 100)%Z ->
  forallb isdecimal (two_digits k) = true
  /\ forall v, fold_left (fun acc c => acc * 10 + digit_value c)%Z (two_digits k) v
               = (v * 100 + k)%Z.
Proof.
  intros H. unfold two_digits.
  assert (A : forall r, (0 <= r < 10)%Z -> ascii_digit (48 + Z.to_N r)%N = true).
  { intros r Hr. unfold ascii_digit. apply andb_true_iff.
    split; apply N.leb_le; lia. }
  assert (H1 : (0 <= k / 10 < 10)%Z).
  { split; [apply Z.div_pos; lia|apply Z.div_lt_upper_bound; lia]. }
  assert (H2 : (0 <= k mod 10 < 10)%Z) by (apply Z.mod_pos_bound; lia).
  destruct (ascii_digit_cases _ (A _ H1)) as [D1 V1].
  destruct (ascii_digit_cases _ (A _ H2)) as [D2 V2].
  split.
  - cbn [forallb]. now rewrite D1, D2.
  - intros v. cbn [fold_left]. rewrite V1, V2.
    pose proof (Z.div_mod k 10 ltac:(lia)) as E.
    set (q := (k / 10)%Z) in *. set (r := (k mod 10)%Z) in *. clearbody q r. lia.
Qed.

Lemma ok_inj {A} (a b : A) : Ok a = Ok b -> a = b.
Proof. intros H. now injection H. Qed.

(** X24. For an amount of 0 or more, [price_fmt] returns a text whose
    decimal digits, read as one number, are the amount in kopecks, and
    which holds no comma. *)
Theorem price_fmt_digits (p : Z) (s : str) :
  (0 <= p)%Z -> price_fmt p = Ok s ->
  digits_value (sub_nondigits s) = p
  /\ forallb (fun c => negb (c =? 44)%N) s = true.
Proof.
  intros Hp. unfold price_fmt, format_grouped.
  assert (Hr : (0 <= p / 100)%Z) by (apply Z.div_pos; lia).
  assert (Hk : (0 <= p mod 100 < 100)%Z) by (apply Z.mod_pos_bound; lia).
  destruct (_ <? _)%nat; cbn [bind]; [discriminate|].
  assert (Zn : (p / 100 <? 0)%Z = false) by (apply Z.ltb_ge; lia).
  rewrite Zn. intros H. apply ok_inj in H. subst s. split.
  - unfold sub_nondigits. rewrite filter_comma_to_space, !filter_app.
    pose proof (ascii_digits_decimal _ (str_of_N_digits (Z.abs_N (p / 100)))) as D.
    rewrite filter_rev_char, (filter_group_rev _ 0%nat (forallb_rev_char _ _ D)).
    rewrite rev_involutive.
    destruct (two_digits_ok (p mod 100) Hk) as [T V].
    assert (F : filter isdecimal (two_digits (p mod 100)) = two_digits (p mod 100)).
    { apply filter_all. now rewrite forallb_forall in T. }
    rewrite F.
    change (filter isdecimal (u ".")) with (@nil char).
    change (filter isdecimal (u " ₽")) with (@nil char).
    rewrite app_nil_r. cbn [app].
    unfold digits_value. rewrite fold_left_app, V.
    fold (digits_value (str_of_N (Z.abs_N (p / 100)))). rewrite str_of_N_value.
    pose proof (Z.div_mod p 100 ltac:(lia)) as E.
    set (q := (p / 100)%Z) in *. set (r := (p mod 100)%Z) in *. clearbody q r. lia.
  - apply forallb_forall. intros c Hc. apply in_map_iff in Hc as (x & <- & _).
    unfold comma_to_space. destruct (x =? 44)%N eqn:E; [reflexivity|now rewrite E].
Qed.

Lemma price_fmt_digits_witness :
  exists s,
    price_fmt 499000 = Ok s
    /\ digits_value (sub_nondigits s) = 499000%Z
    /\ forallb (fun c => negb (c =? 44)%N) s = true.
Proof.
  destruct (price_fmt 499000) as [s|e] eqn:E.
  - exists s. split; [reflexivity|].
    apply (price_fmt_digits 499000 s); [lia|exact E].
  - vm_compute in E. discriminate E.
Defined.

(** ** The ruble sign in [parse_price] *)

Lemma ready_app (pre s : str) : currency_ready s -> currency_ready (pre ++ s).
Proof.
  intros [(c & Hc & H)|(p & c & post & -> & H)].
  - left. exists c. split; [apply in_or_app; now right|exact H].
  - right. exists (pre ++ p), c, post. now rewrite <- app_assoc.
Qed.

Lemma ready_map (t : str) : currency_ready (replace_nbsp t) -> currency_ready t.
Proof.
  unfold replace_nbsp. intros [(c & Hc & H)|(p & c & post & E & H)].
  - left. apply in_map_iff in Hc as (x & <- & Hx). exists x. split; [exact Hx|].
    rewrite nbsp_ci in H by (simpl; tauto). exact H.
  - right. apply map_eq_app in E as (p' & r1 & -> & <- & E).
    apply map_eq_cons in E as (s' & r2 & -> & Es & E).
    apply map_eq_cons in E as (c' & post' & -> & <- & <-).
    exists p', c', post'. rewrite nbsp_word in H. split; [|exact H].
    unfold nbsp_to_space in Es. destruct (s' =? NBSP)%N; [discriminate|].
    now subst s'.
Qed.

Lemma currency_bnd_ready (st m : mstate) :
  In m (ms (Seq currency Bnd) st) -> currency_ready (rest st).
Proof.
  intros H. apply ms_seq_inv in H as (y & Hy & H).
  unfold currency, lit in Hy. rewrite word_ci_rub, word_ci_r in Hy.
  assert (L : forall c s, rest st = c :: s -> ci 1088%N c = true ->
                          currency_ready (rest st)).
  { intros c s E Hc. left. exists c. rewrite E. split; [now left|exact Hc]. }
  apply ms_alt_inv in Hy as [Hy|Hy]; [|apply ms_alt_inv in Hy as [Hy|Hy];
                                        [|apply ms_alt_inv in Hy as [Hy|Hy]]].
  - apply ms_cls_inv in Hy as (c & E & Hc & Pv & _).
    apply N.eqb_eq in Hc. subst c.
    cbn [ms] in H. unfold at_boundary, word_before in H. rewrite Pv in H.
    change (isword RUBLE_SIGN) with false in H. cbn [xorb] in H.
    unfold word_after in H. destruct (rest y) as [|c s] eqn:R; [destruct H|].
    destruct (isword c) eqn:W; [|destruct H].
    right. exists [], c, s. rewrite E. auto.
  - apply seq_cls_inv in Hy as (c & s & E & Hc). eauto.
  - apply ms_seq_inv in Hy as (z & Hz & _).
    apply seq_cls_inv in Hz as (c & s & E & Hc). eauto.
  - apply seq_cls_inv in Hy as (c & s & E & Hc). eauto.
Qed.

Lemma amount_tail_ready (st m : mstate) :
  In m (ms (Seq amount currency_tail) st) -> currency_ready (rest st).
Proof.
  intros H. apply ms_seq_inv in H as (st2 & H2 & H).
  unfold currency_tail in H. apply ms_seq_inv in H as (st3 & H3 & H).
  destruct (ms_reaches _ _ _ H2) as (w2 & E2 & _).
  destruct (ms_reaches _ _ _ H3) as (w3 & E3 & _).
  rewrite E2, E3. apply ready_app, ready_app. eapply currency_bnd_ready, H.
Qed.

Lemma price_pat_ready (r : regex) (st m : mstate) :
  r = price_pat1 \/ r = price_pat2 ->
  In m (ms r st) -> currency_ready (rest st).
Proof.
  intros [-> | ->] H.
  - unfold price_pat1 in H. apply ms_seq_inv in H as (st1 & H1 & H).
    destruct (ms_reaches _ _ _ H1) as (w & E & _).
    rewrite E. apply ready_app. eapply amount_tail_ready, H.
  - unfold price_pat2 in H. apply ms_seq_inv in H as (st1 & H1 & H).
    destruct (ms_reaches _ _ _ H1) as (w & E & _).
    rewrite E. apply ready_app. eapply amount_tail_ready, H.
Qed.

Lemma search_not_ready (r : regex) (t : str) :
  r = price_pat1 \/ r = price_pat2 ->
  ~ currency_ready t -> re_search r t = None.
Proof.
  intros Hr Hn. unfold re_search.
  destruct (search_from r None t) as [m|] eqn:E; [|reflexivity].
  apply search_from_inv in E as (pre & pv & s & -> & H).
  exfalso. apply Hn, ready_app. exact (price_pat_ready r _ _ Hr H).
Qed.

(** X25. The ruble sign marks a price only when a word character comes
    right after it: in a text without the letter [р], in which no ruble
    sign is directly followed by a letter, a digit or an underscore, and
    without a line made of a number alone, [parse_price] finds no price,
    whatever amounts stand before the signs. *)
Theorem parse_price_ruble_sign (text : str) :
  ~ has_rub_letter text -> ~ sign_before_word text ->
  has_number_line text = false ->
  parse_price text = Ok None.
Proof.
  intros Hl Hs Hn. unfold parse_price. destruct (is_empty text); [reflexivity|].
  assert (Hr : ~ currency_ready (replace_nbsp text)).
  { intros H. apply ready_map in H as [H|H]; auto. }
  cbn [price_by_patterns].
  rewrite (search_not_ready price_pat1 _ (or_introl eq_refl) Hr).
  rewrite (search_not_ready price_pat2 _ (or_intror eq_refl) Hr).
  cbn [bind]. rewrite splitlines_map. apply price_by_lines_none, Hn.
Qed.

Lemma in_ci_false (t : str) :
  forallb (fun c => negb (ci 1088%N c)) t = true -> ~ has_rub_letter t.
Proof.
  intros H (c & Hc & K). rewrite forallb_forall in H.
  specialize (H c Hc). rewrite K in H. discriminate.
Qed.

Lemma sign_before_wordb_ok (t : str) :
  sign_before_wordb t = false -> ~ sign_before_word t.
Proof.
  intros H (pre & c & post & -> & W). revert H.
  induction pre as [|x pre IH]; cbn [app sign_before_wordb].
  - now rewrite N.eqb_refl, W.
  - intros H. apply orb_false_iff in H as [_ H]. auto.
Qed.

Lemma parse_price_ruble_sign_witness :
  parse_price (u "Пальто 4 990.00 ₽, доставка 300₽.") = Ok None.
Proof.
  apply (parse_price_ruble_sign (u "Пальто 4 990.00 ₽, доставка 300₽.")).
  - apply in_ci_false. vm_compute. reflexivity.
  - apply sign_before_wordb_ok. vm_compute. reflexivity.
  - vm_compute. reflexivity.
Defined.
